(** * Fan controller: PID engine, sensor aggregation, IPMI actuation, control loop

    A shallow embedding of the Go sources of the fan controller
    (PID controller, sensors, ipmi.go, the control loop of main, config.go
    and the metrics) together with the properties the design document
    states about them and further properties read off the code.

    Conventions of the embedding.
    - Go [int] is a 64-bit two's complement integer: a [Z] whose arithmetic
      results go through [wrap64].
    - Go [float64] is the type [float64] below: the rational value of a
      number, or one of the IEEE special values NaN and the two infinities.
      The result of every operation, conversion and constant is rounded as
      IEEE 754 binary64 does it: to the nearest number the format has, a tie
      going to the one with an even last bit, with gradual underflow, and to
      an infinity from [2^1024 - 2^970] on.  Each operation is rounded on
      its own, as the compiler does it for amd64 (no fused multiply-add).
      Every comparison with NaN is false and 0/0 is NaN.  The sign of zero
      is not represented: the program divides by a [float64] only after
      testing it to be positive, or when it is the conversion of an [int]
      or a constant, so no result depends on it but the sign of a zero.
    - Go [map[string]int] is [gmap string Z]; the order in which [range]
      visits a map is unspecified in Go, so every function that ranges over
      a map takes the visiting order as an argument.
    - [time.Time] is a [Z] (nanoseconds since the zero [time.Time]),
      [time.Duration] an [int] number of nanoseconds. *)

From Stdlib Require Import ZArith QArith Qabs Qround Qpower Qreduction Lqa Lia.
From Stdlib Require Import Bool List String Ascii Sorted.
From Stdlib Require Floats.
From stdpp Require Import gmap strings list.

Local Open Scope Z_scope.

(** ** Go [int] *)

Module GoInt.

Definition min_int : Z := - 2 ^ 63.
Definition max_int : Z := 2 ^ 63 - 1.

Definition wrap64 (z : Z) : Z := (z + 2 ^ 63) mod 2 ^ 64 - 2 ^ 63.

Definition in_range (z : Z) : Prop := min_int <= z <= max_int.

Definition add (a b : Z) : Z := wrap64 (a + b).
Definition sub (a b : Z) : Z := wrap64 (a - b).

End GoInt.

(** ** Go [float64] *)

Module F64.

Inductive float64 : Type :=
| Fin (q : Q)
| PosInf
| NegInf
| NaN.

Definition zero : float64 := Fin 0.
Definition one : float64 := Fin 1.

Definition is_finite (x : float64) : Prop :=
  match x with Fin _ => True | _ => False end.

Definition is_nan (x : float64) : bool :=
  match x with NaN => true | _ => false end.

Definition Qsgn (q : Q) : comparison := (0 ?= q)%Q.

(** The format: 53 bits of precision, the least positive number is
    [2^-1074], and a result of magnitude [2^1024] or more is an infinity. *)
Definition prec : Z := 53.
Definition emin : Z := -1074.
Definition emax : Z := 1024.

Definition pow2 (e : Z) : Q := (2 ^ e)%Q.

(** [floor (log2 q)] for a positive [q]. *)
Definition ilog2 (q : Q) : Z :=
  let k := (Z.log2 (Qnum q) - Z.log2 (Z.pos (Qden q)))%Z in
  if Qle_bool (pow2 k) q then k else (k - 1)%Z.

(** The nearest integer, a tie going to the even one. *)
Definition rne (q : Q) : Z :=
  let f := Qfloor q in
  match (q - inject_Z f ?= 1 # 2)%Q with
  | Lt => f
  | Gt => (f + 1)%Z
  | Eq => if Z.even f then f else (f + 1)%Z
  end.

(** The multiple of the unit in the last place nearest to a positive [q],
    a tie going to the even multiple; the exponent is not bounded above. *)
Definition nearest (q : Q) : Q :=
  let e := Z.max (ilog2 q - (prec - 1)) emin in
  (inject_Z (rne (q / pow2 e)) * pow2 e)%Q.

Definition round_reduced (q : Q) : float64 :=
  match (0 ?= q)%Q with
  | Eq => Fin 0
  | Lt =>
      let v := nearest q in
      if Qle_bool (pow2 emax) v then PosInf else Fin (Qred v)
  | Gt =>
      let v := nearest (- q) in
      if Qle_bool (pow2 emax) v then NegInf else Fin (Qred (- v))
  end.

(** Rounding of an exact result to [float64]: to nearest, ties to even,
    overflow to an infinity. *)
Definition round (q : Q) : float64 := round_reduced (Qred q).

(** A constant of the source text. *)
Definition lit (q : Q) : float64 := round q.

(** Unary minus. *)
Definition neg (x : float64) : float64 :=
  match x with
  | Fin q => Fin (- q)
  | PosInf => NegInf
  | NegInf => PosInf
  | NaN => NaN
  end.

Definition add (x y : float64) : float64 :=
  match x, y with
  | NaN, _ | _, NaN => NaN
  | Fin a, Fin b => round (a + b)
  | PosInf, NegInf | NegInf, PosInf => NaN
  | PosInf, _ | _, PosInf => PosInf
  | NegInf, _ | _, NegInf => NegInf
  end.

Definition sub (x y : float64) : float64 := add x (neg y).

(** An infinity of the sign [Lt] (positive: [0 < q]) or [Gt] (negative);
    [Eq] is the invalid operation of multiplying an infinity by zero. *)
Definition inf_of_sign (s : comparison) : float64 :=
  match s with Lt => PosInf | Gt => NegInf | Eq => NaN end.

Definition mul (x y : float64) : float64 :=
  match x, y with
  | NaN, _ | _, NaN => NaN
  | Fin a, Fin b => round (a * b)
  | PosInf, Fin b | Fin b, PosInf => inf_of_sign (Qsgn b)
  | NegInf, Fin b | Fin b, NegInf => inf_of_sign (CompOpp (Qsgn b))
  | PosInf, PosInf | NegInf, NegInf => PosInf
  | PosInf, NegInf | NegInf, PosInf => NegInf
  end.

(** Division; a zero divisor is +0 (the sign of zero is not modelled). *)
Definition div (x y : float64) : float64 :=
  match x, y with
  | NaN, _ | _, NaN => NaN
  | Fin a, Fin b =>
      if Qeq_bool b 0 then inf_of_sign (Qsgn a) else round (a / b)
  | Fin _, _ => Fin 0
  | PosInf, Fin b => if Qle_bool 0 b then PosInf else NegInf
  | NegInf, Fin b => if Qle_bool 0 b then NegInf else PosInf
  | _, _ => NaN
  end.

(** [x < y] *)
Definition ltb (x y : float64) : bool :=
  match x, y with
  | NaN, _ | _, NaN => false
  | Fin a, Fin b => negb (Qle_bool b a)
  | NegInf, NegInf => false
  | NegInf, _ => true
  | _, PosInf => match x with PosInf => false | _ => true end
  | _, _ => false
  end.

(** [x <= y] *)
Definition leb (x y : float64) : bool :=
  match x, y with
  | NaN, _ | _, NaN => false
  | Fin a, Fin b => Qle_bool a b
  | NegInf, _ => true
  | _, PosInf => true
  | _, _ => false
  end.

(** [x == y] *)
Definition eqb (x y : float64) : bool :=
  match x, y with
  | Fin a, Fin b => Qeq_bool a b
  | PosInf, PosInf | NegInf, NegInf => true
  | _, _ => false
  end.

Definition gtb (x y : float64) : bool := ltb y x.
Definition geb (x y : float64) : bool := leb y x.

(** [float64(n)] for an [int] n. *)
Definition of_int (n : Z) : float64 := round (inject_Z n).

(** [int(x)]: truncation toward zero.  For NaN, the infinities and values
    outside the range of [int] the result is implementation-specific in Go;
    amd64 yields the minimal [int]. *)
Definition to_int (x : float64) : Z :=
  match x with
  | Fin q =>
      let t := Z.quot (Qnum q) (Z.pos (Qden q)) in
      if (GoInt.min_int <=? t) && (t <=? GoInt.max_int) then t else GoInt.min_int
  | _ => GoInt.min_int
  end.

Definition abs (x : float64) : float64 :=
  match x with
  | Fin q => Fin (Qabs q)
  | PosInf | NegInf => PosInf
  | NaN => NaN
  end.

End F64.

Import F64.

Declare Scope f64_scope.
Delimit Scope f64_scope with f64.
Bind Scope f64_scope with float64.
Infix "+" := F64.add : f64_scope.
Infix "-" := F64.sub : f64_scope.
Infix "*" := F64.mul : f64_scope.
Infix "/" := F64.div : f64_scope.
Notation "- x" := (F64.neg x) : f64_scope.
Infix "<?" := F64.ltb : f64_scope.
Infix "<=?" := F64.leb : f64_scope.
Infix ">?" := F64.gtb : f64_scope.
Infix ">=?" := F64.geb : f64_scope.
Infix "=?" := F64.eqb : f64_scope.

Local Open Scope f64_scope.

(** ** [time.Time] and [time.Duration] *)

Module GoTime.

Definition Second : Z := 1000000000.

(** The zero value [time.Time{}]. *)
Definition zeroTime : Z := 0.

(** [t.Sub(u)]: the duration t-u, saturated to the range of [Duration]. *)
Definition Sub (t u : Z) : Z :=
  let d := (t - u)%Z in
  if (d <? GoInt.min_int)%Z then GoInt.min_int
  else if (d >? GoInt.max_int)%Z then GoInt.max_int
  else d.

(** [d.Seconds()], as the package computes it: the whole seconds and the
    remaining nanoseconds are converted and added. *)
Definition Seconds (d : Z) : float64 :=
  let sec := Z.quot d Second in
  let nsec := Z.rem d Second in
  of_int sec + of_int nsec / Fin 1000000000.

End GoTime.

(** ** The PID controller *)

Module PID.

Record PIDController : Type := mkPID {
  Kp : float64;
  Ki : float64;
  Kd : float64;
  Target : float64;
  Integral : float64;
  PrevError : float64;
  PrevTime : Z;
  FirstRun : bool;
  MinOutput : float64;
  MaxOutput : float64;
  IntegralMax : float64
}.

Record PIDTerms : Type := mkTerms {
  P : float64;
  I : float64;
  D : float64;
  Error : float64
}.

(** The zero value [PIDTerms{}]. *)
Definition zeroTerms : PIDTerms := mkTerms zero zero zero zero.

Definition NewPIDController
    (kp ki kd target minOutput maxOutput integralMax : float64) : PIDController :=
  {| Kp := kp; Ki := ki; Kd := kd; Target := target;
     Integral := zero; PrevError := zero; PrevTime := GoTime.zeroTime;
     FirstRun := true;
     MinOutput := minOutput; MaxOutput := maxOutput;
     IntegralMax := integralMax |}.

Definition clamp (value min max : float64) : float64 :=
  if value <? min then min
  else if value >? max then max
  else value.

(** [p.Calculate(current)]; [now] is the value [time.Now()] returns inside
    the call.  The result is the output, the terms and the updated
    controller. *)
Definition Calculate (p : PIDController) (current : float64) (now : Z)
  : float64 * PIDTerms * PIDController :=
  let error := current - Target p in
  let dt :=
    if negb (FirstRun p) then GoTime.Seconds (GoTime.Sub now (PrevTime p))
    else Fin 1 in
  let proportional := Kp p * error in
  let integral := Integral p + error * dt in
  let integralClamped := clamp integral (- IntegralMax p) (IntegralMax p) in
  let derivative :=
    if negb (FirstRun p) && (dt >? zero)
    then Kd p * (error - PrevError p) / dt
    else zero in
  let output := proportional + integralClamped + derivative in
  let output := clamp output (MinOutput p) (MaxOutput p) in
  let p' :=
    {| Kp := Kp p; Ki := Ki p; Kd := Kd p; Target := Target p;
       Integral := integralClamped; PrevError := error; PrevTime := now;
       FirstRun := false;
       MinOutput := MinOutput p; MaxOutput := MaxOutput p;
       IntegralMax := IntegralMax p |} in
  let terms :=
    {| P := proportional; I := integralClamped; D := derivative;
       Error := error |} in
  (output, terms, p').

Definition Reset (p : PIDController) : PIDController :=
  {| Kp := Kp p; Ki := Ki p; Kd := Kd p; Target := Target p;
     Integral := zero; PrevError := zero; PrevTime := GoTime.zeroTime;
     FirstRun := true;
     MinOutput := MinOutput p; MaxOutput := MaxOutput p;
     IntegralMax := IntegralMax p |}.

Definition SetTarget (p : PIDController) (target : float64) : PIDController :=
  {| Kp := Kp p; Ki := Ki p; Kd := Kd p; Target := target;
     Integral := Integral p; PrevError := PrevError p; PrevTime := PrevTime p;
     FirstRun := FirstRun p;
     MinOutput := MinOutput p; MaxOutput := MaxOutput p;
     IntegralMax := IntegralMax p |}.

Definition SetGains (p : PIDController) (kp ki kd : float64) : PIDController :=
  {| Kp := kp; Ki := ki; Kd := kd; Target := Target p;
     Integral := Integral p; PrevError := PrevError p; PrevTime := PrevTime p;
     FirstRun := FirstRun p;
     MinOutput := MinOutput p; MaxOutput := MaxOutput p;
     IntegralMax := IntegralMax p |}.

Definition SetLimits (p : PIDController) (minOutput maxOutput : float64)
  : PIDController :=
  {| Kp := Kp p; Ki := Ki p; Kd := Kd p; Target := Target p;
     Integral := Integral p; PrevError := PrevError p; PrevTime := PrevTime p;
     FirstRun := FirstRun p;
     MinOutput := minOutput; MaxOutput := maxOutput;
     IntegralMax := IntegralMax p |}.

Definition SetIntegralMax (p : PIDController) (integralMax : float64)
  : PIDController :=
  {| Kp := Kp p; Ki := Ki p; Kd := Kd p; Target := Target p;
     Integral := Integral p; PrevError := PrevError p; PrevTime := PrevTime p;
     FirstRun := FirstRun p;
     MinOutput := MinOutput p; MaxOutput := MaxOutput p;
     IntegralMax := integralMax |}.

(** A finite sequence of [Calculate] calls, each with its reading and the
    time of the call; outputs are dropped, the final controller is kept. *)
Fixpoint run (p : PIDController) (calls : list (float64 * Z)) : PIDController :=
  match calls with
  | [] => p
  | (current, now) :: rest => run (snd (Calculate p current now)) rest
  end.

(** The output the design document describes, in its first convention:
    the integral gain [Ki] multiplies the clamped accumulator before the
    three terms are added.  Written from the document, to be compared with
    [Calculate]. *)
Definition Ki_folded_output (p : PIDController) (current : float64) (now : Z)
  : float64 :=
  let '(_, terms, p') := Calculate p current now in
  clamp (P terms + Ki p * Integral p' + D terms) (MinOutput p) (MaxOutput p).

(** The second convention of the document: [Ki] is applied when the error
    is accumulated, and the clamped accumulator is added as it is. *)
Definition Ki_accumulated_output
    (p : PIDController) (current : float64) (now : Z) : float64 :=
  let '(_, terms, _) := Calculate p current now in
  let error := current - Target p in
  let dt :=
    if negb (FirstRun p) then GoTime.Seconds (GoTime.Sub now (PrevTime p))
    else Fin 1 in
  let integral := Integral p + Ki p * error * dt in
  let integralClamped := clamp integral (- IntegralMax p) (IntegralMax p) in
  clamp (P terms + integralClamped + D terms) (MinOutput p) (MaxOutput p).

End PID.

(** ** The [regexp] package, on a fragment of its syntax

    [regexp.MatchString(pattern, s)] compiles [pattern] and reports whether
    [s] contains a match of it.  The syntax covered here: literal
    characters, [.], [^], [$], [|], groups [( )] and [(?: )], the repetitions
    [*], [+], [?] and their lazy forms, bracket classes with ranges and
    negation, and [\] before a punctuation character.  Strings are sequences
    of ASCII characters.  Other syntax of the package (counted repetition,
    Perl classes, flags, named groups and classes) and other characters are
    not covered: [covered] tells whether a pattern and a subject are, and
    [Compile] and [MatchString] describe the package on those only. *)

Module Regexp.

Inductive regex : Type :=
| EmptyMatch
| Literal (c : ascii)
| AnyCharNotNL
| CharClass (negated : bool) (ranges : list (ascii * ascii))
| BeginText
| EndText
| Concat (a b : regex)
| Alternate (a b : regex)
| Star (a : regex)
| Plus (a : regex)
| Quest (a : regex).

Definition code (c : ascii) : nat := nat_of_ascii c.

Definition in_ranges (c : ascii) (ranges : list (ascii * ascii)) : bool :=
  existsb (fun r => (code (fst r) <=? code c)%nat && (code c <=? code (snd r))%nat)
          ranges.

(** Positions reachable from [i] by zero or more rounds of [step], each
    round moving forward; a round that stays in place adds no position. *)
Fixpoint iterate (step : nat -> list nat) (fuel : nat) (i : nat) : list nat :=
  match fuel with
  | O => [i]
  | S fuel' =>
      i :: flat_map (iterate step fuel')
             (List.filter (fun j => (i <? j)%nat) (step i))
  end.

(** [ends r s i]: the positions at which a match of [r] that starts at
    position [i] of [s] can end. *)
Fixpoint ends (r : regex) (s : list ascii) (i : nat) : list nat :=
  match r with
  | EmptyMatch => [i]
  | Literal c =>
      match nth_error s i with
      | Some c' => if Ascii.eqb c c' then [S i] else []
      | None => []
      end
  | AnyCharNotNL =>
      match nth_error s i with
      | Some c' => if Ascii.eqb c' "010"%char then [] else [S i]
      | None => []
      end
  | CharClass negated ranges =>
      match nth_error s i with
      | Some c' => if xorb negated (in_ranges c' ranges) then [S i] else []
      | None => []
      end
  | BeginText => if (i =? 0)%nat then [i] else []
  | EndText => if (i =? length s)%nat then [i] else []
  | Concat a b => flat_map (ends b s) (ends a s i)
  | Alternate a b => ends a s i ++ ends b s i
  | Star a => iterate (ends a s) (length s) i
  | Plus a => flat_map (iterate (ends a s) (length s)) (ends a s i)
  | Quest a => ends a s i ++ [i]
  end.

(** The meaning of a regular expression, stated on its own:
    [Matches s r i j] says that [r] matches the part of [s] from position
    [i] up to position [j], where [^] and [$] look at the whole of [s]. *)
Inductive Matches (s : list ascii) : regex -> nat -> nat -> Prop :=
| M_Empty i : Matches s EmptyMatch i i
| M_Literal c i : nth_error s i = Some c -> Matches s (Literal c) i (S i)
| M_AnyCharNotNL c i :
    nth_error s i = Some c -> c <> "010"%char -> Matches s AnyCharNotNL i (S i)
| M_CharClass negated ranges c i :
    nth_error s i = Some c -> xorb negated (in_ranges c ranges) = true ->
    Matches s (CharClass negated ranges) i (S i)
| M_BeginText : Matches s BeginText 0 0
| M_EndText : Matches s EndText (length s) (length s)
| M_Concat a b i j k :
    Matches s a i j -> Matches s b j k -> Matches s (Concat a b) i k
| M_AlternateL a b i j : Matches s a i j -> Matches s (Alternate a b) i j
| M_AlternateR a b i j : Matches s b i j -> Matches s (Alternate a b) i j
| M_StarDone a i : Matches s (Star a) i i
| M_StarMore a i j k :
    Matches s a i j -> Matches s (Star a) j k -> Matches s (Star a) i k
| M_Plus a i j k :
    Matches s a i j -> Matches s (Star a) j k -> Matches s (Plus a) i k
| M_QuestSome a i j : Matches s a i j -> Matches s (Quest a) i j
| M_QuestNone a i : Matches s (Quest a) i i.

(** A match of [r] starting at position [i]. *)
Definition match_at (r : regex) (s : list ascii) (i : nat) : bool :=
  match ends r s i with [] => false | _ => true end.

(** Unanchored search, what the package's [MatchString] does: a match may
    start at any position. *)
Definition search (r : regex) (s : list ascii) : bool :=
  existsb (match_at r s) (seq 0 (S (length s))).

Definition is_repeat_op (c : ascii) : bool :=
  Ascii.eqb c "*" || Ascii.eqb c "+" || Ascii.eqb c "?".

Definition is_alnum (c : ascii) : bool :=
  let n := code c in
  ((48 <=? n) && (n <=? 57) || (65 <=? n) && (n <=? 90)
   || (97 <=? n) && (n <=? 122))%nat.

(** One character of a bracket class, possibly escaped. *)
Definition class_char (inp : list ascii) : option (ascii * list ascii) :=
  match inp with
  | [] => None
  | "\"%char :: c :: rest => if is_alnum c then None else Some (c, rest)
  | "\"%char :: [] => None
  | c :: rest => Some (c, rest)
  end.

(** The items of a bracket class up to the closing bracket; [first] says
    that no item was read yet, where a closing bracket is a literal. *)
Fixpoint parse_class (fuel : nat) (first : bool) (inp : list ascii)
  : option (list (ascii * ascii) * list ascii) :=
  match fuel with
  | O => None
  | S fuel' =>
      match inp with
      | [] => None
      | "]"%char :: rest =>
          if first then
            match parse_class fuel' false rest with
            | Some (rs, rest') => Some (("]"%char, "]"%char) :: rs, rest')
            | None => None
            end
          else Some ([], rest)
      | "["%char :: ":"%char :: _ => None
      | _ =>
          match class_char inp with
          | None => None
          | Some (lo, rest) =>
              match rest with
              | "-"%char :: rest1 =>
                  match rest1 with
                  | "]"%char :: _ =>
                      match parse_class fuel' false rest with
                      | Some (rs, rest') => Some ((lo, lo) :: rs, rest')
                      | None => None
                      end
                  | _ =>
                      match class_char rest1 with
                      | None => None
                      | Some (hi, rest2) =>
                          if (code hi <? code lo)%nat then None
                          else
                            match parse_class fuel' false rest2 with
                            | Some (rs, rest') => Some ((lo, hi) :: rs, rest')
                            | None => None
                            end
                      end
                  end
              | _ =>
                  match parse_class fuel' false rest with
                  | Some (rs, rest') => Some ((lo, lo) :: rs, rest')
                  | None => None
                  end
              end
          end
      end
  end.

(** The repetition operators that follow an operand. *)
Definition parse_suffix (r : regex) (inp : list ascii)
  : option (regex * list ascii) :=
  match inp with
  | "{"%char :: _ => None
  | c :: rest =>
      if is_repeat_op c then
        let r' :=
          if Ascii.eqb c "*" then Star r
          else if Ascii.eqb c "+" then Plus r else Quest r in
        let rest' :=
          match rest with "?"%char :: rest1 => rest1 | _ => rest end in
        match rest' with
        | "{"%char :: _ => None
        | c' :: _ => if is_repeat_op c' then None else Some (r', rest')
        | [] => Some (r', rest')
        end
      else Some (r, inp)
  | [] => Some (r, inp)
  end.

Fixpoint parse_alt (fuel : nat) (inp : list ascii) {struct fuel}
  : option (regex * list ascii) :=
  match fuel with
  | O => None
  | S fuel' =>
      match parse_concat fuel' inp with
      | None => None
      | Some (r, "|"%char :: rest) =>
          match parse_alt fuel' rest with
          | Some (r2, rest') => Some (Alternate r r2, rest')
          | None => None
          end
      | Some (r, rest) => Some (r, rest)
      end
  end
with parse_concat (fuel : nat) (inp : list ascii) {struct fuel}
  : option (regex * list ascii) :=
  match fuel with
  | O => None
  | S fuel' =>
      match inp with
      | [] => Some (EmptyMatch, inp)
      | ")"%char :: _ | "|"%char :: _ => Some (EmptyMatch, inp)
      | _ =>
          match parse_atom fuel' inp with
          | None => None
          | Some (a, rest) =>
              match parse_suffix a rest with
              | None => None
              | Some (r, rest1) =>
                  match parse_concat fuel' rest1 with
                  | Some (r2, rest2) => Some (Concat r r2, rest2)
                  | None => None
                  end
              end
          end
      end
  end
with parse_atom (fuel : nat) (inp : list ascii) {struct fuel}
  : option (regex * list ascii) :=
  match fuel with
  | O => None
  | S fuel' =>
      match inp with
      | [] => None
      | "("%char :: rest =>
          let body :=
            match rest with
            | "?"%char :: ":"%char :: rest1 => Some rest1
            | "?"%char :: _ => None
            | _ => Some rest
            end in
          match body with
          | None => None
          | Some body =>
              match parse_alt fuel' body with
              | Some (r, ")"%char :: rest') => Some (r, rest')
              | _ => None
              end
          end
      | "["%char :: "^"%char :: rest =>
          match parse_class (S (length rest)) true rest with
          | Some (rs, rest') => Some (CharClass true rs, rest')
          | None => None
          end
      | "["%char :: rest =>
          match parse_class (S (length rest)) true rest with
          | Some (rs, rest') => Some (CharClass false rs, rest')
          | None => None
          end
      | "."%char :: rest => Some (AnyCharNotNL, rest)
      | "^"%char :: rest => Some (BeginText, rest)
      | "$"%char :: rest => Some (EndText, rest)
      | "\"%char :: c :: rest =>
          if is_alnum c then None else Some (Literal c, rest)
      | "\"%char :: [] => None
      | "{"%char :: _ => None
      | c :: rest => if is_repeat_op c then None else Some (Literal c, rest)
      end
  end.

Definition is_ascii (c : ascii) : bool := (code c <? 128)%nat.

(** The syntax covered: ASCII characters, no [\] before a letter or a
    digit, no brace, no group that starts with [(?] other than [(?:], no
    named class. *)
Fixpoint covered_syntax (inp : list ascii) : bool :=
  match inp with
  | [] => true
  | "\"%char :: c :: rest =>
      is_ascii c && negb (is_alnum c) && covered_syntax rest
  | "{"%char :: _ => false
  | "("%char :: "?"%char :: ":"%char :: rest => covered_syntax rest
  | "("%char :: "?"%char :: _ => false
  | "["%char :: ":"%char :: _ => false
  | c :: rest => is_ascii c && covered_syntax rest
  end.

(** A pattern of the covered syntax, short enough to stay clear of the
    package's limits on nesting and size, with an ASCII subject. *)
Definition covered (pattern s : string) : bool :=
  (String.length pattern <=? 1000)%nat
  && covered_syntax (list_ascii_of_string pattern)
  && forallb is_ascii (list_ascii_of_string s).

(** [regexp.Compile] on a covered pattern: [None] is the error result. *)
Definition Compile (pattern : string) : option regex :=
  let inp := list_ascii_of_string pattern in
  match parse_alt (4 * length inp + 4) inp with
  | Some (r, []) => Some r
  | _ => None
  end.

(** [regexp.MatchString(pattern, s)] on a covered pattern and subject:
    [None] is the error result, [Some matched] the result [(matched, nil)]. *)
Definition MatchString (pattern s : string) : option bool :=
  match Compile pattern with
  | None => None
  | Some re => Some (search re (list_ascii_of_string s))
  end.

(** A match anchored at the start of the name, as the design document
    words the exclusion test: the pattern must match from position 0. *)
Definition anchored_match (pattern s : string) : bool :=
  match Compile pattern with
  | None => false
  | Some re => match_at re (list_ascii_of_string s) 0
  end.

(** A function that does what [regexp.MatchString] does wherever this
    model covers it; on other patterns and subjects nothing is said. *)
Definition implements (matchString : string -> string -> option bool) : Prop :=
  forall pattern s,
    covered pattern s = true -> matchString pattern s = MatchString pattern s.

End Regexp.

(** ** Sensor aggregation and disk filtering *)

Module Sensors.

(** [order] is one order in which [range temps] may visit the map. *)
Definition visits (temps : gmap string Z) (order : list (string * Z)) : Prop :=
  order ≡ₚ map_to_list temps.

(** [len(temps)] *)
Definition len (temps : gmap string Z) : Z := Z.of_nat (size temps).

Section Exclusion.

(** [regexp.MatchString], the function of the library: [None] is its error
    result, [Some matched] the result [(matched, nil)]. *)
Variable MatchString : string -> string -> option bool.

(** [matchesExcludePattern]: the loop over the patterns; an invalid
    pattern is logged and the loop continues. *)
Fixpoint matchesExcludePattern (device : string) (patterns : list string) : bool :=
  match patterns with
  | [] => false
  | pattern :: rest =>
      match MatchString pattern device with
      | None => matchesExcludePattern device rest
      | Some matched =>
          if matched then true else matchesExcludePattern device rest
      end
  end.

(** The loop of [discoverSpinningDisks] over the directory entries;
    [isSpinningDisk] stands for the function of that name, which reads
    sysfs ([None] is its error result, logged and skipped). *)
Fixpoint discoverLoop
    (isSpinningDisk : string -> option bool) (excludePatterns : list string)
    (entries : list string) (disks : list string) : list string :=
  match entries with
  | [] => disks
  | device :: rest =>
      if matchesExcludePattern device excludePatterns
      then discoverLoop isSpinningDisk excludePatterns rest disks
      else
        match isSpinningDisk device with
        | None => discoverLoop isSpinningDisk excludePatterns rest disks
        | Some isSpinning =>
            if isSpinning
            then discoverLoop isSpinningDisk excludePatterns rest
                   (disks ++ [device])
            else discoverLoop isSpinningDisk excludePatterns rest disks
        end
  end.

(** [discoverSpinningDisks]; [readDir] is the result of
    [os.ReadDir("/sys/block")], [None] for an error. *)
Definition discoverSpinningDisks
    (readDir : option (list string)) (isSpinningDisk : string -> option bool)
    (excludePatterns : list string) : option (list string) :=
  match readDir with
  | None => None
  | Some entries =>
      Some (discoverLoop isSpinningDisk excludePatterns entries [])
  end.

End Exclusion.

(** The body of the inner loop of the bubble sort at index [j]. *)
Definition swap_if_less (tempSlice : list Z) (j : nat) : list Z :=
  match tempSlice !! j, tempSlice !! S j with
  | Some a, Some b =>
      if (a <? b)%Z then <[j := b]> (<[S j := a]> tempSlice) else tempSlice
  | _, _ => tempSlice
  end.

(** [for j := j0; j < bound; j++], with [count] = [bound - j0] rounds left. *)
Fixpoint inner_loop (tempSlice : list Z) (j count : nat) : list Z :=
  match count with
  | O => tempSlice
  | S count' => inner_loop (swap_if_less tempSlice j) (S j) count'
  end.

(** [for i := i0; i < len(tempSlice)-1; i++], with [count] rounds left. *)
Fixpoint outer_loop (tempSlice : list Z) (i count : nat) : list Z :=
  match count with
  | O => tempSlice
  | S count' =>
      outer_loop (inner_loop tempSlice 0 (length tempSlice - i - 1)) (S i) count'
  end.

Definition bubble_sort_desc (tempSlice : list Z) : list Z :=
  outer_loop tempSlice 0 (length tempSlice - 1).

(** [for i := 0; i < take; i++ { sum += tempSlice[i] }] *)
Definition sum_first (tempSlice : list Z) (take : Z) : Z :=
  fold_left GoInt.add (firstn (Z.to_nat take) tempSlice) 0%Z.

Definition GetAverageOfWarmest
    (temps : gmap string Z) (order : list (string * Z)) (n : Z) : float64 :=
  if (len temps =? 0)%Z then Fin 0
  else
    let tempSlice := map snd order in
    let tempSlice := bubble_sort_desc tempSlice in
    let take := n in
    let take :=
      if (Z.of_nat (length tempSlice) <? take)%Z
      then Z.of_nat (length tempSlice) else take in
    let sum := sum_first tempSlice take in
    of_int sum / of_int take.

(** [if temp > max { max = temp }] *)
Definition max_step (max temp : Z) : Z :=
  if (temp >? max)%Z then temp else max.

(** [if temp < min { min = temp }] *)
Definition min_step (min temp : Z) : Z :=
  if (temp <? min)%Z then temp else min.

Definition GetMaxTemperature
    (temps : gmap string Z) (order : list (string * Z)) : Z :=
  fold_left max_step (map snd order) 0%Z.

(** [order0] is the visit of the closure that picks the first key,
    [order] the visit of the loop. *)
Definition GetMinTemperature
    (temps : gmap string Z) (order0 order : list (string * Z)) : Z :=
  if (len temps =? 0)%Z then 0%Z
  else
    let k := match order0 with (k, _) :: _ => k | [] => ""%string end in
    let min := default 0%Z (temps !! k) in
    fold_left min_step (map snd order) min.

End Sensors.

(** ** The world of the program: subprocesses, sleeping, metrics *)

Module Sys.

Inductive event : Type :=
| EvSetAllFans (dutyPercent : Z)
| EvExec (name : string) (args : list string)
| EvSleep (d : Z)
| EvRecordError (errorType : string)
| EvUpdateAllMetrics
    (fanDuty : Z) (pidTerms : PID.PIDTerms) (avgTemp : float64) (maxTemp : Z)
    (emergencyReason : string).

(** [outcomes k] tells whether the [k]-th run of [ipmitool raw] exits with
    status 0; [nexec] counts the runs so far; [trace] lists what happened,
    the latest event first.  Log lines are not recorded. *)
Record World : Type := mkWorld {
  outcomes : nat -> bool;
  nexec : nat;
  trace : list event
}.

Definition M (A : Type) : Type := World -> A * World.

Definition ret {A : Type} (a : A) : M A := fun w => (a, w).

Definition bind {A B : Type} (m : M A) (k : A -> M B) : M B :=
  fun w => let '(a, w') := m w in k a w'.

Definition emit (e : event) : M unit :=
  fun w => (tt, {| outcomes := outcomes w; nexec := nexec w;
                   trace := e :: trace w |}).

(** [exec.Command(name, args...).CombinedOutput()]; the result tells
    whether [err == nil]. *)
Definition exec (name : string) (args : list string) : M bool :=
  fun w => (outcomes w (nexec w),
            {| outcomes := outcomes w; nexec := S (nexec w);
               trace := EvExec name args :: trace w |}).

Definition sleep (d : Z) : M unit := emit (EvSleep d).

Definition RecordError (errorType : string) : M unit :=
  emit (EvRecordError errorType).

(** The duties [SetAllFans] was called with, in the order of the calls. *)
Definition commanded (tr : list event) : list Z :=
  rev (flat_map (fun e => match e with EvSetAllFans d => [d] | _ => [] end) tr).

(** The argument vectors [ipmitool] was run with, in order. *)
Definition invocations (tr : list event) : list (list string) :=
  rev (flat_map (fun e => match e with EvExec _ args => [args] | _ => [] end) tr).

End Sys.

Notation "'let*' x ':=' m 'in' k" := (Sys.bind m (fun x => k))
  (at level 10, x name, m at level 100, k at level 200).
Notation "m '>>' k" := (Sys.bind m (fun _ => k))
  (at level 100, k at level 200, right associativity).

(** ** The fan actuator *)

Module IPMI.

Import Sys.

Definition numFans : nat := 6.
Definition numPadding : nat := 10.

(** [lastErr] is the number of the attempt whose failure the final error
    wraps. *)
Inductive error : Type :=
| InvalidDuty (dutyPercent : Z)
| IPMICommandFailed (lastErr : option Z).

Definition hexDigit (n : Z) : ascii :=
  nth (Z.to_nat n) (list_ascii_of_string "0123456789abcdef") "0"%char.

Fixpoint hexDigits (fuel : nat) (n : Z) (acc : list ascii) : list ascii :=
  match fuel with
  | O => acc
  | S fuel' =>
      if (n <? 16)%Z then hexDigit n :: acc
      else hexDigits fuel' (n / 16)%Z (hexDigit (n mod 16)%Z :: acc)
  end.

Definition padLeft (width : nat) (digits : list ascii) : list ascii :=
  repeat "0"%char (width - length digits) ++ digits.

(** [fmt.Sprintf("0x%02x", d)] *)
Definition sprintf_0x02x (d : Z) : string :=
  let body :=
    if (d <? 0)%Z then "-"%char :: padLeft 1 (hexDigits 16 (- d)%Z [])
    else padLeft 2 (hexDigits 16 d []) in
  String "0" (String "x" (string_of_list_ascii body)).

(** The argument vector [SetAllFans] builds. *)
Definition encode (dutyPercent : Z) : list string :=
  let dutyHex := sprintf_0x02x dutyPercent in
  let args := ["raw"; "0x3a"; "0xd6"]%string in
  let args := args ++ repeat dutyHex numFans in
  let args := args ++ repeat "0x64"%string numPadding in
  args.

(** [for attempt := ...; attempt <= 3; attempt++], with [remaining] rounds
    left; after the loop the last error is wrapped. *)
Fixpoint attempts (args : list string) (remaining : nat) (attempt : Z)
    (lastErr : option Z) : M (option error) :=
  match remaining with
  | O => ret (Some (IPMICommandFailed lastErr))
  | S remaining' =>
      let* ok := exec "ipmitool" args in
      if ok then ret None
      else
        let lastErr := Some attempt in
        (if (attempt <? 3)%Z then sleep (2 * GoTime.Second)%Z else ret tt) >>
        attempts args remaining' (attempt + 1)%Z lastErr
  end.

(** [SetAllFans(dutyPercent)]; [None] is the result [nil].  The call
    itself is noted in the trace, so that the duties commanded can be read
    off it. *)
Definition SetAllFans (dutyPercent : Z) : M (option error) :=
  emit (EvSetAllFans dutyPercent) >>
  if (dutyPercent <? 0)%Z || (dutyPercent >? 100)%Z
  then ret (Some (InvalidDuty dutyPercent))
  else attempts (encode dutyPercent) 3 1%Z None.

End IPMI.

(** ** The duty byte of the design document *)

Module Design.

(** The duties 0 to 100 as two-digit lowercase hexadecimal bytes, written
    out as the design document gives them ([50] is [0x32], [100] is
    [0x64]); to be compared with what [SetAllFans] formats. *)
Definition dutyBytes : list string :=
  [
   "0x00"; "0x01"; "0x02"; "0x03"; "0x04"; "0x05"; "0x06"; "0x07";
   "0x08"; "0x09"; "0x0a"; "0x0b"; "0x0c"; "0x0d"; "0x0e"; "0x0f";
   "0x10"; "0x11"; "0x12"; "0x13"; "0x14"; "0x15"; "0x16"; "0x17";
   "0x18"; "0x19"; "0x1a"; "0x1b"; "0x1c"; "0x1d"; "0x1e"; "0x1f";
   "0x20"; "0x21"; "0x22"; "0x23"; "0x24"; "0x25"; "0x26"; "0x27";
   "0x28"; "0x29"; "0x2a"; "0x2b"; "0x2c"; "0x2d"; "0x2e"; "0x2f";
   "0x30"; "0x31"; "0x32"; "0x33"; "0x34"; "0x35"; "0x36"; "0x37";
   "0x38"; "0x39"; "0x3a"; "0x3b"; "0x3c"; "0x3d"; "0x3e"; "0x3f";
   "0x40"; "0x41"; "0x42"; "0x43"; "0x44"; "0x45"; "0x46"; "0x47";
   "0x48"; "0x49"; "0x4a"; "0x4b"; "0x4c"; "0x4d"; "0x4e"; "0x4f";
   "0x50"; "0x51"; "0x52"; "0x53"; "0x54"; "0x55"; "0x56"; "0x57";
   "0x58"; "0x59"; "0x5a"; "0x5b"; "0x5c"; "0x5d"; "0x5e"; "0x5f";
   "0x60"; "0x61"; "0x62"; "0x63"; "0x64"]%string.

End Design.

(** ** Configuration *)

Module Cfg.

Record ServerConfig : Type := {
  MetricsPort : Z;
  LogLevel : string
}.

Record TemperatureConfig : Type := {
  TargetHDD : float64;
  MaxHDD : float64;
  MaxCPU : float64;
  PollInterval : Z;
  WarmestDisks : Z
}.

Record FanConfig : Type := {
  MinDuty : Z;
  MaxDuty : Z;
  StartupDuty : Z
}.

Record PIDConfig : Type := {
  Kp : float64;
  Ki : float64;
  Kd : float64;
  IntegralMax : float64
}.

Record DiskConfig : Type := {
  ExcludePatterns : list string
}.

Record Config : Type := {
  Server : ServerConfig;
  Temperature : TemperatureConfig;
  Fans : FanConfig;
  PID : PIDConfig;
  Disks : DiskConfig
}.

Definition defaultExcludePatterns : list string :=
  ["^loop"; "^sr"; "^zram"; "^zd"; "^dm-"]%string.

(** [setDefaults]: every statement of the source tests one field and
    assigns that same field, so the fields are given here one by one. *)
Definition setDefaults (config : Config) : Config :=
  {| Server :=
       {| MetricsPort :=
            if (MetricsPort (Server config) =? 0)%Z then 9090%Z
            else MetricsPort (Server config);
          LogLevel :=
            if String.eqb (LogLevel (Server config)) "" then "info"%string
            else LogLevel (Server config) |};
     Temperature :=
       {| TargetHDD :=
            if TargetHDD (Temperature config) =? zero then Fin 38
            else TargetHDD (Temperature config);
          MaxHDD :=
            if MaxHDD (Temperature config) =? zero then Fin 40
            else MaxHDD (Temperature config);
          MaxCPU :=
            if MaxCPU (Temperature config) =? zero then Fin 75
            else MaxCPU (Temperature config);
          PollInterval :=
            if (PollInterval (Temperature config) =? 0)%Z
            then (30 * GoTime.Second)%Z
            else PollInterval (Temperature config);
          WarmestDisks :=
            if (WarmestDisks (Temperature config) =? 0)%Z then 4%Z
            else WarmestDisks (Temperature config) |};
     Fans :=
       {| MinDuty :=
            if (MinDuty (Fans config) =? 0)%Z then 30%Z
            else MinDuty (Fans config);
          MaxDuty :=
            if (MaxDuty (Fans config) =? 0)%Z then 100%Z
            else MaxDuty (Fans config);
          StartupDuty :=
            if (StartupDuty (Fans config) =? 0)%Z then 50%Z
            else StartupDuty (Fans config) |};
     PID :=
       {| Kp := if Kp (PID config) =? zero then Fin 5 else Kp (PID config);
          Ki := if Ki (PID config) =? zero then lit (1 # 10)
                else Ki (PID config);
          Kd := if Kd (PID config) =? zero then Fin 20 else Kd (PID config);
          IntegralMax :=
            if IntegralMax (PID config) =? zero then Fin 50
            else IntegralMax (PID config) |};
     Disks :=
       {| ExcludePatterns :=
            if (length (ExcludePatterns (Disks config)) =? 0)%nat
            then defaultExcludePatterns
            else ExcludePatterns (Disks config) |} |}.

Inductive ValidateError : Type :=
| ErrTargetNotBelowMax
| ErrTargetNotPositive
| ErrMaxHDDNotPositive
| ErrMaxCPUNotPositive
| ErrPollIntervalNotPositive
| ErrWarmestDisksNotPositive
| ErrMinDutyRange
| ErrMaxDutyRange
| ErrStartupDutyRange
| ErrMinDutyNotBelowMax
| ErrKpNegative
| ErrKiNegative
| ErrKdNegative
| ErrIntegralMaxNotPositive
| ErrMetricsPortRange
| ErrLogLevel.

(** [c.Validate()]; [None] is the result [nil]. *)
Definition Validate (c : Config) : option ValidateError :=
  if TargetHDD (Temperature c) >=? MaxHDD (Temperature c)
  then Some ErrTargetNotBelowMax
  else if TargetHDD (Temperature c) <=? zero then Some ErrTargetNotPositive
  else if MaxHDD (Temperature c) <=? zero then Some ErrMaxHDDNotPositive
  else if MaxCPU (Temperature c) <=? zero then Some ErrMaxCPUNotPositive
  else if (PollInterval (Temperature c) <=? 0)%Z
  then Some ErrPollIntervalNotPositive
  else if (WarmestDisks (Temperature c) <=? 0)%Z
  then Some ErrWarmestDisksNotPositive
  else if (MinDuty (Fans c) <? 0)%Z || (MinDuty (Fans c) >? 100)%Z
  then Some ErrMinDutyRange
  else if (MaxDuty (Fans c) <? 0)%Z || (MaxDuty (Fans c) >? 100)%Z
  then Some ErrMaxDutyRange
  else if (StartupDuty (Fans c) <? 0)%Z || (StartupDuty (Fans c) >? 100)%Z
  then Some ErrStartupDutyRange
  else if (MinDuty (Fans c) >=? MaxDuty (Fans c))%Z
  then Some ErrMinDutyNotBelowMax
  else if Kp (PID c) <? zero then Some ErrKpNegative
  else if Ki (PID c) <? zero then Some ErrKiNegative
  else if Kd (PID c) <? zero then Some ErrKdNegative
  else if IntegralMax (PID c) <=? zero then Some ErrIntegralMaxNotPositive
  else if (MetricsPort (Server c) <=? 0)%Z || (MetricsPort (Server c) >? 65535)%Z
  then Some ErrMetricsPortRange
  else if negb (String.eqb (LogLevel (Server c)) "debug")
          && negb (String.eqb (LogLevel (Server c)) "info")
          && negb (String.eqb (LogLevel (Server c)) "warn")
          && negb (String.eqb (LogLevel (Server c)) "error")
  then Some ErrLogLevel
  else None.

Inductive LoadError : Type :=
| ErrReadFile
| ErrParse
| ErrValidation (e : ValidateError).

(** [LoadConfig(path)].  [readFile] stands for [os.ReadFile] and
    [unmarshal] for [yaml.Unmarshal] into a zero-valued [Config]: a field
    the document does not mention keeps the zero value of its type. *)
Definition LoadConfig
    (readFile : string -> option string) (unmarshal : string -> option Config)
    (path : string) : Config + LoadError :=
  match readFile path with
  | None => inr ErrReadFile
  | Some data =>
      match unmarshal data with
      | None => inr ErrParse
      | Some config =>
          let config := setDefaults config in
          match Validate config with
          | Some err => inr (ErrValidation err)
          | None => inl config
          end
      end
  end.

End Cfg.

(** ** The control loop *)

Module Loop.

Import Sys.

Definition maxIPMIFailures : Z := 5.

(** [checkEmergencyConditions]; the disk temperature, an [int], is compared
    with the [float64] limit as a number. *)
Definition checkEmergencyConditions
    (cpuTemp : float64) (maxDiskTemp : Z) (config : Cfg.Config) : string :=
  if cpuTemp >? Cfg.MaxCPU (Cfg.Temperature config) then "cpu_temp"
  else if of_int maxDiskTemp >? Cfg.MaxHDD (Cfg.Temperature config)
  then "hdd_temp"
  else "".

(** The state the loop carries from one iteration to the next. *)
Record LoopState : Type := {
  pid : PID.PIDController;
  consecutiveIPMIFailures : Z
}.

(** What one iteration reads from outside: the result of
    [readAllTemperatures] ([None] is the error result), the orders in which
    [GetAverageOfWarmest] and [GetMaxTemperature] visit the map, and the
    clock value seen by [Calculate]. *)
Record TickInput : Type := {
  reading : option (gmap string Z * float64);
  order_avg : list (string * Z);
  order_max : list (string * Z);
  now : Z
}.

(** Duty selection: emergency mode or normal PID control. *)
Definition selectDuty
    (config : Cfg.Config) (pid : PID.PIDController)
    (emergencyReason : string) (avgTemp : float64) (now : Z)
  : Z * PID.PIDTerms * PID.PIDController :=
  if negb (String.eqb emergencyReason "") then (100%Z, PID.zeroTerms, pid)
  else
    let '(output, terms, pid') := PID.Calculate pid avgTemp now in
    let fanDuty := to_int output in
    let fanDuty :=
      if (fanDuty <? Cfg.MinDuty (Cfg.Fans config))%Z
      then Cfg.MinDuty (Cfg.Fans config) else fanDuty in
    let fanDuty :=
      if (fanDuty >? Cfg.MaxDuty (Cfg.Fans config))%Z
      then Cfg.MaxDuty (Cfg.Fans config) else fanDuty in
    (fanDuty, terms, pid').

(** Actuation with failure accounting; the result is the emergency reason,
    the duty and the failure counter after the block. *)
Definition actuate
    (dryRun : bool) (emergencyReason : string) (fanDuty : Z)
    (consecutiveIPMIFailures : Z) : M (string * Z * Z) :=
  if negb dryRun then
    let* err := IPMI.SetAllFans fanDuty in
    match err with
    | Some _ =>
        let consecutiveIPMIFailures := GoInt.add consecutiveIPMIFailures 1 in
        RecordError "ipmi" >>
        if (consecutiveIPMIFailures >=? maxIPMIFailures)%Z then
          let* _ := IPMI.SetAllFans 100 in
          ret ("ipmi_failure"%string, 100%Z, consecutiveIPMIFailures)
        else ret (emergencyReason, fanDuty, consecutiveIPMIFailures)
    | None => ret (emergencyReason, fanDuty, 0%Z)
    end
  else ret (emergencyReason, fanDuty, consecutiveIPMIFailures).

(** One iteration of the loop of [runControlLoop].  Reading the fan speeds
    for the metrics is left out. *)
Definition tick
    (config : Cfg.Config) (dryRun : bool) (inp : TickInput) (st : LoopState)
  : M LoopState :=
  match reading inp with
  | None =>
      RecordError "temperature" >>
      sleep (Cfg.PollInterval (Cfg.Temperature config)) >>
      ret st
  | Some (diskTemps, cpuTemp) =>
      let avgTemp :=
        Sensors.GetAverageOfWarmest diskTemps (order_avg inp)
          (Cfg.WarmestDisks (Cfg.Temperature config)) in
      let maxTemp := Sensors.GetMaxTemperature diskTemps (order_max inp) in
      let emergencyReason := checkEmergencyConditions cpuTemp maxTemp config in
      let '(fanDuty, pidTerms, pid') :=
        selectDuty config (pid st) emergencyReason avgTemp (now inp) in
      let* r :=
        actuate dryRun emergencyReason fanDuty (consecutiveIPMIFailures st) in
      let '(emergencyReason, fanDuty, failures) := r in
      emit (EvUpdateAllMetrics fanDuty pidTerms avgTemp maxTemp emergencyReason) >>
      sleep (Cfg.PollInterval (Cfg.Temperature config)) >>
      ret {| pid := pid'; consecutiveIPMIFailures := failures |}
  end.

(** Finitely many iterations, one per input. *)
Fixpoint ticks
    (config : Cfg.Config) (dryRun : bool) (inps : list TickInput)
    (st : LoopState) : M LoopState :=
  match inps with
  | [] => ret st
  | inp :: rest =>
      let* st' := tick config dryRun inp st in
      ticks config dryRun rest st'
  end.

(** [runControlLoop], cut after the iterations that consume [inps]. *)
Definition runControlLoop
    (config : Cfg.Config) (dryRun : bool) (pid : PID.PIDController)
    (inps : list TickInput) : M LoopState :=
  (if negb dryRun
   then let* _ := IPMI.SetAllFans (Cfg.StartupDuty (Cfg.Fans config)) in ret tt
   else ret tt) >>
  ticks config dryRun inps {| pid := pid; consecutiveIPMIFailures := 0 |}.

End Loop.

(** ** Sample data used by the examples *)

Module Samples.

(** The configuration of the emergency tests: [MaxCPU=75], [MaxHDD=45]. *)
Definition config : Cfg.Config :=
  {| Cfg.Server := {| Cfg.MetricsPort := 9090; Cfg.LogLevel := "info" |};
     Cfg.Temperature :=
       {| Cfg.TargetHDD := Fin 38; Cfg.MaxHDD := Fin 45;
          Cfg.MaxCPU := Fin 75; Cfg.PollInterval := 30000000000;
          Cfg.WarmestDisks := 4 |};
     Cfg.Fans := {| Cfg.MinDuty := 30; Cfg.MaxDuty := 100;
                    Cfg.StartupDuty := 50 |};
     Cfg.PID := {| Cfg.Kp := Fin 5; Cfg.Ki := lit (1 # 10); Cfg.Kd := Fin 20;
                   Cfg.IntegralMax := Fin 50 |};
     Cfg.Disks := {| Cfg.ExcludePatterns := Cfg.defaultExcludePatterns |} |}.

(** A configuration document that mentions no field: every field is zero. *)
Definition zeroConfig : Cfg.Config :=
  {| Cfg.Server := {| Cfg.MetricsPort := 0; Cfg.LogLevel := "" |};
     Cfg.Temperature :=
       {| Cfg.TargetHDD := zero; Cfg.MaxHDD := zero; Cfg.MaxCPU := zero;
          Cfg.PollInterval := 0; Cfg.WarmestDisks := 0 |};
     Cfg.Fans := {| Cfg.MinDuty := 0; Cfg.MaxDuty := 0; Cfg.StartupDuty := 0 |};
     Cfg.PID := {| Cfg.Kp := zero; Cfg.Ki := zero; Cfg.Kd := zero;
                   Cfg.IntegralMax := zero |};
     Cfg.Disks := {| Cfg.ExcludePatterns := [] |} |}.

(** A world in which every run of [ipmitool raw] fails, and one in which
    every run succeeds. *)
Definition failingWorld : Sys.World :=
  {| Sys.outcomes := fun _ => false; Sys.nexec := 0; Sys.trace := [] |}.

Definition workingWorld : Sys.World :=
  {| Sys.outcomes := fun _ => true; Sys.nexec := 0; Sys.trace := [] |}.

(** The controller of the anti-windup test. *)
Definition antiWindupPID : PID.PIDController :=
  PID.NewPIDController (Fin 0) (Fin 1) (Fin 0) (Fin 38) (Fin 0) (Fin 100) (Fin 10).

(** The six disks of the averaging tests. *)
Definition sixDisks : gmap string Z :=
  list_to_map [("sda", 35); ("sdb", 42); ("sdc", 38); ("sdd", 45);
               ("sde", 40); ("sdf", 37)]%string.

(** The readings of a nominal iteration (CPU at 60) and of one with a hot
    CPU (80); both visit the disks in the order of [map_to_list]. *)
Definition normalInput : Loop.TickInput :=
  {| Loop.reading := Some (sixDisks, Fin 60);
     Loop.order_avg := map_to_list sixDisks;
     Loop.order_max := map_to_list sixDisks;
     Loop.now := 1000000000 |}.

Definition cpuHotInput : Loop.TickInput :=
  {| Loop.reading := Some (sixDisks, Fin 80);
     Loop.order_avg := map_to_list sixDisks;
     Loop.order_max := map_to_list sixDisks;
     Loop.now := 1000000000 |}.

(** A loop state after four failed iterations. *)
Definition fourFailures : Loop.LoopState :=
  {| Loop.pid :=
       PID.NewPIDController (Fin 5) (lit (1 # 10)) (Fin 20) (Fin 38)
         (Fin 30) (Fin 100) (Fin 50);
     Loop.consecutiveIPMIFailures := 4 |}.

(** Maps, worlds and call sequences of the repository's tests. *)
Definition fiveDisks : gmap string Z :=
  list_to_map [("sda", 35); ("sdb", 42); ("sdc", 38); ("sdd", 45);
               ("sde", 40)]%string.

Definition twoDisks : gmap string Z :=
  list_to_map [("sda", 35); ("sdb", 40)]%string.

(** Fifty-one readings of 50 degrees, 10 ms apart. *)
Definition windupCalls : list (float64 * Z) :=
  map (fun k => (Fin 50, (Z.of_nat k * 10000000)%Z)) (seq 0 51).

(** A world whose first [k] runs of [ipmitool raw] fail and whose later
    runs succeed. *)
Definition failingFirst (k : nat) : Sys.World :=
  {| Sys.outcomes := fun i => (k <=? i)%nat; Sys.nexec := 0; Sys.trace := [] |}.

(** A loop state whose controller has a history: an accumulator of 3.25
    and a previous error of 3.25 from a call at one second. *)
Definition usedState : Loop.LoopState :=
  {| Loop.pid :=
       {| PID.Kp := Fin 5; PID.Ki := lit (1 # 10); PID.Kd := Fin 20;
          PID.Target := Fin 38; PID.Integral := Fin (13 # 4);
          PID.PrevError := Fin (13 # 4); PID.PrevTime := 1000000000;
          PID.FirstRun := false;
          PID.MinOutput := Fin 30; PID.MaxOutput := Fin 100;
          PID.IntegralMax := Fin 50 |};
     Loop.consecutiveIPMIFailures := 0 |}.

(** A loop state with a fresh controller for [config] and no failure. *)
Definition freshState : Loop.LoopState :=
  {| Loop.pid :=
       PID.NewPIDController (Fin 5) (lit (1 # 10)) (Fin 20) (Fin 38)
         (Fin 30) (Fin 100) (Fin 50);
     Loop.consecutiveIPMIFailures := 0 |}.

End Samples.

(** ** Observations on a trace *)

Module Obs.

(** The duty, PID terms and emergency reason of the latest call of
    [UpdateAllMetrics]. *)
Fixpoint lastMetrics (tr : list Sys.event)
  : option (Z * PID.PIDTerms * string) :=
  match tr with
  | [] => None
  | Sys.EvUpdateAllMetrics fanDuty pidTerms _ _ emergencyReason :: _ =>
      Some (fanDuty, pidTerms, emergencyReason)
  | _ :: rest => lastMetrics rest
  end.

(** The invariant of the accumulator: the anti-windup limit is a positive
    number, and the accumulator is a number within the limit. *)
Definition integral_inv (p : PID.PIDController) : Prop :=
  exists m i,
    PID.IntegralMax p = Fin m /\ (0 < m)%Q
    /\ PID.Integral p = Fin i /\ (Qabs i <= m)%Q.

(** Two worlds that differ at most in the outcome of the runs of
    [ipmitool raw] from the [k]-th run after the current one on. *)
Definition agree_for (k : nat) (w1 w2 : Sys.World) : Prop :=
  Sys.trace w1 = Sys.trace w2
  /\ Sys.nexec w1 = Sys.nexec w2
  /\ forall i, (i < Sys.nexec w1 + k)%nat -> Sys.outcomes w1 i = Sys.outcomes w2 i.

(** An iteration whose visiting order for the mean is an order of the map
    it read. *)
Definition well_visited (inp : Loop.TickInput) : Prop :=
  match Loop.reading inp with
  | Some (diskTemps, _) => Sensors.visits diskTemps (Loop.order_avg inp)
  | None => True
  end.

End Obs.

(** ** Arithmetic on slices *)

Module Slice.

(** The sum of a slice as an unbounded integer. *)
Definition Zsum (l : list Z) : Z := fold_right Z.add 0%Z l.

(** [count] steps of the inner loop on the part of the slice that starts at
    the current index, as a function on that part alone. *)
Fixpoint bubble (count : nat) (l : list Z) : list Z :=
  match count, l with
  | S count', x :: y :: rest =>
      if (x <? y)%Z then y :: bubble count' (x :: rest)
      else x :: bubble count' (y :: rest)
  | _, _ => l
  end.

(** Readings whose sums are exact: every reading is within some
    [bound >= 1] in absolute value, and [bound] times the number of disks is
    at most [2^53].  A sum of such readings does not wrap around as an
    [int] and is not rounded when it is converted to [float64]. *)
Definition fits (temps : gmap string Z) : Prop :=
  exists bound : Z,
    (1 <= bound)%Z
    /\ map_Forall (fun _ t => (Z.abs t <= bound)%Z) temps
    /\ (Z.of_nat (size temps) * bound <= 2 ^ 53)%Z.

End Slice.

(** ** Gain presets of the PID controller *)

Module Tuning.

(** [PIDTuning] holds a pointer to a controller; what its methods do to
    that controller is given as the new value of the record. *)
Record PIDTuning : Type := { controller : PID.PIDController }.

Definition NewPIDTuning (controller : PID.PIDController) : PIDTuning :=
  {| controller := controller |}.

Definition TuneForTemperatureControl (t : PIDTuning) : PIDTuning :=
  let c := PID.SetGains (controller t) (Fin 5) (lit (1 # 10)) (Fin 20) in
  {| controller := PID.SetIntegralMax c (Fin 50) |}.

Definition TuneForResponsiveControl (t : PIDTuning) : PIDTuning :=
  let c := PID.SetGains (controller t) (Fin 8) (lit (2 # 10)) (Fin 30) in
  {| controller := PID.SetIntegralMax c (Fin 75) |}.

Definition TuneForStableControl (t : PIDTuning) : PIDTuning :=
  let c := PID.SetGains (controller t) (Fin 3) (lit (5 # 100)) (Fin 15) in
  {| controller := PID.SetIntegralMax c (Fin 25) |}.

Definition ValidateGains (t : PIDTuning) : list string :=
  let warnings : list string := [] in
  let warnings :=
    if (PID.Kp (controller t) <? zero) || (PID.Kp (controller t) >? Fin 20)
    then warnings ++ ["Kp should typically be between 0-20"%string]
    else warnings in
  let warnings :=
    if (PID.Ki (controller t) <? zero) || (PID.Ki (controller t) >? Fin 2)
    then warnings ++ ["Ki should typically be between 0-2"%string]
    else warnings in
  let warnings :=
    if (PID.Kd (controller t) <? zero) || (PID.Kd (controller t) >? Fin 100)
    then warnings ++ ["Kd should typically be between 0-100"%string]
    else warnings in
  let warnings :=
    if (PID.Kp (controller t) >? Fin 10) && (PID.Ki (controller t) >? lit (5 # 10))
    then warnings ++ ["High Kp with high Ki may cause oscillation"%string]
    else warnings in
  warnings.

End Tuning.

(** ** Disk discovery and the disk temperatures *)

Module Disk.

(** [isSpinningDisk]; [ReadFile] stands for [os.ReadFile] ([None] is its
    error result) and [TrimSpace] for [strings.TrimSpace].  The result
    [None] is the error result. *)
Definition isSpinningDisk
    (ReadFile : string -> option string) (TrimSpace : string -> string)
    (device : string) : option bool :=
  let rotaPath :=
    String.append "/sys/block/" (String.append device "/queue/rotational") in
  match ReadFile rotaPath with
  | None => None
  | Some rotaData =>
      if negb (String.eqb (TrimSpace rotaData) "1") then Some false
      else
        let removablePath :=
          String.append "/sys/block/" (String.append device "/removable") in
        match ReadFile removablePath with
        | None => None
        | Some removableData =>
            if negb (String.eqb (TrimSpace removableData) "0") then Some false
            else Some true
        end
  end.

(** The errors of [GetAllDiskTemperatures]; the last one carries the disks
    whose reading failed, in the order of the failures. *)
Inductive DiskError : Type :=
| ErrDiscover
| ErrNoSpinningDisks
| ErrNoTemperatures (errors : list string).

(** The loop of [GetAllDiskTemperatures] over the discovered disks.
    [GetDiskTemperature] stands for the function of that name, which runs
    [smartctl] ([None] is its error result). *)
Fixpoint readLoop
    (GetDiskTemperature : string -> option Z) (disks : list string)
    (temps : gmap string Z) (errors : list string)
  : gmap string Z * list string :=
  match disks with
  | [] => (temps, errors)
  | disk :: rest =>
      match GetDiskTemperature disk with
      | None => readLoop GetDiskTemperature rest temps (errors ++ [disk])
      | Some temp =>
          readLoop GetDiskTemperature rest (<[disk := temp]> temps) errors
      end
  end.

(** [GetAllDiskTemperatures]; [MatchString] stands for
    [regexp.MatchString], as in [Sensors.matchesExcludePattern]. *)
Definition GetAllDiskTemperatures
    (MatchString : string -> string -> option bool)
    (readDir : option (list string)) (isSpinningDisk : string -> option bool)
    (GetDiskTemperature : string -> option Z) (excludePatterns : list string)
  : gmap string Z + DiskError :=
  match Sensors.discoverSpinningDisks MatchString readDir isSpinningDisk
          excludePatterns with
  | None => inr ErrDiscover
  | Some disks =>
      if (length disks =? 0)%nat then inr ErrNoSpinningDisks
      else
        let '(temps, errors) := readLoop GetDiskTemperature disks ∅ [] in
        if (Sensors.len temps =? 0)%Z then inr (ErrNoTemperatures errors)
        else inl temps
  end.

End Disk.

(** ** The CPU temperature *)

Module CPU.

Inductive CPUError : Type :=
| ErrGlob
| ErrNotFound
| ErrReadTemp
| ErrParseTemp.

(** What a call sees of the file system: [Glob] stands for the result of
    [filepath.Glob] on the pattern of the hwmon name files, [ReadFile] for
    [os.ReadFile]; [None] is an error result. *)
Record Files : Type := {
  Glob : option (list string);
  ReadFile : string -> option string
}.

Section Hwmon.

(** [strings.TrimSpace], [strconv.ParseInt] in base 10 ([None] is a syntax
    error), [filepath.Dir] and [filepath.Join]. *)
Variables (TrimSpace : string -> string) (ParseInt : string -> option Z)
          (Dir : string -> string) (Join : string -> string -> string).

(** The loop of [findK10TempPath] over the matches. *)
Fixpoint findLoop (fs : Files) (matches : list string) : option string :=
  match matches with
  | [] => None
  | namePath :: rest =>
      match ReadFile fs namePath with
      | None => findLoop fs rest
      | Some content =>
          if String.eqb (TrimSpace content) "k10temp" then Some (Dir namePath)
          else findLoop fs rest
      end
  end.

Definition findK10TempPath (fs : Files) : string + CPUError :=
  match Glob fs with
  | None => inr ErrGlob
  | Some matches =>
      match findLoop fs matches with
      | Some hwmonDir => inl hwmonDir
      | None => inr ErrNotFound
      end
  end.

(** [readCPUTempFromPath].  The call asks [ParseInt] for 64 bits: a value
    outside the range of [int64] is a range error of [ParseInt]. *)
Definition readCPUTempFromPath (fs : Files) (hwmonPath : string)
  : float64 + CPUError :=
  let tempPath := Join hwmonPath "temp1_input" in
  match ReadFile fs tempPath with
  | None => inr ErrReadTemp
  | Some data =>
      match ParseInt (TrimSpace data) with
      | None => inr ErrParseTemp
      | Some millidegrees =>
          if (GoInt.min_int <=? millidegrees)%Z && (millidegrees <=? GoInt.max_int)%Z
          then inl (of_int millidegrees / Fin 1000)
          else inr ErrParseTemp
      end
  end.

(** [GetCPUTemperature]; the package variable [cachedK10TempPath] is passed
    in and its value after the call is returned with the result. *)
Definition GetCPUTemperature (fs : Files) (cachedK10TempPath : string)
  : (float64 + CPUError) * string :=
  if negb (String.eqb cachedK10TempPath "")
  then (readCPUTempFromPath fs cachedK10TempPath, cachedK10TempPath)
  else
    match findK10TempPath fs with
    | inr err => (inr err, cachedK10TempPath)
    | inl hwmonPath => (readCPUTempFromPath fs hwmonPath, hwmonPath)
    end.

(** Successive calls of [GetCPUTemperature], each with the file system it
    sees; the results are listed in the order of the calls. *)
Fixpoint polls (calls : list Files) (cachedK10TempPath : string)
  : list (float64 + CPUError) * string :=
  match calls with
  | [] => ([], cachedK10TempPath)
  | fs :: rest =>
      let '(r, cached) := GetCPUTemperature fs cachedK10TempPath in
      let '(rs, cached') := polls rest cached in
      (r :: rs, cached')
  end.

End Hwmon.

End CPU.

(** ** Reading all sensors *)

Module Env.

Inductive ReadError : Type :=
| ErrDiskTemperatures (err : Disk.DiskError)
| ErrCPUTemperature (err : CPU.CPUError).

(** [readAllTemperatures]: [GetAllDiskTemperatures] and [GetCPUTemperature]
    stand for the two functions as the call finds them, the second one as a
    function of the cached path, which is returned with the result. *)
Definition readAllTemperatures
    (GetAllDiskTemperatures : list string -> gmap string Z + Disk.DiskError)
    (GetCPUTemperature : string -> (float64 + CPU.CPUError) * string)
    (config : Cfg.Config) (cachedK10TempPath : string)
  : (gmap string Z * float64 + ReadError) * string :=
  match GetAllDiskTemperatures (Cfg.ExcludePatterns (Cfg.Disks config)) with
  | inr err => (inr (ErrDiskTemperatures err), cachedK10TempPath)
  | inl diskTemps =>
      match GetCPUTemperature cachedK10TempPath with
      | (inr err, cached) => (inr (ErrCPUTemperature err), cached)
      | (inl cpuTemp, cached) => (inl (diskTemps, cpuTemp), cached)
      end
  end.

Inductive EnvironmentError : Type :=
| ErrCPUSensor (err : CPU.CPUError)
| ErrDiskSensors (err : Disk.DiskError)
| ErrNoDisksFound
| ErrIPMI.

(** [validateEnvironment]; [fanSpeedsOk] tells whether [GetFanSpeeds]
    returns without error.  [None] is the result [nil]. *)
Definition validateEnvironment
    (dryRun : bool)
    (GetCPUTemperature : string -> (float64 + CPU.CPUError) * string)
    (GetAllDiskTemperatures : list string -> gmap string Z + Disk.DiskError)
    (fanSpeedsOk : bool) (config : Cfg.Config) (cachedK10TempPath : string)
  : option EnvironmentError * string :=
  match GetCPUTemperature cachedK10TempPath with
  | (inr err, cached) => (Some (ErrCPUSensor err), cached)
  | (inl _, cached) =>
      match GetAllDiskTemperatures (Cfg.ExcludePatterns (Cfg.Disks config)) with
      | inr err => (Some (ErrDiskSensors err), cached)
      | inl diskTemps =>
          if (Sensors.len diskTemps =? 0)%Z then (Some ErrNoDisksFound, cached)
          else if negb dryRun && negb fanSpeedsOk then (Some ErrIPMI, cached)
          else (None, cached)
      end
  end.

End Env.

(** ** The metrics registry *)

Module Metrics.

(** A gauge is the value last set; a gauge vector maps a label value to
    the gauge of that label, created when it is first set; the histogram is
    the list of the values observed, the latest first. *)
Record Metrics : Type := {
  HDDTemperature : gmap string float64;
  HDDTemperatureMax : float64;
  HDDTemperatureAvg : float64;
  CPUTemperature : float64;
  FanDutyPercent : float64;
  FanSpeedRPM : gmap string float64;
  PIDProportional : float64;
  PIDIntegral : float64;
  PIDDerivative : float64;
  PIDError : float64;
  EmergencyMode : gmap string float64;
  ErrorsTotal : gmap string Z;
  LoopDuration : list float64
}.

Definition InitMetrics : Metrics :=
  {| HDDTemperature := ∅; HDDTemperatureMax := zero; HDDTemperatureAvg := zero;
     CPUTemperature := zero; FanDutyPercent := zero; FanSpeedRPM := ∅;
     PIDProportional := zero; PIDIntegral := zero; PIDDerivative := zero;
     PIDError := zero; EmergencyMode := ∅; ErrorsTotal := ∅;
     LoopDuration := [] |}.

(** [for label, value := range m { vec.WithLabelValues(label).Set(float64(value)) }],
    the map being visited in the order [order]. *)
Definition setEach (vec : gmap string float64) (order : list (string * Z))
  : gmap string float64 :=
  fold_left (fun vec entry => <[fst entry := of_int (snd entry)]> vec) order vec.

(** [UpdateAllMetrics]; [order_disks] and [order_fans] are the orders in
    which the two maps are visited. *)
Definition UpdateAllMetrics
    (metrics : Metrics)
    (diskTemps : gmap string Z) (order_disks : list (string * Z))
    (cpuTemp : float64)
    (fanSpeeds : gmap string Z) (order_fans : list (string * Z))
    (fanDuty : Z) (pidTerms : PID.PIDTerms) (avgTemp : float64) (maxTemp : Z)
    (emergencyReason : string) (loopDuration : Z) : Metrics :=
  {| HDDTemperature := setEach (HDDTemperature metrics) order_disks;
     HDDTemperatureMax := of_int maxTemp;
     HDDTemperatureAvg := avgTemp;
     CPUTemperature := cpuTemp;
     FanDutyPercent := of_int fanDuty;
     FanSpeedRPM := setEach (FanSpeedRPM metrics) order_fans;
     PIDProportional := PID.P pidTerms;
     PIDIntegral := PID.I pidTerms;
     PIDDerivative := PID.D pidTerms;
     PIDError := PID.Error pidTerms;
     EmergencyMode :=
       if negb (String.eqb emergencyReason "")
       then <["cpu_temp"%string := zero]>
              (<["hdd_temp"%string := zero]>
                 (<[emergencyReason := one]> (EmergencyMode metrics)))
       else <["cpu_temp"%string := zero]>
              (<["hdd_temp"%string := zero]> (EmergencyMode metrics));
     ErrorsTotal := ErrorsTotal metrics;
     LoopDuration := GoTime.Seconds loopDuration :: LoopDuration metrics |}.

End Metrics.

(** ** Further observations on a trace and on a controller *)

Module Trace.

(** The durations slept, in the order of the calls of [time.Sleep]. *)
Definition sleeps (tr : list Sys.event) : list Z :=
  rev (flat_map (fun e => match e with Sys.EvSleep d => [d] | _ => [] end) tr).

(** The error types recorded, in the order of the calls of [RecordError]. *)
Definition errors (tr : list Sys.event) : list string :=
  rev (flat_map
         (fun e => match e with Sys.EvRecordError t => [t] | _ => [] end) tr).

End Trace.

Module Numeric.

(** A number of magnitude at most [bound]. *)
Definition within (bound : Q) (x : float64) : Prop :=
  exists q, x = Fin q /\ (Qabs q <= bound)%Q.

(** A number of magnitude at most [2^300]: far beyond any gain or
    temperature, and small enough for the products and quotients of
    [Calculate] to stay clear of the overflow threshold [2^1024]. *)
Definition moderate (x : float64) : Prop := within (pow2 300) x.

(** A controller with a proportional gain that is a number, a moderate
    derivative gain and setpoint, a previous error within [2^301], and a
    positive anti-windup limit that bounds the accumulator. *)
Definition controller (p : PID.PIDController) : Prop :=
  is_finite (PID.Kp p) /\ moderate (PID.Kd p) /\ moderate (PID.Target p)
  /\ within (pow2 301) (PID.PrevError p)
  /\ Obs.integral_inv p.

End Numeric.

(** ** Further sample data *)

Module Cases.

(** The sample configuration with a CPU limit that is not a number. *)
Definition nanCPULimit : Cfg.Config :=
  {| Cfg.Server := Cfg.Server Samples.config;
     Cfg.Temperature :=
       {| Cfg.TargetHDD := Fin 38; Cfg.MaxHDD := Fin 45; Cfg.MaxCPU := NaN;
          Cfg.PollInterval := 30000000000; Cfg.WarmestDisks := 4 |};
     Cfg.Fans := Cfg.Fans Samples.config;
     Cfg.PID := Cfg.PID Samples.config;
     Cfg.Disks := Cfg.Disks Samples.config |}.

(** A file system with the k10temp sensor at hwmon2 and two block
    devices: [sda] spinning and internal, [sdb] removable. *)
Definition sysfs (path : string) : option string :=
  if String.eqb path "/sys/class/hwmon/hwmon1/name" then Some "nvme"%string
  else if String.eqb path "/sys/class/hwmon/hwmon2/name" then Some "k10temp"%string
  else if String.eqb path "/sys/class/hwmon/hwmon2/temp1_input"
  then Some "45125"%string
  else if String.eqb path "/sys/block/sda/queue/rotational" then Some "1"%string
  else if String.eqb path "/sys/block/sda/removable" then Some "0"%string
  else if String.eqb path "/sys/block/sdb/queue/rotational" then Some "1"%string
  else if String.eqb path "/sys/block/sdb/removable" then Some "1"%string
  else None.

Definition files : CPU.Files :=
  {| CPU.Glob := Some ["/sys/class/hwmon/hwmon1/name";
                       "/sys/class/hwmon/hwmon2/name"]%string;
     CPU.ReadFile := sysfs |}.

(** The library functions on the strings of this file system, whose files
    hold no white space. *)
Definition TrimSpace (s : string) : string := s.

Definition ParseInt (s : string) : option Z :=
  if String.eqb s "45125" then Some 45125%Z else None.

Definition Dir (path : string) : string :=
  if String.eqb path "/sys/class/hwmon/hwmon1/name"
  then "/sys/class/hwmon/hwmon1"%string
  else "/sys/class/hwmon/hwmon2"%string.

Definition Join (dir name : string) : string :=
  String.append dir (String.append "/" name).

(** The sample configuration with a setpoint that is not a number. *)
Definition nanTarget : Cfg.Config :=
  {| Cfg.Server := Cfg.Server Samples.config;
     Cfg.Temperature :=
       {| Cfg.TargetHDD := NaN; Cfg.MaxHDD := Fin 45; Cfg.MaxCPU := Fin 75;
          Cfg.PollInterval := 30000000000; Cfg.WarmestDisks := 4 |};
     Cfg.Fans := Cfg.Fans Samples.config;
     Cfg.PID := Cfg.PID Samples.config;
     Cfg.Disks := Cfg.Disks Samples.config |}.

(** The constant [1.7e308], close to the largest [float64]. *)
Definition huge : float64 := lit (inject_Z (17 * 10 ^ 307)).

(** The constant [1e308]. *)
Definition large : float64 := lit (inject_Z (10 ^ 308)).

(** The sample configuration with the gains [Kp = Kd = 1.7e308]. *)
Definition hugeGains : Cfg.Config :=
  {| Cfg.Server := Cfg.Server Samples.config;
     Cfg.Temperature := Cfg.Temperature Samples.config;
     Cfg.Fans := Cfg.Fans Samples.config;
     Cfg.PID := {| Cfg.Kp := huge; Cfg.Ki := lit (1 # 10); Cfg.Kd := huge;
                   Cfg.IntegralMax := Fin 50 |};
     Cfg.Disks := Cfg.Disks Samples.config |}.

(** Two disks whose sum leaves the range of [int], and three disks whose
    sum is not a [float64]. *)
Definition wrappingDisks : gmap string Z :=
  list_to_map [("sda", 9223372036854775807); ("sdb", 1)]%string.

Definition roundedDisks : gmap string Z :=
  list_to_map [("sda", 9007199254740993); ("sdb", 9007199254740993);
               ("sdc", 9007199254740993)]%string.

(** [smartctl] reports 41 degrees for [sda] and fails for other devices. *)
Definition smartctl (device : string) : option Z :=
  if String.eqb device "sda" then Some 41%Z else None.

End Cases.

(** ** The arithmetic of the machine

    Rocq's primitive floats are the binary64 numbers of the processor.
    The values below are computed with them, to be compared with what
    [F64] computes for the same constants and operations. *)

Module Hardware.

Import PrimFloat.

Local Set Warnings "-inexact-float".

Definition of_spec (x : SpecFloat.spec_float) : float64 :=
  match x with
  | SpecFloat.S754_zero _ => Fin 0
  | SpecFloat.S754_infinity false => PosInf
  | SpecFloat.S754_infinity true => NegInf
  | SpecFloat.S754_nan => F64.NaN
  | SpecFloat.S754_finite s m e =>
      let q := (inject_Z (Z.pos m) * F64.pow2 e)%Q in
      Fin (Qred (if s then - q else q))
  end.

Definition of_prim (x : PrimFloat.float) : float64 :=
  of_spec (FloatOps.Prim2SF x).

(** Constants of the sources and of the examples. *)
Definition literals : list float64 :=
  map of_prim
    [0.1; 0.2; 0.05; 0.5; 0.8; 30.6; 42.33; 0.01; 1e308; 1.7e308]%float.

Definition sums : list float64 :=
  map of_prim
    [0.1 + 0.2; 30 + 0.1 * 6; 1.7e308 + 1.7e308; 3.25 + 0.01 * 12;
     infinity - infinity; 1.7e308 - -1.7e308]%float.

Definition quotients : list float64 :=
  map of_prim
    [1 / 3; 127 / 3; 45125 / 1000; 10000000 / 1000000000; 0 / 0;
     0x1p-1074 / 2; 0x1.8p-1074 / 2]%float.

Definition products : list float64 :=
  map of_prim
    [0.1 * 0.1; 1e308 * 8; 1e308 * -2; 0x1p-600 * 0x1p-600;
     infinity * 0]%float.

(** [float64(n)] for integers beyond [2^53]. *)
Definition conversions : list float64 :=
  map (fun n => of_prim (of_uint63 (Uint63.of_Z n)))
      [9007199254740993; 27021597764222979; 9223372036854775807;
       18014398509481986]%Z.

End Hardware.

(** ** The controller of [main] *)

Module Main.

(** The [pid] that [main] builds from the configuration and hands to
    [runControlLoop]: its output limits are the duty limits of the fans. *)
Definition pid (config : Cfg.Config) : PID.PIDController :=
  PID.NewPIDController
    (Cfg.Kp (Cfg.PID config)) (Cfg.Ki (Cfg.PID config)) (Cfg.Kd (Cfg.PID config))
    (Cfg.TargetHDD (Cfg.Temperature config))
    (of_int (Cfg.MinDuty (Cfg.Fans config)))
    (of_int (Cfg.MaxDuty (Cfg.Fans config)))
    (Cfg.IntegralMax (Cfg.PID config)).

End Main.

(** * Properties *)

(** ** Go [int] and [float64] facts *)

Lemma wrap64_id z : GoInt.in_range z -> GoInt.wrap64 z = z.
Proof.
  unfold GoInt.in_range, GoInt.min_int, GoInt.max_int, GoInt.wrap64. intros H.
  rewrite Z.mod_small; lia.
Qed.

Lemma wrap64_range z : GoInt.in_range (GoInt.wrap64 z).
Proof.
  unfold GoInt.in_range, GoInt.min_int, GoInt.max_int, GoInt.wrap64.
  pose proof (Z.mod_pos_bound (z + 2 ^ 63) (2 ^ 64) ltac:(lia)). lia.
Qed.

(** ** Rounding *)

Lemma Qle_bool_false (a b : Q) : Qle_bool a b = false -> (b < a)%Q.
Proof.
  intros H. apply Qnot_le_lt. intros Hle.
  apply Qle_bool_iff in Hle. congruence.
Qed.

Lemma pow2_pos e : (0 < pow2 e)%Q.
Proof. apply Qpower_0_lt. reflexivity. Qed.

Lemma pow2_add a b : (pow2 (a + b) == pow2 a * pow2 b)%Q.
Proof. apply Qpower_plus. discriminate. Qed.

Lemma pow2_le a b : (a <= b)%Z -> (pow2 a <= pow2 b)%Q.
Proof. intros H. apply Qpower_le_compat_l; [exact H|discriminate]. Qed.

Lemma pow2_lt a b : (a < b)%Z -> (pow2 a < pow2 b)%Q.
Proof. intros H. apply Qpower_lt_compat_l; [exact H|reflexivity]. Qed.

Lemma pow2_lt_inv a b : (pow2 a < pow2 b)%Q -> (a < b)%Z.
Proof. intros H. apply (Qpower_lt_compat_l_inv 2); [exact H|reflexivity]. Qed.

Lemma pow2_inject n : (0 <= n)%Z -> (inject_Z (2 ^ n) == pow2 n)%Q.
Proof. intros H. apply (Zpower_Qpower 2 n H). Qed.

(** [ilog2 q] is the integer logarithm of a positive rational. *)
Lemma ilog2_spec q :
  (0 < q)%Q -> (pow2 (ilog2 q) <= q)%Q /\ (q < pow2 (ilog2 q + 1))%Q.
Proof.
  intros Hq. destruct q as [n d].
  assert (Hn : (0 < n)%Z).
  { unfold Qlt in Hq. simpl in Hq. lia. }
  unfold ilog2. cbn [Qnum Qden].
  set (a := Z.log2 n). set (b := Z.log2 (Z.pos d)).
  pose proof (Z.log2_spec n Hn) as [Ha1 Ha2]. fold a in Ha1, Ha2.
  pose proof (Z.log2_spec (Z.pos d) ltac:(lia)) as [Hb1 Hb2]. fold b in Hb1, Hb2.
  assert (Ha0 : (0 <= a)%Z) by apply Z.log2_nonneg.
  assert (Hb0 : (0 <= b)%Z) by apply Z.log2_nonneg.
  assert (Hd : (0 < inject_Z (Z.pos d))%Q) by reflexivity.
  assert (Hq' : (n # d == inject_Z n / inject_Z (Z.pos d))%Q) by apply Qmake_Qdiv.
  assert (QA1 : (pow2 a <= inject_Z n)%Q).
  { rewrite <- pow2_inject by lia. rewrite <- Zle_Qle. exact Ha1. }
  assert (QA2 : (inject_Z n < pow2 (a + 1))%Q).
  { rewrite <- pow2_inject by lia. rewrite <- Zlt_Qlt. exact Ha2. }
  assert (QB1 : (pow2 b <= inject_Z (Z.pos d))%Q).
  { rewrite <- pow2_inject by lia. rewrite <- Zle_Qle. exact Hb1. }
  assert (QB2 : (inject_Z (Z.pos d) < pow2 (b + 1))%Q).
  { rewrite <- pow2_inject by lia. rewrite <- Zlt_Qlt. exact Hb2. }
  assert (Hlow : (pow2 (a - b - 1) <= n # d)%Q).
  { rewrite Hq'. apply Qle_shift_div_l; [exact Hd|].
    apply Qle_trans with (pow2 (a - b - 1) * pow2 (b + 1))%Q.
    - apply Qmult_le_l; [apply pow2_pos|]. apply Qlt_le_weak. exact QB2.
    - rewrite <- pow2_add. replace (a - b - 1 + (b + 1))%Z with a by lia.
      exact QA1. }
  assert (Hhigh : (n # d < pow2 (a - b + 1))%Q).
  { rewrite Hq'. apply Qlt_shift_div_r; [exact Hd|].
    apply Qlt_le_trans with (pow2 (a - b + 1) * pow2 b)%Q.
    - rewrite <- pow2_add. replace (a - b + 1 + b)%Z with (a + 1)%Z by lia.
      exact QA2.
    - apply Qmult_le_l; [apply pow2_pos|]. exact QB1. }
  destruct (Qle_bool (pow2 (a - b)) (n # d)) eqn:E.
  - apply Qle_bool_iff in E. split; assumption.
  - apply Qle_bool_false in E. split; [exact Hlow|].
    replace (a - b - 1 + 1)%Z with (a - b)%Z by lia. exact E.
Qed.

Lemma ilog2_mono a b : (0 < a)%Q -> (a <= b)%Q -> (ilog2 a <= ilog2 b)%Z.
Proof.
  intros Ha Hab.
  assert (Hb : (0 < b)%Q) by (eapply Qlt_le_trans; eassumption).
  destruct (ilog2_spec a Ha) as [H1 _]. destruct (ilog2_spec b Hb) as [_ H2].
  assert (H : (pow2 (ilog2 a) < pow2 (ilog2 b + 1))%Q).
  { eapply Qle_lt_trans; [exact H1|]. eapply Qle_lt_trans; eassumption. }
  apply pow2_lt_inv in H. lia.
Qed.

Lemma rne_floor q : rne q = Qfloor q \/ rne q = (Qfloor q + 1)%Z.
Proof.
  unfold rne. destruct (q - inject_Z (Qfloor q) ?= 1 # 2)%Q; auto.
  destruct (Z.even (Qfloor q)); auto.
Qed.

Lemma rne_mono a b : (a <= b)%Q -> (rne a <= rne b)%Z.
Proof.
  intros Hab. pose proof (Qfloor_resp_le a b Hab) as Hf.
  destruct (Z.eq_dec (Qfloor a) (Qfloor b)) as [E|E].
  - unfold rne. rewrite <- E. set (f := Qfloor a).
    assert (Hr : (a - inject_Z f <= b - inject_Z f)%Q) by lra.
    destruct (Qcompare_spec (a - inject_Z f) (1 # 2)) as [Ha|Ha|Ha];
      destruct (Qcompare_spec (b - inject_Z f) (1 # 2)) as [Hb|Hb|Hb];
      try destruct (Z.even f); try lia; exfalso; lra.
  - destruct (rne_floor a) as [-> | ->]; destruct (rne_floor b) as [-> | ->]; lia.
Qed.

Lemma rne_inject_Z n : rne (inject_Z n) = n.
Proof.
  unfold rne. rewrite Qfloor_Z.
  replace (inject_Z n - inject_Z n ?= 1 # 2)%Q with Lt; [reflexivity|].
  symmetry. apply (proj1 (Qlt_alt _ _)). generalize (inject_Z n). intros q. lra.
Qed.

Lemma rne_comp a b : (a == b)%Q -> rne a = rne b.
Proof.
  intros H. apply Z.le_antisymm; apply rne_mono; rewrite H; apply Qle_refl.
Qed.

Lemma rne_ge n q : (inject_Z n <= q)%Q -> (n <= rne q)%Z.
Proof. intros H. rewrite <- (rne_inject_Z n). apply rne_mono, H. Qed.

Lemma rne_le n q : (q <= inject_Z n)%Q -> (rne q <= n)%Z.
Proof. intros H. rewrite <- (rne_inject_Z n). apply rne_mono, H. Qed.

Lemma nearest_nonneg q : (0 < q)%Q -> (0 <= nearest q)%Q.
Proof.
  intros Hq. unfold nearest.
  set (e := Z.max _ _).
  apply Qmult_le_0_compat; [|apply Qlt_le_weak, pow2_pos].
  change 0%Q with (inject_Z 0). rewrite <- Zle_Qle. apply rne_ge.
  apply Qle_shift_div_l; [apply pow2_pos|].
  change (inject_Z 0) with 0%Q. rewrite Qmult_0_l. apply Qlt_le_weak, Hq.
Qed.

Lemma rne_le_pow2 k q :
  (0 <= k)%Z -> (q <= pow2 k)%Q -> (inject_Z (rne q) <= pow2 k)%Q.
Proof.
  intros Hk H.
  apply Qle_trans with (inject_Z (2 ^ k)).
  - rewrite <- Zle_Qle. apply rne_le.
    apply Qle_trans with (pow2 k); [exact H|].
    rewrite (pow2_inject k Hk). apply Qle_refl.
  - rewrite (pow2_inject k Hk). apply Qle_refl.
Qed.

Lemma rne_ge_pow2 k q :
  (0 <= k)%Z -> (pow2 k <= q)%Q -> (pow2 k <= inject_Z (rne q))%Q.
Proof.
  intros Hk H.
  apply Qle_trans with (inject_Z (2 ^ k)).
  - rewrite (pow2_inject k Hk). apply Qle_refl.
  - rewrite <- Zle_Qle. apply rne_ge.
    apply Qle_trans with (pow2 k); [|exact H].
    rewrite (pow2_inject k Hk). apply Qle_refl.
Qed.

(** Rounding a positive number to the nearest multiple of its unit in the
    last place is monotone. *)
Lemma nearest_mono a b : (0 < a)%Q -> (a <= b)%Q -> (nearest a <= nearest b)%Q.
Proof.
  intros Ha Hab.
  assert (Hb : (0 < b)%Q) by (eapply Qlt_le_trans; eassumption).
  pose proof (ilog2_mono a b Ha Hab) as Hl.
  unfold nearest.
  set (ea := Z.max (ilog2 a - (prec - 1)) emin).
  set (eb := Z.max (ilog2 b - (prec - 1)) emin).
  assert (He : (ea <= eb)%Z) by (subst ea eb; lia).
  destruct (Z.eq_dec ea eb) as [E|E].
  - rewrite <- E. apply Qmult_le_compat_r; [|apply Qlt_le_weak, pow2_pos].
    rewrite <- Zle_Qle. apply rne_mono.
    apply Qle_shift_div_l; [apply pow2_pos|].
    unfold Qdiv. rewrite <- Qmult_assoc, (Qmult_comm (/ pow2 ea)).
    rewrite Qmult_inv_r, Qmult_1_r; [exact Hab|].
    intros H0. pose proof (pow2_pos ea). lra.
  - assert (Hlt : (ea < eb)%Z) by lia.
    assert (Heb : eb = (ilog2 b - (prec - 1))%Z) by (subst ea eb; lia).
    apply Qle_trans with (pow2 (ea + prec)).
    + rewrite pow2_add, (Qmult_comm (pow2 ea) (pow2 prec)).
      apply Qmult_le_compat_r; [|apply Qlt_le_weak, pow2_pos].
      apply rne_le_pow2; [unfold prec; lia|].
      apply Qle_shift_div_r; [apply pow2_pos|].
      rewrite <- pow2_add.
      destruct (ilog2_spec a Ha) as [_ H2].
      apply Qlt_le_weak. eapply Qlt_le_trans; [exact H2|].
      apply pow2_le. subst ea. unfold prec. lia.
    + apply Qle_trans with (pow2 (prec - 1) * pow2 eb)%Q.
      * rewrite <- pow2_add. apply pow2_le. unfold prec in *. lia.
      * apply Qmult_le_compat_r; [|apply Qlt_le_weak, pow2_pos].
        apply rne_ge_pow2; [unfold prec; lia|].
        apply Qle_shift_div_l; [apply pow2_pos|].
        rewrite <- pow2_add.
        destruct (ilog2_spec b Hb) as [H1 _].
        eapply Qle_trans; [|exact H1].
        apply pow2_le. rewrite Heb. lia.
Qed.

Lemma round_reduced_mono a b :
  (a <= b)%Q -> (round_reduced a <=? round_reduced b) = true.
Proof.
  intros Hab. unfold round_reduced.
  destruct (Qcompare_spec 0 a) as [Ha|Ha|Ha];
    destruct (Qcompare_spec 0 b) as [Hb|Hb|Hb]; try (exfalso; lra); cbv zeta.
  - reflexivity.
  - destruct (Qle_bool (pow2 emax) (nearest b)); [reflexivity|].
    simpl. apply Qle_bool_iff. rewrite Qred_correct. apply nearest_nonneg, Hb.
  - destruct (Qle_bool (pow2 emax) (nearest a)) eqn:Ea.
    + apply Qle_bool_iff in Ea.
      assert (Eb : Qle_bool (pow2 emax) (nearest b) = true).
      { apply Qle_bool_iff. eapply Qle_trans; [exact Ea|].
        apply nearest_mono; assumption. }
      rewrite Eb. reflexivity.
    + destruct (Qle_bool (pow2 emax) (nearest b)); [reflexivity|].
      simpl. apply Qle_bool_iff. rewrite !Qred_correct.
      apply nearest_mono; assumption.
  - destruct (Qle_bool (pow2 emax) (nearest (- a))); [reflexivity|].
    simpl. apply Qle_bool_iff. rewrite Qred_correct.
    assert (H : (0 <= nearest (- a))%Q) by (apply nearest_nonneg; lra). lra.
  - assert (Hna : (0 <= nearest (- a))%Q) by (apply nearest_nonneg; lra).
    assert (Hnb : (0 <= nearest b)%Q) by (apply nearest_nonneg; lra).
    destruct (Qle_bool (pow2 emax) (nearest (- a)));
      destruct (Qle_bool (pow2 emax) (nearest b)); try reflexivity.
    simpl. apply Qle_bool_iff. rewrite !Qred_correct. lra.
  - assert (Hm : (nearest (- b) <= nearest (- a))%Q)
      by (apply nearest_mono; lra).
    destruct (Qle_bool (pow2 emax) (nearest (- a))) eqn:Ea;
      [destruct (Qle_bool (pow2 emax) (nearest (- b))); reflexivity|].
    apply Qle_bool_false in Ea.
    destruct (Qle_bool (pow2 emax) (nearest (- b))) eqn:Eb.
    + apply Qle_bool_iff in Eb. exfalso. lra.
    + simpl. apply Qle_bool_iff. rewrite !Qred_correct. lra.
Qed.

(** Rounding is monotone. *)
Lemma round_mono a b : (a <= b)%Q -> (round a <=? round b) = true.
Proof.
  intros H. unfold round. apply round_reduced_mono.
  rewrite !Qred_correct. exact H.
Qed.

Lemma round_comp a b : (a == b)%Q -> round a = round b.
Proof. intros H. unfold round. rewrite (Qred_complete a b H). reflexivity. Qed.

Lemma round_not_nan q : is_nan (round q) = false.
Proof.
  unfold round, round_reduced.
  destruct (0 ?= Qred q)%Q; cbv zeta; try reflexivity;
    match goal with |- context [Qle_bool ?x ?y] => destruct (Qle_bool x y) end;
    reflexivity.
Qed.

(** A number between two numbers that round to numbers rounds to a number
    between them. *)
Lemma round_between lo hi q lo' hi' :
  round lo = Fin lo' -> round hi = Fin hi' ->
  (lo <= q)%Q -> (q <= hi)%Q ->
  exists r, round q = Fin r /\ (lo' <= r)%Q /\ (r <= hi')%Q.
Proof.
  intros Hlo Hhi H1 H2.
  pose proof (round_mono lo q H1) as M1.
  pose proof (round_mono q hi H2) as M2.
  rewrite Hlo in M1. rewrite Hhi in M2.
  destruct (round q) as [r| | |]; try discriminate.
  exists r. simpl in M1, M2. apply Qle_bool_iff in M1. apply Qle_bool_iff in M2.
  auto.
Qed.

Lemma Qred_inject_Z n : Qred (inject_Z n) = inject_Z n.
Proof.
  pose proof (gcd_Qred (inject_Z n)) as Hg.
  pose proof (Qred_correct (inject_Z n)) as Hc.
  destruct (Qred (inject_Z n)) as [a b]. unfold Qeq in Hc. simpl in Hg, Hc.
  assert (Ha : a = (n * Z.pos b)%Z) by lia.
  rewrite Ha, (Z.mul_comm n) in Hg. simpl in Hg.
  rewrite Z.gcd_comm, Z.gcd_mul_diag_l in Hg by lia.
  assert (Hb : b = 1%positive) by lia. subst b.
  unfold inject_Z. f_equal. lia.
Qed.

Lemma nearest_exact (q : Q) (k : Z) :
  (q / pow2 (Z.max (ilog2 q - (prec - 1)) emin) == inject_Z k)%Q ->
  (nearest q == q)%Q.
Proof.
  intros H. unfold nearest. set (e := Z.max _ _) in *.
  rewrite (rne_comp _ _ H), rne_inject_Z, <- H.
  unfold Qdiv. rewrite <- Qmult_assoc, (Qmult_comm (/ pow2 e)).
  rewrite Qmult_inv_r, Qmult_1_r; [reflexivity|].
  intros H0. pose proof (pow2_pos e). lra.
Qed.

Lemma nearest_inject_Z n :
  (0 < n < 2 ^ 53)%Z -> (nearest (inject_Z n) == inject_Z n)%Q.
Proof.
  intros Hn.
  assert (Hq : (0 < inject_Z n)%Q).
  { change 0%Q with (inject_Z 0). rewrite <- Zlt_Qlt. lia. }
  destruct (ilog2_spec (inject_Z n) Hq) as [H1 H2].
  set (l := ilog2 (inject_Z n)) in *.
  assert (Hl : (0 <= l < 53)%Z).
  { split.
    - assert (H : (pow2 0 < pow2 (l + 1))%Q).
      { eapply Qle_lt_trans; [|exact H2]. change (pow2 0) with (inject_Z 1).
        rewrite <- Zle_Qle. lia. }
      apply pow2_lt_inv in H. lia.
    - assert (H : (pow2 l < pow2 53)%Q).
      { eapply Qle_lt_trans; [exact H1|].
        rewrite <- (pow2_inject 53) by lia. rewrite <- Zlt_Qlt. lia. }
      apply pow2_lt_inv in H. exact H. }
  apply (nearest_exact _ (n * 2 ^ (52 - l))).
  fold l. unfold prec, emin.
  replace (Z.max (l - (53 - 1)) (-1074)) with (l - 52)%Z by lia.
  rewrite inject_Z_mult, (pow2_inject (52 - l)) by lia.
  replace (l - 52)%Z with (- (52 - l))%Z by lia.
  unfold pow2. rewrite Qpower_opp. unfold Qdiv. rewrite Qinv_involutive.
  reflexivity.
Qed.

(** The conversion of an [int] of magnitude up to [2^53] is exact. *)
Lemma round_inject_Z n :
  (Z.abs n <= 2 ^ 53)%Z -> round (inject_Z n) = Fin (inject_Z n).
Proof.
  intros Hn. unfold round. rewrite Qred_inject_Z.
  assert (Hpos : forall k, (0 < k < 2 ^ 53)%Z ->
            Qle_bool (pow2 emax) (nearest (inject_Z k)) = false
            /\ Qred (nearest (inject_Z k)) = inject_Z k).
  { intros k Hk. pose proof (nearest_inject_Z k Hk) as He. split.
    - destruct (Qle_bool (pow2 emax) (nearest (inject_Z k))) eqn:E; [|reflexivity].
      apply Qle_bool_iff in E. rewrite He in E. exfalso.
      assert (H : (inject_Z k < pow2 emax)%Q).
      { apply Qlt_le_trans with (pow2 53).
        - rewrite <- (pow2_inject 53) by lia. rewrite <- Zlt_Qlt. lia.
        - apply pow2_le. unfold emax. lia. }
      lra.
    - transitivity (Qred (inject_Z k));
        [apply Qred_complete; exact He|apply Qred_inject_Z]. }
  destruct (Z.eq_dec n 0) as [->|H0]; [reflexivity|].
  destruct (Z.eq_dec n (2 ^ 53)) as [->|H1]; [vm_compute; reflexivity|].
  destruct (Z.eq_dec n (- 2 ^ 53)%Z) as [->|H2]; [vm_compute; reflexivity|].
  unfold round_reduced.
  destruct (Qcompare_spec 0 (inject_Z n)) as [E|E|E].
  - exfalso. unfold Qeq in E. simpl in E. lia.
  - assert (Hk : (0 < n < 2 ^ 53)%Z).
    { unfold Qlt in E. simpl in E. lia. }
    cbv zeta. destruct (Hpos n Hk) as [-> ->]. reflexivity.
  - assert (Hk : (0 < - n < 2 ^ 53)%Z).
    { unfold Qlt in E. simpl in E. lia. }
    cbv zeta. rewrite <- inject_Z_opp.
    destruct (Hpos (- n)%Z Hk) as [-> E2].
    rewrite Qred_opp, E2, inject_Z_opp. f_equal.
    unfold Qopp, inject_Z. simpl. f_equal. lia.
Qed.

Lemma Qopp_opp (q : Q) : (- - q)%Q = q.
Proof. destruct q as [n d]. unfold Qopp. simpl. rewrite Z.opp_involutive. reflexivity. Qed.

(** Rounding commutes with the change of sign. *)
Lemma round_opp q : round (- q) = F64.neg (round q).
Proof.
  unfold round. rewrite Qred_opp. set (x := Qred q).
  unfold round_reduced.
  destruct (Qcompare_spec 0 x) as [E|E|E];
    destruct (Qcompare_spec 0 (- x)) as [E'|E'|E']; try (exfalso; lra); cbv zeta.
  - reflexivity.
  - rewrite Qopp_opp.
    destruct (Qle_bool (pow2 emax) (nearest x)); [reflexivity|].
    simpl. rewrite Qred_opp. reflexivity.
  - destruct (Qle_bool (pow2 emax) (nearest (- x))); [reflexivity|].
    simpl. rewrite Qred_opp, Qopp_opp. reflexivity.
Qed.

Lemma ilog2_pow2 q k :
  (pow2 k <= q)%Q -> (q < pow2 (k + 1))%Q -> ilog2 q = k.
Proof.
  intros H1 H2.
  assert (Hq : (0 < q)%Q) by (eapply Qlt_le_trans; [apply (pow2_pos k)|exact H1]).
  destruct (ilog2_spec q Hq) as [S1 S2].
  assert (A : (pow2 k < pow2 (ilog2 q + 1))%Q) by (eapply Qle_lt_trans; eassumption).
  assert (B : (pow2 (ilog2 q) < pow2 (k + 1))%Q) by (eapply Qle_lt_trans; eassumption).
  apply pow2_lt_inv in A. apply pow2_lt_inv in B. lia.
Qed.

(** A power of two within the range of the format is a [float64]. *)
Lemma round_pow2 k :
  (emin <= k < emax)%Z -> exists r, round (pow2 k) = Fin r /\ (r == pow2 k)%Q.
Proof.
  intros Hk. unfold round. set (x := Qred (pow2 k)).
  assert (Hx : (x == pow2 k)%Q) by apply Qred_correct.
  assert (Hpos : (0 < x)%Q) by (rewrite Hx; apply pow2_pos).
  assert (Hl : ilog2 x = k).
  { apply ilog2_pow2; rewrite Hx; [apply Qle_refl|apply pow2_lt; lia]. }
  assert (Hn : (nearest x == pow2 k)%Q).
  { rewrite <- Hx.
    apply (nearest_exact x (2 ^ (k - Z.max (k - (prec - 1)) emin))).
    rewrite Hl. set (e := Z.max (k - (prec - 1)) emin).
    assert (He : (0 <= k - e)%Z) by (subst e; unfold prec, emin in *; lia).
    rewrite (pow2_inject _ He), Hx.
    symmetry. apply Qpower_minus. discriminate. }
  unfold round_reduced.
  destruct (Qcompare_spec 0 x) as [E|E|E]; try (exfalso; lra). cbv zeta.
  destruct (Qle_bool (pow2 emax) (nearest x)) eqn:Eo.
  - apply Qle_bool_iff in Eo. rewrite Hn in Eo. exfalso.
    assert (H : (pow2 k < pow2 emax)%Q) by (apply pow2_lt; lia). lra.
  - eexists. split; [reflexivity|]. rewrite Qred_correct. exact Hn.
Qed.

(** A result of magnitude at most a power of two rounds to a number of
    magnitude at most that power. *)
Lemma round_within_pow2 k q :
  (emin <= k < emax)%Z -> (Qabs q <= pow2 k)%Q ->
  exists r, round q = Fin r /\ (Qabs r <= pow2 k)%Q.
Proof.
  intros Hk Hq. apply Qabs_Qle_condition in Hq. destruct Hq as [H1 H2].
  destruct (round_pow2 k Hk) as (b & Hb & Eb).
  assert (Hn : round (- pow2 k) = Fin (- b)) by (rewrite round_opp, Hb; reflexivity).
  destruct (round_between (- pow2 k) (pow2 k) q _ _ Hn Hb H1 H2) as (r & Hr & L & U).
  exists r. split; [exact Hr|]. apply Qabs_Qle_condition. rewrite <- Eb. split; assumption.
Qed.

(** ** The rounding against the arithmetic of the machine

    On the constants of the sources and on sums, products, quotients and
    conversions that round, overflow, underflow or are invalid, [F64]
    computes what the processor computes. *)

Example hardware_literals :
  Hardware.literals
  = [lit (1 # 10); lit (2 # 10); lit (5 # 100); lit (5 # 10); lit (8 # 10);
     lit (306 # 10); lit (4233 # 100); lit (1 # 100); Cases.large; Cases.huge].
Proof. vm_compute. reflexivity. Qed.

Example hardware_sums :
  Hardware.sums
  = [lit (1 # 10) + lit (2 # 10); Fin 30 + lit (1 # 10) * Fin 6;
     Cases.huge + Cases.huge; Fin (13 # 4) + lit (1 # 100) * Fin 12;
     PosInf - PosInf; Cases.huge - - Cases.huge].
Proof. vm_compute. reflexivity. Qed.

Example hardware_quotients :
  Hardware.quotients
  = [Fin 1 / Fin 3; Fin 127 / Fin 3; Fin 45125 / Fin 1000;
     Fin 10000000 / Fin 1000000000; Fin 0 / Fin 0;
     lit (pow2 (-1074)) / Fin 2; lit (3 * pow2 (-1075)) / Fin 2].
Proof. vm_compute. reflexivity. Qed.

Example hardware_products :
  Hardware.products
  = [lit (1 # 10) * lit (1 # 10); Cases.large * Fin 8; Cases.large * Fin (-2);
     lit (pow2 (-600)) * lit (pow2 (-600)); PosInf * Fin 0].
Proof. vm_compute. reflexivity. Qed.

Example hardware_conversions :
  Hardware.conversions
  = map of_int [9007199254740993; 27021597764222979; 9223372036854775807;
                18014398509481986]%Z.
Proof. vm_compute. reflexivity. Qed.

(** ** Comparisons, conversions and clamping *)

Lemma gtb_leb_trans (x y limit : float64) :
  (x <=? y) = true -> (x >? limit) = true -> (y >? limit) = true.
Proof.
  unfold F64.gtb.
  destruct x as [x| | |], y as [y| | |], limit as [l| | |]; simpl;
    try discriminate; try reflexivity.
  intros H1 H2. apply Qle_bool_iff in H1.
  apply negb_true_iff, Qle_bool_false in H2.
  apply negb_true_iff. destruct (Qle_bool y l) eqn:E; [|reflexivity].
  apply Qle_bool_iff in E. exfalso. lra.
Qed.

Lemma of_int_mono a b : (a <= b)%Z -> (of_int a <=? of_int b) = true.
Proof. intros H. apply round_mono. rewrite <- Zle_Qle. exact H. Qed.

Lemma of_int_exact n : (Z.abs n <= 2 ^ 53)%Z -> of_int n = Fin (inject_Z n).
Proof. apply round_inject_Z. Qed.

(** The conversion of a 64-bit [int] is a number. *)
Lemma of_int_in_range n :
  GoInt.in_range n -> exists q, of_int n = Fin q /\ (Qabs q <= pow2 63)%Q.
Proof.
  intros [H1 H2]. apply round_within_pow2; [unfold emin, emax; lia|].
  apply Qabs_Qle_condition.
  unfold GoInt.min_int, GoInt.max_int in *.
  rewrite <- (pow2_inject 63) by lia. rewrite <- inject_Z_opp, <- !Zle_Qle. lia.
Qed.

(** [clamp] with ordered limits puts a value that is not NaN within the
    limits. *)
Lemma clamp_within v lo hi :
  is_nan v = false -> (lo <=? hi) = true ->
  (lo <=? PID.clamp v lo hi) = true /\ (PID.clamp v lo hi <=? hi) = true.
Proof.
  intros Hv Hlh. unfold PID.clamp, F64.gtb.
  destruct v as [v| | |]; [| | |discriminate];
    destruct lo as [lo| | |]; try discriminate;
    destruct hi as [hi| | |]; try discriminate; simpl in *;
    repeat match goal with
           | |- context [Qle_bool ?a ?b] =>
               let E := fresh "E" in destruct (Qle_bool a b) eqn:E; simpl
           end;
    repeat match goal with
           | H : Qle_bool _ _ = true |- _ => apply Qle_bool_iff in H
           | H : Qle_bool _ _ = false |- _ => apply Qle_bool_false in H
           end;
    split; try reflexivity; try (apply Qle_bool_iff; lra); try lra.
Qed.

(** Clamping a value that is not NaN into a band around zero yields a
    number inside the band. *)
Lemma clamp_band (v : float64) (m : Q) :
  is_nan v = false -> (0 < m)%Q ->
  exists y, PID.clamp v (- Fin m) (Fin m) = Fin y /\ (Qabs y <= m)%Q.
Proof.
  intros Hv Hm. unfold PID.clamp, F64.gtb.
  destruct v as [x| | |]; simpl; try discriminate.
  - destruct (Qle_bool (- m) x) eqn:Hlo; simpl.
    + apply Qle_bool_iff in Hlo.
      destruct (Qle_bool x m) eqn:Hhi; simpl.
      * apply Qle_bool_iff in Hhi. exists x. split; [reflexivity|].
        apply Qabs_Qle_condition. split; assumption.
      * exists m. split; [reflexivity|].
        apply Qabs_Qle_condition. split; lra.
    + exists (- m)%Q. split; [reflexivity|].
      apply Qabs_Qle_condition. split; lra.
  - exists m. split; [reflexivity|]. apply Qabs_Qle_condition. split; lra.
  - exists (- m)%Q. split; [reflexivity|]. apply Qabs_Qle_condition. split; lra.
Qed.

(** ** Arithmetic on numbers of bounded magnitude *)

Lemma add_not_nan_fin (i : Q) (y : float64) :
  is_nan y = false -> is_nan (Fin i + y) = false.
Proof.
  destruct y as [r| | |]; simpl; try discriminate; try reflexivity.
  intros _. apply round_not_nan.
Qed.

Lemma mul_fin_not_nan (a b : Q) : is_nan (Fin a * Fin b) = false.
Proof. simpl. apply round_not_nan. Qed.

Lemma add_within a b k (x y : float64) :
  Numeric.within a x -> Numeric.within b y ->
  (emin <= k < emax)%Z -> (a + b <= pow2 k)%Q ->
  Numeric.within (pow2 k) (x + y).
Proof.
  intros (p & -> & Hp) (q & -> & Hq) Hk Hab. simpl.
  apply round_within_pow2; [exact Hk|].
  eapply Qle_trans; [apply Qabs_triangle|]. lra.
Qed.

Lemma neg_within a (x : float64) : Numeric.within a x -> Numeric.within a (- x).
Proof.
  intros (p & -> & Hp). exists (- p)%Q. split; [reflexivity|].
  rewrite Qabs_opp. exact Hp.
Qed.

Lemma sub_within a b k (x y : float64) :
  Numeric.within a x -> Numeric.within b y ->
  (emin <= k < emax)%Z -> (a + b <= pow2 k)%Q ->
  Numeric.within (pow2 k) (x - y).
Proof.
  intros Hx Hy. unfold F64.sub. apply add_within; [exact Hx|apply neg_within, Hy].
Qed.

Lemma Qabs_mul_le (p q a b : Q) :
  (Qabs p <= a)%Q -> (Qabs q <= b)%Q -> (Qabs (p * q) <= a * b)%Q.
Proof.
  intros Hp Hq. rewrite Qabs_Qmult.
  pose proof (Qabs_nonneg p) as Np. pose proof (Qabs_nonneg q) as Nq.
  revert Hp Hq Np Nq. generalize (Qabs p) (Qabs q). intros u v Hp Hq Np Nq.
  nra.
Qed.

Lemma mul_within a b k (x y : float64) :
  Numeric.within a x -> Numeric.within b y ->
  (emin <= k < emax)%Z -> (a * b <= pow2 k)%Q ->
  Numeric.within (pow2 k) (x * y).
Proof.
  intros (p & -> & Hp) (q & -> & Hq) Hk Hab. simpl.
  apply round_within_pow2; [exact Hk|].
  eapply Qle_trans; [apply (Qabs_mul_le p q a b Hp Hq)|exact Hab].
Qed.

(** Division by a number of magnitude at least [c > 0]. *)
Lemma div_within a c k (x : float64) (q : Q) :
  Numeric.within a x -> (0 < c)%Q -> (c <= Qabs q)%Q ->
  (emin <= k < emax)%Z -> (a <= pow2 k * c)%Q ->
  Numeric.within (pow2 k) (x / Fin q).
Proof.
  intros (p & -> & Hp) Hc Hq Hk Hab. simpl.
  assert (Hq0 : ~ (q == 0)%Q).
  { intros E. assert (H0 : (Qabs q == 0)%Q) by (rewrite E; reflexivity). lra. }
  destruct (Qeq_bool q 0) eqn:Ez; [apply Qeq_bool_iff in Ez; contradiction|].
  apply round_within_pow2; [exact Hk|].
  unfold Qdiv. rewrite Qabs_Qmult, Qabs_Qinv.
  assert (Hpos : (0 < Qabs q)%Q) by lra.
  apply Qle_shift_div_r; [exact Hpos|].
  apply Qle_trans with (pow2 k * c)%Q; [lra|].
  apply Qmult_le_l; [apply pow2_pos|exact Hq].
Qed.

Lemma pow2_double k : (pow2 k + pow2 k == pow2 (k + 1))%Q.
Proof. rewrite pow2_add. change (pow2 1) with 2%Q. ring. Qed.

(** ** [Duration.Seconds] *)

Lemma Sub_in_range t u : GoInt.in_range (GoTime.Sub t u).
Proof.
  unfold GoTime.Sub, GoInt.in_range, GoInt.min_int, GoInt.max_int. cbv zeta.
  destruct (Z.ltb_spec (t - u) (- 2 ^ 63)); [lia|].
  destruct (Z.gtb_spec (t - u) (2 ^ 63 - 1)); lia.
Qed.

(** A number between two numbers of the format rounds to a number between
    them. *)
Lemma round_range lo hi q :
  (exists r, round lo = Fin r /\ (r == lo)%Q) ->
  (exists r, round hi = Fin r /\ (r == hi)%Q) ->
  (lo <= q)%Q -> (q <= hi)%Q ->
  exists r, round q = Fin r /\ (lo <= r)%Q /\ (r <= hi)%Q.
Proof.
  intros (l & Hl & El) (h & Hh & Eh) H1 H2.
  destruct (round_between lo hi q l h Hl Hh H1 H2) as (r & Hr & L & U).
  exists r. rewrite <- El, <- Eh. auto.
Qed.

Lemma round_opp_exact x :
  (exists r, round x = Fin r /\ (r == x)%Q) ->
  exists r, round (- x) = Fin r /\ (r == - x)%Q.
Proof.
  intros (r & Hr & Er). exists (- r)%Q. rewrite round_opp, Hr.
  split; [reflexivity|]. rewrite Er. reflexivity.
Qed.

Lemma round_int_exact n :
  (Z.abs n <= 2 ^ 53)%Z ->
  exists r, round (inject_Z n) = Fin r /\ (r == inject_Z n)%Q.
Proof.
  intros H. exists (inject_Z n). split; [apply round_inject_Z, H|reflexivity].
Qed.

Lemma quot_rem_Second d :
  GoInt.in_range d ->
  let sec := Z.quot d GoTime.Second in
  let nsec := Z.rem d GoTime.Second in
  (d = sec * 1000000000 + nsec)%Z
  /\ (Z.abs sec <= 2 ^ 34)%Z /\ (Z.abs nsec < 1000000000)%Z
  /\ ((0 <= d)%Z -> (0 <= sec)%Z /\ (0 <= nsec)%Z)
  /\ ((d <= 0)%Z -> (sec <= 0)%Z /\ (nsec <= 0)%Z).
Proof.
  unfold GoInt.in_range, GoInt.min_int, GoInt.max_int, GoTime.Second.
  intros Hd. cbv zeta.
  assert (Hnn : forall a, (0 <= a <= 2 ^ 63)%Z ->
            (a = Z.quot a 1000000000 * 1000000000 + Z.rem a 1000000000
             /\ 0 <= Z.quot a 1000000000 <= 2 ^ 34
             /\ 0 <= Z.rem a 1000000000 < 1000000000)%Z).
  { intros a Ha.
    pose proof (Z.quot_rem' a 1000000000) as Hqr.
    pose proof (Z.rem_bound_pos a 1000000000 ltac:(lia) ltac:(lia)) as Hr.
    pose proof (Z.quot_pos a 1000000000 ltac:(lia) ltac:(lia)) as Hq.
    repeat split; lia. }
  destruct (Z_le_gt_dec 0 d) as [Hpos|Hneg].
  - destruct (Hnn d ltac:(lia)) as (H1 & H2 & H3). repeat split; lia.
  - destruct (Hnn (- d)%Z ltac:(lia)) as (H1 & H2 & H3).
    rewrite Z.quot_opp_l in H1, H2 by lia.
    rewrite Z.rem_opp_l in H1, H3 by lia.
    repeat split; lia.
Qed.

(** [Seconds] of a duration is a number of magnitude at most [2^35]; when
    it is positive it is at least [2^-30]. *)
Lemma Seconds_bounds d :
  GoInt.in_range d ->
  exists q, GoTime.Seconds d = Fin q
            /\ (Qabs q <= pow2 35)%Q
            /\ ((0 < q)%Q -> (pow2 (-30) <= q)%Q).
Proof.
  intros Hd.
  destruct (quot_rem_Second d Hd) as (Hqr & Hs & Hn & Hpos & Hneg).
  cbv zeta in *. unfold GoTime.Seconds. cbv zeta.
  set (sec := Z.quot d GoTime.Second) in *.
  set (nsec := Z.rem d GoTime.Second) in *.
  rewrite (of_int_exact sec) by lia. rewrite (of_int_exact nsec) by lia.
  assert (E0 : exists r, round 0 = Fin r /\ (r == 0)%Q)
    by (exists 0%Q; split; reflexivity).
  assert (E1 : exists r, round 1 = Fin r /\ (r == 1)%Q)
    by (exists 1%Q; split; reflexivity).
  assert (Em : exists r, round (pow2 (-30)) = Fin r /\ (r == pow2 (-30))%Q)
    by (apply round_pow2; unfold emin, emax; lia).
  assert (E35 : exists r, round (pow2 35) = Fin r /\ (r == pow2 35)%Q)
    by (apply round_pow2; unfold emin, emax; lia).
  assert (P35 : (pow2 35 == inject_Z (2 ^ 35))%Q) by (symmetry; apply pow2_inject; lia).
  assert (Pm : (pow2 (-30) == 1 # 1073741824)%Q) by reflexivity.
  assert (Hdiv : (inject_Z nsec / 1000000000 == inject_Z nsec * (1 # 1000000000))%Q)
    by reflexivity.
  unfold F64.div. change (Qeq_bool 1000000000 0) with false. cbv iota.
  destruct (Z_le_gt_dec 1 d) as [Hd1|Hd0].
  - destruct (Hpos ltac:(lia)) as [Hs0 Hn0].
    assert (Qn0 : (0 <= inject_Z nsec)%Q)
      by (change 0%Q with (inject_Z 0); rewrite <- Zle_Qle; exact Hn0).
    assert (Qn1 : (inject_Z nsec <= 1000000000)%Q)
      by (change 1000000000%Q with (inject_Z 1000000000); rewrite <- Zle_Qle; lia).
    destruct (Z_le_gt_dec 1 sec) as [Hs1|Hs1].
    + destruct (round_range 0 1 (inject_Z nsec / 1000000000) E0 E1)
        as (r1 & Hr1 & L1 & U1); [rewrite Hdiv; lra|rewrite Hdiv; lra|].
      rewrite Hr1. simpl.
      assert (Qs1 : (1 <= inject_Z sec)%Q)
        by (change 1%Q with (inject_Z 1); rewrite <- Zle_Qle; exact Hs1).
      assert (Qs2 : (inject_Z sec <= inject_Z (2 ^ 34))%Q)
        by (rewrite <- Zle_Qle; lia).
      assert (Q34 : (inject_Z (2 ^ 34) + 1 <= inject_Z (2 ^ 35))%Q).
      { change 1%Q with (inject_Z 1). rewrite <- inject_Z_plus, <- Zle_Qle. lia. }
      destruct (round_range 1 (pow2 35) (inject_Z sec + r1) E1 E35)
        as (q & Hq & L & U); [lra|rewrite P35; lra|].
      exists q. split; [exact Hq|]. split.
      * apply Qabs_Qle_condition. split; [|exact U].
        pose proof (pow2_pos 35). lra.
      * intros _. rewrite Pm. lra.
    + assert (Hsec : sec = 0%Z) by lia. rewrite Hsec.
      assert (Hn1 : (1 <= nsec)%Z) by lia.
      assert (Qn2 : (1 <= inject_Z nsec)%Q)
        by (change 1%Q with (inject_Z 1); rewrite <- Zle_Qle; exact Hn1).
      destruct (round_range (pow2 (-30)) 1 (inject_Z nsec / 1000000000) Em E1)
        as (r1 & Hr1 & L1 & U1); [rewrite Hdiv, Pm; lra|rewrite Hdiv; lra|].
      rewrite Hr1. simpl.
      destruct (round_range (pow2 (-30)) 1 (inject_Z 0 + r1) Em E1)
        as (q & Hq & L & U).
      { change (inject_Z 0) with 0%Q. lra. }
      { change (inject_Z 0) with 0%Q. lra. }
      exists q. split; [exact Hq|]. split.
      * apply Qabs_Qle_condition. rewrite Pm in L. split.
        -- pose proof (pow2_pos 35). lra.
        -- rewrite P35. eapply Qle_trans; [exact U|].
           change 1%Q with (inject_Z 1). rewrite <- Zle_Qle. lia.
      * intros _. exact L.
  - destruct (Hneg ltac:(lia)) as [Hs0 Hn0].
    assert (Qn0 : (inject_Z nsec <= 0)%Q)
      by (change 0%Q with (inject_Z 0); rewrite <- Zle_Qle; exact Hn0).
    assert (Qn1 : (- (1000000000) <= inject_Z nsec)%Q)
      by (change (- (1000000000))%Q with (inject_Z (-1000000000));
          rewrite <- Zle_Qle; lia).
    assert (Em1 : exists r, round (- (1)) = Fin r /\ (r == - (1))%Q)
      by (apply round_opp_exact, E1).
    destruct (round_range (- (1)) 0 (inject_Z nsec / 1000000000) Em1 E0)
      as (r1 & Hr1 & L1 & U1); [rewrite Hdiv; lra|rewrite Hdiv; lra|].
    rewrite Hr1. simpl.
    assert (Qs1 : (inject_Z sec <= 0)%Q)
      by (change 0%Q with (inject_Z 0); rewrite <- Zle_Qle; exact Hs0).
    assert (Qs2 : (- inject_Z (2 ^ 34) <= inject_Z sec)%Q)
      by (rewrite <- inject_Z_opp, <- Zle_Qle; lia).
    assert (Q34 : (inject_Z (2 ^ 34) + 1 <= inject_Z (2 ^ 35))%Q).
    { change 1%Q with (inject_Z 1). rewrite <- inject_Z_plus, <- Zle_Qle. lia. }
    destruct (round_range (- pow2 35) 0 (inject_Z sec + r1)
                (round_opp_exact _ E35) E0)
      as (q & Hq & L & U); [rewrite P35; lra|lra|].
    exists q. split; [exact Hq|]. split.
    + apply Qabs_Qle_condition. split; [exact L|].
      pose proof (pow2_pos 35). lra.
    + intros Hq0. exfalso. lra.
Qed.

(** ** The PID controller *)

(** The time step of a call is a number; when positive, at least [2^-30]. *)
Lemma dt_bounds (p : PID.PIDController) (now : Z) :
  exists q,
    (if negb (PID.FirstRun p)
     then GoTime.Seconds (GoTime.Sub now (PID.PrevTime p)) else Fin 1) = Fin q
    /\ (Qabs q <= pow2 35)%Q
    /\ ((0 < q)%Q -> (pow2 (-30) <= q)%Q).
Proof.
  destruct (PID.FirstRun p); cbn [negb].
  - exists 1%Q. split; [reflexivity|]. split.
    + apply Qabs_Qle_condition. rewrite <- (pow2_inject 35) by lia.
      split; [|change 1%Q with (inject_Z 1); rewrite <- Zle_Qle; lia].
      change (- inject_Z (2 ^ 35))%Q with (inject_Z (- 2 ^ 35)).
      change 1%Q with (inject_Z 1). rewrite <- Zle_Qle. lia.
    + intros _. change (pow2 (-30)) with (1 # 1073741824)%Q. lra.
  - apply Seconds_bounds, Sub_in_range.
Qed.

Lemma Calculate_keeps_integral_inv p current now :
  Obs.integral_inv p -> is_finite (current - PID.Target p) ->
  Obs.integral_inv (snd (PID.Calculate p current now)).
Proof.
  intros (m & i & Hm & Hpos & Hi & _) He.
  unfold Obs.integral_inv, PID.Calculate.
  cbn [snd PID.IntegralMax PID.Integral].
  destruct (dt_bounds p now) as (q & Hq & _). rewrite Hq, Hm, Hi.
  destruct (current - PID.Target p) as [e| | |]; try contradiction.
  destruct (clamp_band (Fin i + Fin e * Fin q) m) as (y & Hy & By);
    [apply add_not_nan_fin, mul_fin_not_nan|exact Hpos|].
  exists m, y. split; [reflexivity|]. split; [exact Hpos|].
  split; [exact Hy|exact By].
Qed.

Lemma run_Target calls : forall p, PID.Target (PID.run p calls) = PID.Target p.
Proof.
  induction calls as [|[current now] rest IH]; intros p; simpl; [reflexivity|].
  rewrite IH. reflexivity.
Qed.

Lemma run_keeps_integral_inv calls : forall p,
  Obs.integral_inv p ->
  Forall (fun call : float64 * Z => is_finite (fst call - PID.Target p)) calls ->
  Obs.integral_inv (PID.run p calls).
Proof.
  induction calls as [|[current now] rest IH]; intros p Hp Hcalls; simpl.
  - assumption.
  - inversion Hcalls; subst. apply IH.
    + apply Calculate_keeps_integral_inv; assumption.
    + assumption.
Qed.

Lemma run_keeps_IntegralMax calls : forall p,
  PID.IntegralMax (PID.run p calls) = PID.IntegralMax p.
Proof.
  induction calls as [|[current now] rest IH]; intros p; simpl; [reflexivity|].
  rewrite IH. reflexivity.
Qed.

(** The invariant of the accumulator at a new controller. *)
Lemma new_integral_inv kp ki kd target minOutput maxOutput integralMax :
  (zero <? integralMax) = true -> is_finite integralMax ->
  Obs.integral_inv
    (PID.NewPIDController kp ki kd target minOutput maxOutput integralMax).
Proof.
  intros Hm Hf. destruct integralMax as [m| | |]; try contradiction.
  simpl in Hm. apply negb_true_iff, Qle_bool_false in Hm.
  exists m, 0%Q. split; [reflexivity|]. split; [exact Hm|].
  split; [reflexivity|]. simpl. apply Qlt_le_weak. exact Hm.
Qed.

Lemma integral_inv_bound p :
  Obs.integral_inv p ->
  is_finite (PID.Integral p)
  /\ (F64.abs (PID.Integral p) <=? PID.IntegralMax p) = true.
Proof.
  intros (m & i & -> & _ & -> & Hb). split; [exact I|].
  simpl. apply Qle_bool_iff. exact Hb.
Qed.


(** C1.  [Calculate] returns [clamp (P + I + D)] where [I] is the clamped
    accumulator itself: the integral gain [Ki] is read nowhere, so the
    output is the same for every value of [Ki].  With [Kp=2], [Ki=0],
    [Kd=0], target 38, limits [0,100] and a first reading of 40 the code
    returns 6 (P=4 plus the accumulator 2), whereas the output with the
    gain folded in is 4 under either convention: [Ki] multiplying the
    accumulator, or [Ki] applied when accumulating.  With the default gains
    (5, 0.1, 20), target 38 and a first reading of 44 the code returns 36
    and the folded output is 30.6. *)
Theorem Calculate_output_ignores_Ki :
  (forall p current now,
     let '(output, terms, p') := PID.Calculate p current now in
     output = PID.clamp (PID.P terms + PID.Integral p' + PID.D terms)
                (PID.MinOutput p) (PID.MaxOutput p)
     /\ PID.P terms = PID.Kp p * (current - PID.Target p)
     /\ PID.I terms = PID.Integral p')
  /\ (forall p ki current now,
        fst (fst (PID.Calculate (PID.SetGains p (PID.Kp p) ki (PID.Kd p))
                    current now))
        = fst (fst (PID.Calculate p current now)))
  /\ (let p := PID.NewPIDController (Fin 2) (Fin 0) (Fin 0) (Fin 38)
                 (Fin 0) (Fin 100) (Fin 50) in
      (fst (fst (PID.Calculate p (Fin 40) 0)) =? Fin 6) = true
      /\ (PID.Ki_folded_output p (Fin 40) 0 =? Fin 4) = true
      /\ (PID.Ki_accumulated_output p (Fin 40) 0 =? Fin 4) = true
      /\ (fst (fst (PID.Calculate p (Fin 40) 0))
          =? PID.Ki_folded_output p (Fin 40) 0) = false
      /\ (fst (fst (PID.Calculate p (Fin 40) 0))
          =? PID.Ki_accumulated_output p (Fin 40) 0) = false)
  /\ (let p := Loop.pid Samples.freshState in
      (fst (fst (PID.Calculate p (Fin 44) 0)) =? Fin 36) = true
      /\ (PID.Ki_folded_output p (Fin 44) 0 =? lit (306 # 10)) = true
      /\ (PID.Ki_accumulated_output p (Fin 44) 0 =? lit (306 # 10)) = true).
Proof.
  split; [|split; [|split]].
  - intros p current now. unfold PID.Calculate. cbn. auto.
  - intros p ki current now. reflexivity.
  - vm_compute. repeat split; reflexivity.
  - vm_compute. repeat split; reflexivity.
Qed.

(** C2, as the code has it.  Starting from [NewPIDController] with an
    anti-windup limit that is a positive number, after any finite sequence
    of [Calculate] calls in each of which the error, reading minus
    setpoint, is a number, the stored accumulator is a number with
    [|Integral| <= IntegralMax]; and [Reset] leaves [Integral = 0] and
    [FirstRun = true] in every state. *)
Theorem integral_bounded_and_reset :
  forall kp ki kd target minOutput maxOutput integralMax
         (calls : list (float64 * Z)),
    (zero <? integralMax) = true ->
    is_finite integralMax ->
    Forall (fun call : float64 * Z => is_finite (fst call - target)) calls ->
    let p := PID.run (PID.NewPIDController kp ki kd target minOutput maxOutput
                        integralMax) calls in
    (F64.abs (PID.Integral p) <=? integralMax) = true
    /\ is_finite (PID.Integral p)
    /\ (forall q, PID.Integral (PID.Reset q) = zero
                  /\ PID.FirstRun (PID.Reset q) = true).
Proof.
  intros kp ki kd target minOutput maxOutput integralMax calls Hm Hf Hcalls p.
  assert (Hinv : Obs.integral_inv p).
  { apply run_keeps_integral_inv; [|exact Hcalls].
    apply new_integral_inv; assumption. }
  destruct (integral_inv_bound p Hinv) as [Hfin Hb].
  subst p. rewrite run_keeps_IntegralMax in Hb.
  split; [exact Hb|]. split; [exact Hfin|]. intros q. split; reflexivity.
Qed.

Lemma integral_bounded_and_reset_witness :
  (zero <? Fin 10) = true
  /\ is_finite (Fin 10)
  /\ Forall (fun call : float64 * Z => is_finite (fst call - Fin 38))
       [(Fin 50, 0%Z); (Fin 50, 10000000%Z); (Fin 20, 20000000%Z)]
  /\ (F64.abs
        (PID.Integral
           (PID.run (PID.NewPIDController (Fin 0) (Fin 1) (Fin 0) (Fin 38)
                       (Fin 0) (Fin 100) (Fin 10))
              [(Fin 50, 0%Z); (Fin 50, 10000000%Z); (Fin 20, 20000000%Z)]))
      <=? Fin 10) = true.
Proof.
  assert (Hm : (zero <? Fin 10) = true) by reflexivity.
  assert (Hcalls : Forall (fun call : float64 * Z => is_finite (fst call - Fin 38))
                     [(Fin 50, 0%Z); (Fin 50, 10000000%Z); (Fin 20, 20000000%Z)]).
  { repeat (apply List.Forall_cons; [vm_compute; exact I|]). apply List.Forall_nil. }
  split; [exact Hm|]. split; [exact I|]. split; [exact Hcalls|].
  exact (proj1 (integral_bounded_and_reset (Fin 0) (Fin 1) (Fin 0) (Fin 38)
                  (Fin 0) (Fin 100) (Fin 10)
                  [(Fin 50, 0%Z); (Fin 50, 10000000%Z); (Fin 20, 20000000%Z)]
                  Hm I Hcalls)).
Defined.

(** C2 as the design document words it fails where an error is not a
    number or the limit is not one.  A setpoint that is NaN passes
    [Validate], and the first call of the controller [main] builds from it
    stores NaN.  With the setpoint [-1.7e308] and the reading [1.7e308],
    both numbers, the error overflows to an infinity, and a second call at
    the same instant multiplies it by a time step of zero: the accumulator
    is NaN.  With an infinite limit and errors of [1e308] and [-1e308]
    thirty seconds apart the accumulator goes to an infinity and then to
    NaN.  In each case [|Integral| <= IntegralMax] is false. *)
Lemma integral_can_leave_the_band :
  (Cfg.Validate Cases.nanTarget = None
   /\ (zero <? PID.IntegralMax (Main.pid Cases.nanTarget)) = true
   /\ PID.Integral (PID.run (Main.pid Cases.nanTarget) [(Fin 40, 0%Z)]) = NaN
   /\ (F64.abs (PID.Integral (PID.run (Main.pid Cases.nanTarget) [(Fin 40, 0%Z)]))
       <=? PID.IntegralMax (Main.pid Cases.nanTarget)) = false)
  /\ (is_finite Cases.huge
      /\ PID.Integral
           (PID.run (PID.NewPIDController (Fin 5) (lit (1 # 10)) (Fin 20)
                       (- Cases.huge) (Fin 30) (Fin 100) (Fin 50))
              [(Cases.huge, 0%Z); (Cases.huge, 0%Z)]) = NaN
      /\ (F64.abs
            (PID.Integral
               (PID.run (PID.NewPIDController (Fin 5) (lit (1 # 10)) (Fin 20)
                           (- Cases.huge) (Fin 30) (Fin 100) (Fin 50))
                  [(Cases.huge, 0%Z); (Cases.huge, 0%Z)]))
          <=? Fin 50) = false)
  /\ (Forall (fun call : float64 * Z => is_finite (fst call - Fin 0))
        [(Cases.large, 0%Z); (Cases.large, 30000000000%Z);
         (- Cases.large, 60000000000%Z)]
      /\ (zero <? PosInf) = true
      /\ PID.Integral
           (PID.run (PID.NewPIDController (Fin 5) (lit (1 # 10)) (Fin 20)
                       (Fin 0) (Fin 30) (Fin 100) PosInf)
              [(Cases.large, 0%Z); (Cases.large, 30000000000%Z);
               (- Cases.large, 60000000000%Z)]) = NaN).
Proof.
  split; [|split].
  - vm_compute. repeat split; reflexivity.
  - vm_compute. repeat split; reflexivity.
  - split.
    + repeat (apply List.Forall_cons; [vm_compute; exact I|]). apply List.Forall_nil.
    + vm_compute. repeat split; reflexivity.
Qed.
(** ** The emergency predicate *)

(** C3.  [checkEmergencyConditions] answers [cpu_temp] when the CPU reading
    exceeds [MaxCPU], whatever the disks read; otherwise [hdd_temp] when the
    warmest disk exceeds [MaxHDD]; otherwise the empty string.  With
    [MaxCPU=75] and [MaxHDD=45] the four sample points give [cpu_temp],
    [hdd_temp], the empty string and [cpu_temp]. *)
Theorem checkEmergencyConditions_cpu_first :
  (forall cpuTemp maxDiskTemp config,
     let reason := Loop.checkEmergencyConditions cpuTemp maxDiskTemp config in
     let cpuOver := cpuTemp >? Cfg.MaxCPU (Cfg.Temperature config) in
     let hddOver := of_int maxDiskTemp >? Cfg.MaxHDD (Cfg.Temperature config) in
     (cpuOver = true -> reason = "cpu_temp"%string)
     /\ (cpuOver = false -> hddOver = true -> reason = "hdd_temp"%string)
     /\ (cpuOver = false -> hddOver = false -> reason = ""%string))
  /\ (forall server target poll warmest fans pidc disks,
        let config :=
          {| Cfg.Server := server;
             Cfg.Temperature :=
               {| Cfg.TargetHDD := target; Cfg.MaxHDD := Fin 45;
                  Cfg.MaxCPU := Fin 75; Cfg.PollInterval := poll;
                  Cfg.WarmestDisks := warmest |};
             Cfg.Fans := fans; Cfg.PID := pidc; Cfg.Disks := disks |} in
        Loop.checkEmergencyConditions (Fin 80) 40 config = "cpu_temp"%string
        /\ Loop.checkEmergencyConditions (Fin 60) 50 config = "hdd_temp"%string
        /\ Loop.checkEmergencyConditions (Fin 60) 40 config = ""%string
        /\ Loop.checkEmergencyConditions (Fin 80) 50 config = "cpu_temp"%string).
Proof.
  split.
  - intros cpuTemp maxDiskTemp config reason cpuOver hddOver.
    subst reason cpuOver hddOver. unfold Loop.checkEmergencyConditions.
    repeat split; intros; repeat match goal with H : _ = _ |- _ => rewrite H end;
      reflexivity.
  - intros. repeat split; reflexivity.
Qed.

Lemma checkEmergencyConditions_cpu_first_witness :
  ((Fin 80 >? Fin 75) = true
   /\ Loop.checkEmergencyConditions (Fin 80) 50 Samples.config
      = "cpu_temp"%string)
  /\ ((Fin 60 >? Fin 75) = false /\ (of_int 50 >? Fin 45) = true
      /\ Loop.checkEmergencyConditions (Fin 60) 50 Samples.config
         = "hdd_temp"%string)
  /\ ((Fin 60 >? Fin 75) = false /\ (of_int 40 >? Fin 45) = false
      /\ Loop.checkEmergencyConditions (Fin 60) 40 Samples.config
         = ""%string).
Proof.
  pose proof (proj1 checkEmergencyConditions_cpu_first) as H.
  split; [|split].
  - split; [reflexivity|].
    exact (proj1 (H (Fin 80) 50%Z Samples.config) eq_refl).
  - split; [reflexivity|]. split; [reflexivity|].
    exact (proj1 (proj2 (H (Fin 60) 50%Z Samples.config)) eq_refl eq_refl).
  - split; [reflexivity|]. split; [reflexivity|].
    exact (proj2 (proj2 (H (Fin 60) 40%Z Samples.config)) eq_refl eq_refl).
Defined.

(** ** The fan actuator *)

Lemma invocations_cons e tr :
  Sys.invocations (e :: tr)
  = Sys.invocations tr
    ++ match e with Sys.EvExec _ args => [args] | _ => [] end.
Proof.
  unfold Sys.invocations. simpl. rewrite rev_app_distr.
  destruct e; reflexivity.
Qed.

Lemma commanded_cons e tr :
  Sys.commanded (e :: tr)
  = Sys.commanded tr
    ++ match e with Sys.EvSetAllFans d => [d] | _ => [] end.
Proof.
  unfold Sys.commanded. simpl. rewrite rev_app_distr.
  destruct e; reflexivity.
Qed.

(** What a burst of attempts does to the world: between one and
    [remaining] runs of [ipmitool], all with the same argument vector, and
    no call of [SetAllFans]. *)
Lemma attempts_effect args remaining : forall attempt lastErr w,
  exists j,
    (j <= remaining)%nat /\ (remaining <> 0%nat -> j <> 0%nat)
    /\ Sys.invocations (Sys.trace (snd (IPMI.attempts args remaining attempt lastErr w)))
       = Sys.invocations (Sys.trace w) ++ repeat args j
    /\ Sys.commanded (Sys.trace (snd (IPMI.attempts args remaining attempt lastErr w)))
       = Sys.commanded (Sys.trace w)
    /\ Sys.nexec (snd (IPMI.attempts args remaining attempt lastErr w))
       = (Sys.nexec w + j)%nat
    /\ Sys.outcomes (snd (IPMI.attempts args remaining attempt lastErr w))
       = Sys.outcomes w.
Proof.
  induction remaining as [|k IH]; intros attempt lastErr w.
  - exists 0%nat. simpl. rewrite app_nil_r.
    repeat split; try reflexivity; try lia; auto.
  - cbn [IPMI.attempts]. unfold Sys.bind, Sys.exec.
    destruct (Sys.outcomes w (Sys.nexec w)) eqn:Hok.
    + exists 1%nat. cbn [snd fst Sys.trace Sys.nexec Sys.outcomes Sys.ret repeat].
      rewrite invocations_cons, commanded_cons, app_nil_r.
      repeat split; try reflexivity; lia.
    + destruct (attempt <? 3)%Z;
        unfold Sys.sleep, Sys.emit, Sys.ret;
        cbn [snd fst Sys.trace Sys.nexec Sys.outcomes];
        match goal with
        | |- context [IPMI.attempts args k ?a ?e ?w1] =>
            destruct (IH a e w1) as (j & Hj & _ & Hi & Hc & Hn & Ho)
        end;
        exists (S j); rewrite Hi, Hc, Hn, Ho;
        cbn [Sys.trace Sys.nexec Sys.outcomes];
        rewrite ?invocations_cons, ?commanded_cons, ?app_nil_r;
        cbn [repeat]; rewrite <- ?app_assoc;
        repeat split; try reflexivity; lia.
Qed.

Lemma sprintf_0x02x_byte d :
  (0 <= d < 256)%Z ->
  IPMI.sprintf_0x02x d
  = String "0" (String "x"
      (String (IPMI.hexDigit (d / 16)) (String (IPMI.hexDigit (d mod 16)) ""))).
Proof.
  intros Hd. unfold IPMI.sprintf_0x02x.
  destruct (d <? 0)%Z eqn:Hneg; [apply Z.ltb_lt in Hneg; lia|].
  cbn [IPMI.hexDigits].
  destruct (d <? 16)%Z eqn:Hlt.
  - apply Z.ltb_lt in Hlt.
    rewrite Z.div_small, Z.mod_small by lia. reflexivity.
  - apply Z.ltb_ge in Hlt.
    assert (Hq : (d / 16 <? 16)%Z = true).
    { apply Z.ltb_lt, Z.div_lt_upper_bound; lia. }
    rewrite Hq. reflexivity.
Qed.

(** The argument vector of every duty from 0 to 100, against the bytes of
    the design document. *)
Lemma encode_dutyBytes d :
  (0 <= d <= 100)%Z ->
  exists byte,
    nth_error Design.dutyBytes (Z.to_nat d) = Some byte
    /\ IPMI.encode d
       = ["raw"; "0x3a"; "0xd6"]%string ++ repeat byte 6 ++ repeat "0x64"%string 10.
Proof.
  intros Hd.
  assert (Hall :
            forallb (fun k =>
              match nth_error Design.dutyBytes k with
              | Some byte =>
                  if List.list_eq_dec string_dec (IPMI.encode (Z.of_nat k))
                       (["raw"; "0x3a"; "0xd6"]%string ++ repeat byte 6
                        ++ repeat "0x64"%string 10)
                  then true else false
              | None => false
              end) (seq 0 101) = true)
    by (vm_compute; reflexivity).
  rewrite forallb_forall in Hall.
  specialize (Hall (Z.to_nat d)). rewrite in_seq in Hall.
  specialize (Hall ltac:(lia)). rewrite Z2Nat.id in Hall by lia.
  destruct (nth_error Design.dutyBytes (Z.to_nat d)) as [byte|]; [|discriminate].
  exists byte. split; [reflexivity|].
  destruct (List.list_eq_dec string_dec _ _) as [E|E]; [exact E|discriminate].
Qed.

(** C6.  For a duty in [0,100] [SetAllFans] runs [ipmitool] with
    [raw 0x3a 0xd6], six copies of the duty as [0x] and two lowercase
    hexadecimal digits, and ten bytes [0x64], between one and three times:
    the byte is the one the design document writes for the duty, for each
    of the 101 duties, and for 50 the argument vector is the one of the
    document.  For a duty outside [0,100] it returns the invalid-duty error
    and runs nothing. *)
Theorem SetAllFans_encoding :
  (forall d, (0 <= d <= 100)%Z ->
     IPMI.encode d
     = ["raw"; "0x3a"; "0xd6"]%string
       ++ repeat (String "0" (String "x"
                    (String (IPMI.hexDigit (d / 16))
                       (String (IPMI.hexDigit (d mod 16)) "")))) 6
       ++ repeat "0x64"%string 10
     /\ (exists byte,
           nth_error Design.dutyBytes (Z.to_nat d) = Some byte
           /\ IPMI.encode d
              = ["raw"; "0x3a"; "0xd6"]%string
                ++ repeat byte 6 ++ repeat "0x64"%string 10)
     /\ forall w, exists j,
          (1 <= j <= 3)%nat
          /\ Sys.invocations (Sys.trace (snd (IPMI.SetAllFans d w)))
             = Sys.invocations (Sys.trace w) ++ repeat (IPMI.encode d) j)
  /\ IPMI.encode 50
     = ["raw"; "0x3a"; "0xd6"; "0x32"; "0x32"; "0x32"; "0x32"; "0x32"; "0x32";
        "0x64"; "0x64"; "0x64"; "0x64"; "0x64"; "0x64"; "0x64"; "0x64";
        "0x64"; "0x64"]%string
  /\ (length Design.dutyBytes = 101%nat
      /\ nth_error Design.dutyBytes 0 = Some "0x00"%string
      /\ nth_error Design.dutyBytes 10 = Some "0x0a"%string
      /\ nth_error Design.dutyBytes 50 = Some "0x32"%string
      /\ nth_error Design.dutyBytes 100 = Some "0x64"%string)
  /\ (forall d w, (d < 0 \/ 100 < d)%Z ->
        fst (IPMI.SetAllFans d w) = Some (IPMI.InvalidDuty d)
        /\ Sys.invocations (Sys.trace (snd (IPMI.SetAllFans d w)))
           = Sys.invocations (Sys.trace w)
        /\ Sys.nexec (snd (IPMI.SetAllFans d w)) = Sys.nexec w).
Proof.
  split; [|split; [|split]].
  - intros d Hd. split; [|split].
    + unfold IPMI.encode. rewrite sprintf_0x02x_byte by lia.
      rewrite <- app_assoc. reflexivity.
    + apply encode_dutyBytes, Hd.
    + intros w. unfold IPMI.SetAllFans, Sys.bind, Sys.emit.
      assert (Hin : ((d <? 0)%Z || (d >? 100)%Z) = false).
      { apply orb_false_iff. split; [apply Z.ltb_ge|rewrite Z.gtb_ltb; apply Z.ltb_ge]; lia. }
      rewrite Hin.
      match goal with
      | |- context [IPMI.attempts ?a ?k ?n ?e ?w0] =>
          destruct (attempts_effect a k n e w0) as (j & Hj & Hj0 & Hi & _)
      end.
      exists j. rewrite Hi. cbn [Sys.trace].
      rewrite invocations_cons, app_nil_r.
      split; [|reflexivity].
      assert (j <> 0%nat) by (apply Hj0; discriminate). lia.
  - reflexivity.
  - repeat split; reflexivity.
  - intros d w Hd. unfold IPMI.SetAllFans, Sys.bind, Sys.emit.
    assert (Hout : ((d <? 0)%Z || (d >? 100)%Z) = true).
    { apply orb_true_iff. rewrite Z.gtb_ltb, !Z.ltb_lt. lia. }
    rewrite Hout. cbn [fst snd Sys.ret Sys.trace Sys.nexec].
    rewrite invocations_cons, app_nil_r. auto.
Qed.

Lemma SetAllFans_encoding_witness :
  ((0 <= 100 <= 100)%Z
   /\ (exists byte,
         nth_error Design.dutyBytes (Z.to_nat 100) = Some byte
         /\ IPMI.encode 100
            = ["raw"; "0x3a"; "0xd6"]%string
              ++ repeat byte 6 ++ repeat "0x64"%string 10)
   /\ exists j, (1 <= j <= 3)%nat
        /\ Sys.invocations (Sys.trace (snd (IPMI.SetAllFans 100 Samples.failingWorld)))
           = Sys.invocations (Sys.trace Samples.failingWorld)
             ++ repeat (IPMI.encode 100) j)
  /\ ((101 < 0 \/ 100 < 101)%Z
      /\ fst (IPMI.SetAllFans 101 Samples.workingWorld)
         = Some (IPMI.InvalidDuty 101)).
Proof.
  split.
  - split; [lia|]. split.
    + exact (proj1 (proj2 (proj1 SetAllFans_encoding 100%Z ltac:(lia)))).
    + exact (proj2 (proj2 (proj1 SetAllFans_encoding 100%Z ltac:(lia)))
               Samples.failingWorld).
  - split; [lia|].
    exact (proj1 (proj2 (proj2 (proj2 SetAllFans_encoding)) 101%Z
                    Samples.workingWorld ltac:(lia))).
Defined.

(** ** The control loop *)

Lemma SetAllFans_effect d w :
  Sys.commanded (Sys.trace (snd (IPMI.SetAllFans d w)))
  = Sys.commanded (Sys.trace w) ++ [d]
  /\ Sys.outcomes (snd (IPMI.SetAllFans d w)) = Sys.outcomes w.
Proof.
  unfold IPMI.SetAllFans, Sys.bind, Sys.emit.
  destruct ((d <? 0)%Z || (d >? 100)%Z).
  - cbn [snd Sys.ret Sys.trace Sys.outcomes]. rewrite commanded_cons. auto.
  - match goal with
    | |- context [IPMI.attempts ?a ?k ?n ?e ?w0] =>
        destruct (attempts_effect a k n e w0) as (j & _ & _ & _ & Hc & _ & Ho)
    end.
    rewrite Hc, Ho. cbn [Sys.trace Sys.outcomes]. rewrite commanded_cons. auto.
Qed.

(** The trace only grows, and what [SetAllFans] appends holds no metrics. *)
Lemma attempts_lastMetrics args remaining : forall attempt lastErr w,
  Obs.lastMetrics (Sys.trace (snd (IPMI.attempts args remaining attempt lastErr w)))
  = Obs.lastMetrics (Sys.trace w).
Proof.
  induction remaining as [|k IH]; intros attempt lastErr w; [reflexivity|].
  cbn [IPMI.attempts]. unfold Sys.bind, Sys.exec.
  destruct (Sys.outcomes w (Sys.nexec w)); [reflexivity|].
  destruct (attempt <? 3)%Z; unfold Sys.sleep, Sys.emit, Sys.ret;
    rewrite IH; reflexivity.
Qed.

Lemma SetAllFans_lastMetrics d w :
  Obs.lastMetrics (Sys.trace (snd (IPMI.SetAllFans d w)))
  = Obs.lastMetrics (Sys.trace w).
Proof.
  unfold IPMI.SetAllFans, Sys.bind, Sys.emit.
  destruct ((d <? 0)%Z || (d >? 100)%Z); [reflexivity|].
  rewrite attempts_lastMetrics. reflexivity.
Qed.

(** The three cases of the actuation block when it is not a dry run. *)
Lemma actuate_success reason fanDuty failures w :
  fst (IPMI.SetAllFans fanDuty w) = None ->
  Loop.actuate false reason fanDuty failures w
  = ((reason, fanDuty, 0%Z), snd (IPMI.SetAllFans fanDuty w)).
Proof.
  intros H. unfold Loop.actuate, Sys.bind. cbn [negb].
  destruct (IPMI.SetAllFans fanDuty w) as [err w1]. cbn [fst] in H. subst err.
  reflexivity.
Qed.

Lemma actuate_failure_below reason fanDuty failures w :
  fst (IPMI.SetAllFans fanDuty w) <> None ->
  (GoInt.add failures 1 <? Loop.maxIPMIFailures)%Z = true ->
  exists w',
    Loop.actuate false reason fanDuty failures w
    = ((reason, fanDuty, GoInt.add failures 1), w')
    /\ Sys.commanded (Sys.trace w') = Sys.commanded (Sys.trace w) ++ [fanDuty]
    /\ Obs.lastMetrics (Sys.trace w') = Obs.lastMetrics (Sys.trace w).
Proof.
  intros H Hlt. unfold Loop.actuate, Sys.bind. cbn [negb].
  pose proof (SetAllFans_effect fanDuty w) as [Hc _].
  pose proof (SetAllFans_lastMetrics fanDuty w) as Hm.
  destruct (IPMI.SetAllFans fanDuty w) as [[err|] w1]; [|contradiction].
  cbn [snd] in Hc, Hm.
  unfold Sys.RecordError, Sys.emit.
  rewrite Z.geb_leb. apply Z.ltb_lt in Hlt.
  destruct (Z.leb_spec Loop.maxIPMIFailures (GoInt.add failures 1)); [lia|].
  eexists. split; [reflexivity|].
  cbn [Sys.trace]. rewrite commanded_cons, app_nil_r. cbn [Obs.lastMetrics]. auto.
Qed.

Lemma actuate_failure_threshold reason fanDuty failures w :
  fst (IPMI.SetAllFans fanDuty w) <> None ->
  (GoInt.add failures 1 >=? Loop.maxIPMIFailures)%Z = true ->
  exists w',
    Loop.actuate false reason fanDuty failures w
    = (("ipmi_failure"%string, 100%Z, GoInt.add failures 1), w')
    /\ Sys.commanded (Sys.trace w')
       = Sys.commanded (Sys.trace w) ++ [fanDuty; 100%Z]
    /\ Obs.lastMetrics (Sys.trace w') = Obs.lastMetrics (Sys.trace w).
Proof.
  intros H Hge. unfold Loop.actuate, Sys.bind. cbn [negb].
  pose proof (SetAllFans_effect fanDuty w) as [Hc _].
  pose proof (SetAllFans_lastMetrics fanDuty w) as Hm.
  destruct (IPMI.SetAllFans fanDuty w) as [[err|] w1]; [|contradiction].
  cbn [snd] in Hc, Hm.
  unfold Sys.RecordError, Sys.emit. rewrite Hge.
  match goal with
  | |- context [IPMI.SetAllFans 100 ?w0] =>
      pose proof (SetAllFans_effect 100 w0) as [Hc2 _];
      pose proof (SetAllFans_lastMetrics 100 w0) as Hm2;
      destruct (IPMI.SetAllFans 100 w0) as [err2 w2]
  end.
  cbn [snd Sys.trace] in Hc2, Hm2.
  eexists. split; [reflexivity|].
  rewrite Hc2, Hm2, commanded_cons, app_nil_r, Hc, <- app_assoc.
  cbn [Obs.lastMetrics]. auto.
Qed.

(** A burst of attempts looks at the outcomes of its own runs only. *)
Lemma attempts_agree args remaining : forall attempt lastErr w1 w2,
  Obs.agree_for remaining w1 w2 ->
  fst (IPMI.attempts args remaining attempt lastErr w1)
  = fst (IPMI.attempts args remaining attempt lastErr w2)
  /\ Obs.agree_for 0 (snd (IPMI.attempts args remaining attempt lastErr w1))
                     (snd (IPMI.attempts args remaining attempt lastErr w2)).
Proof.
  induction remaining as [|k IH]; intros attempt lastErr w1 w2 (Ht & Hn & Ho).
  - split; [reflexivity|]. repeat split; auto.
  - cbn [IPMI.attempts]. unfold Sys.bind, Sys.exec.
    rewrite <- Hn, <- Ht. rewrite <- (Ho (Sys.nexec w1)) by lia.
    destruct (Sys.outcomes w1 (Sys.nexec w1)).
    + split; [reflexivity|]. repeat split; cbn; auto. intros i Hi.
      apply Ho. lia.
    + destruct (attempt <? 3)%Z; unfold Sys.sleep, Sys.emit, Sys.ret;
        cbn [Sys.trace Sys.nexec Sys.outcomes];
        apply IH; repeat split; cbn; auto; intros i Hi; apply Ho; lia.
Qed.

Lemma SetAllFans_agree d w1 w2 :
  Obs.agree_for 3 w1 w2 ->
  fst (IPMI.SetAllFans d w1) = fst (IPMI.SetAllFans d w2)
  /\ Obs.agree_for 0 (snd (IPMI.SetAllFans d w1)) (snd (IPMI.SetAllFans d w2)).
Proof.
  intros (Ht & Hn & Ho). unfold IPMI.SetAllFans, Sys.bind, Sys.emit.
  destruct ((d <? 0)%Z || (d >? 100)%Z).
  - split; [reflexivity|]. repeat split; cbn; auto; [congruence|].
    intros i Hi. apply Ho. lia.
  - apply attempts_agree. repeat split; cbn; auto. congruence.
Qed.

(** The actuation block returns the same values, and leaves the same
    latest metrics, in two worlds that differ only after the three runs of
    its first [SetAllFans] call. *)
Lemma actuate_agree reason fanDuty failures w1 w2 :
  Obs.agree_for 3 w1 w2 ->
  fst (Loop.actuate false reason fanDuty failures w1)
  = fst (Loop.actuate false reason fanDuty failures w2)
  /\ Obs.lastMetrics (Sys.trace (snd (Loop.actuate false reason fanDuty failures w1)))
     = Obs.lastMetrics (Sys.trace (snd (Loop.actuate false reason fanDuty failures w2))).
Proof.
  intros Hag. unfold Loop.actuate, Sys.bind. cbn [negb].
  destruct (SetAllFans_agree fanDuty w1 w2 Hag) as (Hr & Ht & _).
  pose proof (SetAllFans_lastMetrics fanDuty w1) as Hm1.
  pose proof (SetAllFans_lastMetrics fanDuty w2) as Hm2.
  destruct (IPMI.SetAllFans fanDuty w1) as [err1 v1].
  destruct (IPMI.SetAllFans fanDuty w2) as [err2 v2].
  cbn [fst snd] in *. subst err2.
  destruct err1 as [e|].
  - unfold Sys.RecordError, Sys.emit.
    destruct (GoInt.add failures 1 >=? Loop.maxIPMIFailures)%Z.
    + repeat match goal with
             | |- context [IPMI.SetAllFans 100 ?w0] =>
                 let H := fresh "Hm" in
                 pose proof (SetAllFans_lastMetrics 100 w0) as H;
                 destruct (IPMI.SetAllFans 100 w0)
             end.
      cbn [fst snd Sys.trace Obs.lastMetrics Sys.ret] in *.
      split; [reflexivity|]. congruence.
    + cbn [fst snd Sys.trace Obs.lastMetrics Sys.ret].
      split; [reflexivity|]. congruence.
  - cbn [fst snd Sys.ret]. split; [reflexivity|]. congruence.
Qed.

(** One iteration with a successful temperature reading, spelled out in
    terms of the actuation block. *)
Lemma tick_reading config dryRun inp st w diskTemps cpuTemp :
  Loop.reading inp = Some (diskTemps, cpuTemp) ->
  let avgTemp :=
    Sensors.GetAverageOfWarmest diskTemps (Loop.order_avg inp)
      (Cfg.WarmestDisks (Cfg.Temperature config)) in
  let maxTemp := Sensors.GetMaxTemperature diskTemps (Loop.order_max inp) in
  let reason := Loop.checkEmergencyConditions cpuTemp maxTemp config in
  let selected :=
    Loop.selectDuty config (Loop.pid st) reason avgTemp (Loop.now inp) in
  let acted :=
    Loop.actuate dryRun reason (fst (fst selected))
      (Loop.consecutiveIPMIFailures st) w in
  fst (Loop.tick config dryRun inp st w)
  = {| Loop.pid := snd selected;
       Loop.consecutiveIPMIFailures := snd (fst acted) |}
  /\ Obs.lastMetrics (Sys.trace (snd (Loop.tick config dryRun inp st w)))
     = Some (snd (fst (fst acted)), snd (fst selected), fst (fst (fst acted)))
  /\ Sys.commanded (Sys.trace (snd (Loop.tick config dryRun inp st w)))
     = Sys.commanded (Sys.trace (snd acted)).
Proof.
  intros Hr avgTemp maxTemp reason selected acted.
  unfold Loop.tick. rewrite Hr.
  fold avgTemp maxTemp reason selected.
  destruct selected as [[fanDuty pidTerms] pid'] eqn:Hsel.
  unfold Sys.bind. cbn [fst snd] in acted. fold acted.
  destruct acted as [[[reason' fanDuty'] failures'] w1].
  unfold Sys.sleep, Sys.emit, Sys.ret. cbn [fst snd Sys.trace Obs.lastMetrics].
  rewrite !commanded_cons, !app_nil_r. auto.
Qed.

(** C4.  In an iteration that is not a dry run and whose temperature
    reading succeeds: when the [SetAllFans] call succeeds the failure
    counter becomes zero; when it fails the counter grows by exactly one,
    and if it thereby is at least the threshold 5, the published reason is
    [ipmi_failure], the published duty is 100 and exactly one more
    [SetAllFans(100)] is issued, whose outcome changes neither the state
    nor the published values. *)
Theorem ipmi_failure_accounting :
  forall config inp st w diskTemps cpuTemp,
    Loop.reading inp = Some (diskTemps, cpuTemp) ->
    (0 <= Loop.consecutiveIPMIFailures st < GoInt.max_int)%Z ->
    let avgTemp :=
      Sensors.GetAverageOfWarmest diskTemps (Loop.order_avg inp)
        (Cfg.WarmestDisks (Cfg.Temperature config)) in
    let maxTemp := Sensors.GetMaxTemperature diskTemps (Loop.order_max inp) in
    let reason := Loop.checkEmergencyConditions cpuTemp maxTemp config in
    let selected :=
      Loop.selectDuty config (Loop.pid st) reason avgTemp (Loop.now inp) in
    let fanDuty := fst (fst selected) in
    let pidTerms := snd (fst selected) in
    let st' := fst (Loop.tick config false inp st w) in
    let w' := snd (Loop.tick config false inp st w) in
    Loop.maxIPMIFailures = 5%Z
    /\ (fst (IPMI.SetAllFans fanDuty w) = None ->
        Loop.consecutiveIPMIFailures st' = 0%Z
        /\ Sys.commanded (Sys.trace w') = Sys.commanded (Sys.trace w) ++ [fanDuty]
        /\ Obs.lastMetrics (Sys.trace w') = Some (fanDuty, pidTerms, reason))
    /\ (fst (IPMI.SetAllFans fanDuty w) <> None ->
        Loop.consecutiveIPMIFailures st'
        = (Loop.consecutiveIPMIFailures st + 1)%Z
        /\ ((Loop.consecutiveIPMIFailures st' < 5)%Z ->
            Sys.commanded (Sys.trace w')
            = Sys.commanded (Sys.trace w) ++ [fanDuty]
            /\ Obs.lastMetrics (Sys.trace w') = Some (fanDuty, pidTerms, reason))
        /\ ((5 <= Loop.consecutiveIPMIFailures st')%Z ->
            Sys.commanded (Sys.trace w')
            = Sys.commanded (Sys.trace w) ++ [fanDuty; 100%Z]
            /\ Obs.lastMetrics (Sys.trace w')
               = Some (100%Z, pidTerms, "ipmi_failure"%string)
            /\ forall w2,
                 Obs.agree_for 3 w w2 ->
                 fst (Loop.tick config false inp st w2) = st'
                 /\ Obs.lastMetrics
                      (Sys.trace (snd (Loop.tick config false inp st w2)))
                    = Obs.lastMetrics (Sys.trace w'))).
Proof.
  intros config inp st w diskTemps cpuTemp Hr Hc
         avgTemp maxTemp reason selected fanDuty pidTerms st' w'.
  assert (Hadd : GoInt.add (Loop.consecutiveIPMIFailures st) 1
                 = (Loop.consecutiveIPMIFailures st + 1)%Z).
  { apply wrap64_id. unfold GoInt.in_range, GoInt.min_int, GoInt.max_int in *. lia. }
  destruct (tick_reading config false inp st w diskTemps cpuTemp Hr)
    as (Hst & Hm & Hcmd).
  fold avgTemp maxTemp reason selected fanDuty in Hst, Hm, Hcmd.
  fold st' in Hst. fold w' in Hm, Hcmd. fold pidTerms in Hm.
  split; [reflexivity|]. split.
  - intros Hok.
    rewrite (actuate_success _ _ _ _ Hok) in Hst, Hm, Hcmd.
    cbn [fst snd] in Hst, Hm, Hcmd.
    rewrite Hst, Hm, Hcmd. cbn [Loop.consecutiveIPMIFailures].
    split; [reflexivity|]. split; [|reflexivity].
    apply SetAllFans_effect.
  - intros Hfail. split; [|split].
    + rewrite Hst. cbn [Loop.consecutiveIPMIFailures].
      unfold Loop.actuate, Sys.bind. cbn [negb].
      destruct (IPMI.SetAllFans fanDuty w) as [[err|] w1]; [|contradiction].
      unfold Sys.RecordError, Sys.emit.
      destruct (GoInt.add _ 1 >=? Loop.maxIPMIFailures)%Z;
        [destruct (IPMI.SetAllFans 100 _)|]; exact Hadd.
    + intros Hlt.
      destruct (actuate_failure_below reason fanDuty
                  (Loop.consecutiveIPMIFailures st) w Hfail)
        as (w1 & Hact & Hc1 & Hm1).
      { rewrite Hst in Hlt. cbn [Loop.consecutiveIPMIFailures] in Hlt.
        apply Z.ltb_lt. unfold Loop.maxIPMIFailures.
        unfold Loop.actuate, Sys.bind in Hlt. cbn [negb] in Hlt.
        destruct (IPMI.SetAllFans fanDuty w) as [[err|] w0]; [|contradiction].
        unfold Sys.RecordError, Sys.emit in Hlt.
        destruct (GoInt.add _ 1 >=? Loop.maxIPMIFailures)%Z;
          [destruct (IPMI.SetAllFans 100 _)|]; exact Hlt. }
      rewrite Hact in Hm, Hcmd. cbn [fst snd] in Hm, Hcmd.
      rewrite Hm, Hcmd. auto.
    + intros Hge.
      destruct (actuate_failure_threshold reason fanDuty
                  (Loop.consecutiveIPMIFailures st) w Hfail)
        as (w1 & Hact & Hc1 & Hm1).
      { rewrite Hst in Hge. cbn [Loop.consecutiveIPMIFailures] in Hge.
        rewrite Z.geb_leb. apply Z.leb_le. unfold Loop.maxIPMIFailures.
        unfold Loop.actuate, Sys.bind in Hge. cbn [negb] in Hge.
        destruct (IPMI.SetAllFans fanDuty w) as [[err|] w0]; [|contradiction].
        unfold Sys.RecordError, Sys.emit in Hge.
        destruct (GoInt.add _ 1 >=? Loop.maxIPMIFailures)%Z;
          [destruct (IPMI.SetAllFans 100 _)|]; exact Hge. }
      pose proof Hm as Hm'. pose proof Hst as Hst'.
      rewrite Hact in Hm, Hcmd. cbn [fst snd] in Hm, Hcmd.
      rewrite Hm, Hcmd. split; [assumption|]. split; [reflexivity|].
      intros w2 Hag.
      destruct (tick_reading config false inp st w2 diskTemps cpuTemp Hr)
        as (Hst2 & Hm2 & _).
      fold avgTemp maxTemp reason selected fanDuty in Hst2, Hm2.
      destruct (actuate_agree reason fanDuty
                  (Loop.consecutiveIPMIFailures st) w w2 Hag) as (Hf & _).
      rewrite Hst2, Hm2, <- Hf, <- Hm, Hm', Hst'. auto.
Qed.

Lemma ipmi_failure_accounting_witness :
  Loop.reading Samples.normalInput = Some (Samples.sixDisks, Fin 60)
  /\ (0 <= Loop.consecutiveIPMIFailures Samples.fourFailures < GoInt.max_int)%Z
  /\ Loop.consecutiveIPMIFailures
       (fst (Loop.tick Samples.config false Samples.normalInput
               Samples.fourFailures Samples.failingWorld)) = 5%Z
  /\ Loop.consecutiveIPMIFailures
       (fst (Loop.tick Samples.config false Samples.normalInput
               Samples.fourFailures Samples.workingWorld)) = 0%Z.
Proof.
  assert (Hc : (0 <= Loop.consecutiveIPMIFailures Samples.fourFailures
                < GoInt.max_int)%Z) by (vm_compute; split; congruence).
  split; [reflexivity|]. split; [exact Hc|]. split.
  - pose proof (ipmi_failure_accounting Samples.config Samples.normalInput
                  Samples.fourFailures Samples.failingWorld Samples.sixDisks
                  (Fin 60) eq_refl Hc) as (_ & _ & Hfail).
    refine (proj1 (Hfail _)). vm_compute. discriminate.
  - pose proof (ipmi_failure_accounting Samples.config Samples.normalInput
                  Samples.fourFailures Samples.workingWorld Samples.sixDisks
                  (Fin 60) eq_refl Hc) as (_ & Hok & _).
    refine (proj1 (Hok _)). vm_compute. reflexivity.
Defined.

(** C5.  In an iteration whose emergency predicate answers a reason, the
    duty handed to [SetAllFans] is 100: in dry-run mode nothing is
    commanded, otherwise exactly one [SetAllFans(100)] is issued, followed
    by a second one when the first fails and brings the failure counter to
    the threshold.  The published duty is 100, the published PID terms are
    all zero, and the PID controller is the one the iteration started with,
    field by field: [Calculate] is not called and nothing is reset, so a
    later normal iteration computes from the preserved state. *)
Theorem emergency_tick_preserves_pid :
  forall config dryRun inp st w diskTemps cpuTemp,
    Loop.reading inp = Some (diskTemps, cpuTemp) ->
    Loop.checkEmergencyConditions cpuTemp
      (Sensors.GetMaxTemperature diskTemps (Loop.order_max inp)) config
    <> ""%string ->
    let st' := fst (Loop.tick config dryRun inp st w) in
    let w' := snd (Loop.tick config dryRun inp st w) in
    Loop.pid st' = Loop.pid st
    /\ (exists reason,
          Obs.lastMetrics (Sys.trace w') = Some (100%Z, PID.zeroTerms, reason)
          /\ PID.zeroTerms = PID.mkTerms (Fin 0) (Fin 0) (Fin 0) (Fin 0))
    /\ Sys.commanded (Sys.trace w')
       = Sys.commanded (Sys.trace w)
         ++ (if dryRun then []
             else
               match fst (IPMI.SetAllFans 100 w) with
               | None => [100%Z]
               | Some _ =>
                   if (GoInt.add (Loop.consecutiveIPMIFailures st) 1
                       >=? Loop.maxIPMIFailures)%Z
                   then [100%Z; 100%Z] else [100%Z]
               end)
    /\ (forall current t,
          PID.Calculate (Loop.pid st') current t
          = PID.Calculate (Loop.pid st) current t).
Proof.
  intros config dryRun inp st w diskTemps cpuTemp Hr Hem st' w'.
  destruct (tick_reading config dryRun inp st w diskTemps cpuTemp Hr)
    as (Hst & Hm & Hcmd).
  fold st' in Hst. fold w' in Hm, Hcmd.
  set (reason := Loop.checkEmergencyConditions _ _ _) in *.
  apply String.eqb_neq in Hem.
  unfold Loop.selectDuty in Hst, Hm, Hcmd. rewrite Hem in Hst, Hm, Hcmd.
  cbn [negb fst snd] in Hst, Hm, Hcmd.
  assert (Hpid : Loop.pid st' = Loop.pid st) by (rewrite Hst; reflexivity).
  split; [exact Hpid|]. split; [|split].
  - rewrite Hm. unfold Loop.actuate, Sys.bind.
    destruct dryRun; cbn [negb].
    + eexists. split; reflexivity.
    + destruct (IPMI.SetAllFans 100 w) as [[err|] w1].
      * unfold Sys.RecordError, Sys.emit.
        destruct (GoInt.add _ 1 >=? Loop.maxIPMIFailures)%Z;
          [destruct (IPMI.SetAllFans 100 _)|];
          eexists; split; reflexivity.
      * eexists. split; reflexivity.
  - rewrite Hcmd. unfold Loop.actuate, Sys.bind.
    destruct dryRun; cbn [negb].
    + rewrite app_nil_r. reflexivity.
    + pose proof (SetAllFans_effect 100 w) as [Hc1 _].
      destruct (IPMI.SetAllFans 100 w) as [[err|] w1]; cbn [fst snd] in Hc1 |- *.
      * unfold Sys.RecordError, Sys.emit.
        destruct (GoInt.add _ 1 >=? Loop.maxIPMIFailures)%Z.
        -- match goal with
           | |- context [IPMI.SetAllFans 100 ?w0] =>
               pose proof (SetAllFans_effect 100 w0) as [Hc2 _];
               destruct (IPMI.SetAllFans 100 w0) as [err2 w2]
           end.
           cbn [snd Sys.trace Sys.ret] in Hc2 |- *.
           rewrite Hc2, commanded_cons, app_nil_r, Hc1, <- app_assoc.
           reflexivity.
        -- cbn [snd Sys.trace Sys.ret].
           rewrite commanded_cons, app_nil_r, Hc1. reflexivity.
      * cbn [snd Sys.ret]. rewrite Hc1. reflexivity.
  - intros current t. rewrite Hpid. reflexivity.
Qed.

Lemma emergency_tick_preserves_pid_witness :
  Loop.reading Samples.cpuHotInput = Some (Samples.sixDisks, Fin 80)
  /\ Loop.checkEmergencyConditions (Fin 80)
       (Sensors.GetMaxTemperature Samples.sixDisks
          (Loop.order_max Samples.cpuHotInput)) Samples.config
     <> ""%string
  /\ Loop.pid (fst (Loop.tick Samples.config false Samples.cpuHotInput
                      Samples.usedState Samples.workingWorld))
     = Loop.pid Samples.usedState
  /\ PID.Reset (Loop.pid Samples.usedState) <> Loop.pid Samples.usedState
  /\ snd (PID.Calculate (Loop.pid Samples.usedState) (Fin 41) 2000000000)
     <> Loop.pid Samples.usedState
  /\ Sys.commanded
       (Sys.trace (snd (Loop.tick Samples.config false Samples.cpuHotInput
                          Samples.usedState Samples.workingWorld)))
     = [100%Z].
Proof.
  assert (Hem : Loop.checkEmergencyConditions (Fin 80)
                  (Sensors.GetMaxTemperature Samples.sixDisks
                     (Loop.order_max Samples.cpuHotInput)) Samples.config
                <> ""%string) by (vm_compute; discriminate).
  pose proof (emergency_tick_preserves_pid Samples.config false
                Samples.cpuHotInput Samples.usedState Samples.workingWorld
                Samples.sixDisks (Fin 80) eq_refl Hem) as H.
  cbv zeta in H. destruct H as (Hpid & _ & Hcmd & _).
  split; [reflexivity|]. split; [exact Hem|]. split; [exact Hpid|].
  split; [vm_compute; discriminate|]. split; [vm_compute; discriminate|].
  rewrite Hcmd. vm_compute. reflexivity.
Defined.

(** ** Sensor aggregation *)

Lemma swap_adjacent_perm (s : list Z) : forall j a b,
  s !! j = Some a -> s !! S j = Some b ->
  <[j := b]> (<[S j := a]> s) ≡ₚ s.
Proof.
  induction s as [|x s IH]; intros j a b Ha Hb; [discriminate|].
  destruct j as [|j].
  - destruct s as [|y s]; [discriminate|].
    simpl in Ha, Hb. injection Ha as ->. injection Hb as ->.
    simpl. apply Permutation_swap.
  - simpl in Ha, Hb. simpl. apply Permutation_skip. eapply IH; eassumption.
Qed.

Lemma swap_if_less_perm s j : Sensors.swap_if_less s j ≡ₚ s.
Proof.
  unfold Sensors.swap_if_less.
  destruct (s !! j) as [a|] eqn:Ha; [|reflexivity].
  destruct (s !! S j) as [b|] eqn:Hb; [|reflexivity].
  destruct (a <? b)%Z; [|reflexivity].
  eapply swap_adjacent_perm; eassumption.
Qed.

Lemma inner_loop_perm count : forall s j, Sensors.inner_loop s j count ≡ₚ s.
Proof.
  induction count as [|c IH]; intros s j; simpl; [reflexivity|].
  rewrite IH. apply swap_if_less_perm.
Qed.

Lemma outer_loop_perm count : forall s i, Sensors.outer_loop s i count ≡ₚ s.
Proof.
  induction count as [|c IH]; intros s i; simpl; [reflexivity|].
  rewrite IH. apply inner_loop_perm.
Qed.

Lemma bubble_sort_desc_perm s : Sensors.bubble_sort_desc s ≡ₚ s.
Proof. apply outer_loop_perm. Qed.

Lemma swap_if_less_app pre l :
  Sensors.swap_if_less (pre ++ l) (length pre)
  = pre ++ match l with
           | x :: y :: rest => if (x <? y)%Z then y :: x :: rest else l
           | _ => l
           end.
Proof.
  unfold Sensors.swap_if_less.
  induction pre as [|p pre IH]; simpl.
  - destruct l as [|x [|y rest]]; reflexivity.
  - rewrite <- IH.
    destruct ((pre ++ l) !! length pre) as [a|]; [|reflexivity].
    destruct ((pre ++ l) !! S (length pre)) as [b|]; [|reflexivity].
    destruct (a <? b)%Z; reflexivity.
Qed.

Lemma inner_loop_app count : forall pre l,
  (count < length l)%nat ->
  Sensors.inner_loop (pre ++ l) (length pre) count = pre ++ Slice.bubble count l.
Proof.
  induction count as [|c IH]; intros pre l Hc; simpl.
  - destruct l; reflexivity.
  - rewrite swap_if_less_app.
    assert (Hstep : forall x l', (c < length l')%nat ->
              Sensors.inner_loop (pre ++ x :: l') (S (length pre)) c
              = pre ++ x :: Slice.bubble c l').
    { intros x l' Hl'. specialize (IH (pre ++ [x]) l' Hl').
      rewrite length_app, <- app_assoc in IH. simpl in IH.
      rewrite Nat.add_1_r, <- app_assoc in IH. exact IH. }
    destruct l as [|x [|y rest]]; simpl in Hc; try lia.
    destruct (x <? y)%Z; apply Hstep; simpl; lia.
Qed.

(** After a pass over a whole slice its last entry is a minimum. *)
Lemma pass_last_min n : forall l,
  length l = S n ->
  exists front m,
    Slice.bubble n l = front ++ [m]
    /\ length front = n
    /\ Forall (fun t => (m <= t)%Z) l
    /\ front ++ [m] ≡ₚ l.
Proof.
  induction n as [|n IH]; intros l Hn.
  - destruct l as [|x [|y rest]]; try discriminate.
    exists [], x. repeat split; auto. constructor; [lia|constructor].
  - destruct l as [|x [|y rest]]; try discriminate.
    simpl in Hn. injection Hn as Hn. cbn [Slice.bubble].
    destruct (Z.ltb_spec x y).
    + destruct (IH (x :: rest)) as (front & m & Hb & Hlen & Hall & Hp); [simpl; lia|].
      exists (y :: front), m. rewrite Hb. repeat split; [simpl; lia| |].
      * inversion Hall; subst. constructor; [assumption|].
        constructor; [lia|assumption].
      * simpl. rewrite Hp. apply Permutation_swap.
    + destruct (IH (y :: rest)) as (front & m & Hb & Hlen & Hall & Hp); [simpl; lia|].
      exists (x :: front), m. rewrite Hb. repeat split; [simpl; lia| |].
      * inversion Hall; subst. constructor; [lia|].
        constructor; assumption.
      * simpl. rewrite Hp. reflexivity.
Qed.

Lemma pass_app count : forall l1 l2,
  (count < length l1)%nat ->
  Slice.bubble count (l1 ++ l2) = Slice.bubble count l1 ++ l2.
Proof.
  induction count as [|c IH]; intros l1 l2 Hc.
  - destruct l1; [simpl in Hc; lia|]. destruct l1; reflexivity.
  - destruct l1 as [|x [|y rest]]; simpl in Hc; try lia.
    cbn [Slice.bubble app]. destruct (x <? y)%Z; cbn [app]; f_equal.
    + apply (IH (x :: rest) l2). simpl. lia.
    + apply (IH (y :: rest) l2). simpl. lia.
Qed.

(** The invariant of the outer loop: the last [i] entries are in descending
    order and none of them exceeds an entry before them. *)
Lemma outer_loop_sorted count : forall s i front back,
  s = front ++ back -> length back = i -> length front = S count ->
  StronglySorted Z.ge back ->
  Forall (fun f => Forall (fun b => (b <= f)%Z) back) front ->
  StronglySorted Z.ge (Sensors.outer_loop s i count).
Proof.
  induction count as [|c IH]; intros s i front back Hs Hi Hlen Hsorted Hdom.
  - simpl. destruct front as [|f [|g front]]; try discriminate. subst s. simpl.
    constructor; [exact Hsorted|].
    inversion Hdom as [|? ? Hf _]; subst.
    eapply Forall_impl; [exact Hf|]. simpl. intros b Hb. lia.
  - cbn [Sensors.outer_loop].
    assert (Hpass : (length s - i - 1 = S c)%nat).
    { subst s. rewrite length_app. lia. }
    rewrite Hpass.
    assert (Hin : Sensors.inner_loop s 0 (S c) = Slice.bubble (S c) s).
    { apply (inner_loop_app (S c) [] s). subst s. rewrite length_app. lia. }
    rewrite Hin. subst s. rewrite pass_app by lia.
    destruct (pass_last_min (S c) front Hlen)
      as (front' & m & Hb & Hlen' & Hmin & Hperm).
    rewrite Hb, <- app_assoc. cbn [app].
    apply (IH _ (S i) front' (m :: back)); auto.
    + simpl. lia.
    + assert (Hm : Forall (fun b => (b <= m)%Z) back).
      { assert (Hinm : In m front).
        { apply (Permutation_in m Hperm), in_or_app. right. left. reflexivity. }
        rewrite List.Forall_forall in Hdom. apply Hdom, Hinm. }
      constructor; [exact Hsorted|].
      eapply Forall_impl; [exact Hm|]. simpl. intros b Hb'. lia.
    + rewrite List.Forall_forall in Hdom, Hmin. apply List.Forall_forall.
      intros f Hf.
      assert (Hinf : In f front).
      { apply (Permutation_in f Hperm), in_or_app. left. exact Hf. }
      constructor; [apply Hmin, Hinf|apply Hdom, Hinf].
Qed.

(** The slice is in descending order after the sort. *)
Lemma bubble_sort_desc_sorted s : StronglySorted Z.ge (Sensors.bubble_sort_desc s).
Proof.
  unfold Sensors.bubble_sort_desc. destruct s as [|x s]; [constructor|].
  apply (outer_loop_sorted _ _ 0%nat (x :: s) []).
  - rewrite app_nil_r. reflexivity.
  - reflexivity.
  - simpl. lia.
  - constructor.
  - apply List.Forall_forall. intros f _. constructor.
Qed.

(** The entries the mean is taken over are the warmest: no entry left out
    exceeds an entry taken. *)
Lemma sorted_take_warmest (l : list Z) :
  StronglySorted Z.ge l ->
  forall k a b, In a (firstn k l) -> In b (skipn k l) -> (b <= a)%Z.
Proof.
  induction 1 as [|x l Hl IH Hx]; intros k a b Ha Hb.
  - destruct k; destruct Ha.
  - destruct k as [|k]; [destruct Ha|].
    simpl in Ha, Hb. destruct Ha as [<-|Ha].
    + rewrite List.Forall_forall in Hx.
      assert (Hin : In b l).
      { rewrite <- (firstn_skipn k l). apply in_or_app. right. exact Hb. }
      specialize (Hx b Hin). lia.
    + eapply IH; eassumption.
Qed.

Lemma GetAverageOfWarmest_takes_warmest (tempSlice : list Z) k a b :
  In a (firstn k (Sensors.bubble_sort_desc tempSlice)) ->
  In b (skipn k (Sensors.bubble_sort_desc tempSlice)) ->
  (b <= a)%Z.
Proof. apply sorted_take_warmest, bubble_sort_desc_sorted. Qed.

(** Adding up a slice of bounded entries never wraps around. *)
Lemma fold_add_no_wrap (bound : Z) (l : list Z) : forall acc,
  Forall (fun t => (Z.abs t <= bound)%Z) l ->
  (Z.abs acc + Z.of_nat (length l) * bound <= GoInt.max_int)%Z ->
  fold_left GoInt.add l acc = (acc + Slice.Zsum l)%Z.
Proof.
  induction l as [|x l IH]; intros acc Hl Hacc; simpl.
  - lia.
  - inversion Hl as [|? ? Hx Hl']; subst.
    simpl length in Hacc. rewrite Nat2Z.inj_succ in Hacc.
    assert (Hb : (0 <= bound)%Z) by lia.
    assert (Hadd : GoInt.add acc x = (acc + x)%Z).
    { apply wrap64_id.
      unfold GoInt.in_range, GoInt.min_int, GoInt.max_int in *. nia. }
    rewrite Hadd, IH; [lia|assumption|nia].
Qed.

Lemma Zsum_bounds (l : list Z) lo hi :
  Forall (fun t => (lo <= t <= hi)%Z) l ->
  (lo * Z.of_nat (length l) <= Slice.Zsum l <= hi * Z.of_nat (length l))%Z.
Proof.
  induction 1 as [|x l Hx Hl IH]; simpl; [lia|].
  rewrite Nat2Z.inj_succ. lia.
Qed.

Lemma fold_max_ge (l : list Z) : forall init,
  (init <= fold_left Sensors.max_step l init)%Z
  /\ Forall (fun t => (t <= fold_left Sensors.max_step l init)%Z) l.
Proof.
  induction l as [|x l IH]; intros init; simpl.
  - split; [lia|constructor].
  - destruct (IH (Sensors.max_step init x)) as [H1 H2].
    assert (Hstep : (init <= Sensors.max_step init x
                     /\ x <= Sensors.max_step init x)%Z).
    { unfold Sensors.max_step. destruct (Z.gtb_spec x init); lia. }
    split; [lia|constructor; [lia|assumption]].
Qed.

Lemma fold_min_le (l : list Z) : forall init,
  (fold_left Sensors.min_step l init <= init)%Z
  /\ Forall (fun t => (fold_left Sensors.min_step l init <= t)%Z) l.
Proof.
  induction l as [|x l IH]; intros init; simpl.
  - split; [lia|constructor].
  - destruct (IH (Sensors.min_step init x)) as [H1 H2].
    assert (Hstep : (Sensors.min_step init x <= init
                     /\ Sensors.min_step init x <= x)%Z).
    { unfold Sensors.min_step. destruct (Z.ltb_spec x init); lia. }
    split; [lia|constructor; [lia|assumption]].
Qed.

Lemma Zsum_abs (l : list Z) bound :
  Forall (fun t => (Z.abs t <= bound)%Z) l ->
  (Z.abs (Slice.Zsum l) <= Z.of_nat (length l) * bound)%Z.
Proof.
  intros H.
  assert (H' : Forall (fun t => (- bound <= t <= bound)%Z) l).
  { eapply Forall_impl; [exact H|]. simpl. intros t Ht. lia. }
  pose proof (Zsum_bounds l _ _ H'). lia.
Qed.

Lemma inject_Z_pos k : (0 < k)%Z -> Qeq_bool (inject_Z k) 0 = false.
Proof.
  intros Hk. destruct (Qeq_bool (inject_Z k) 0) eqn:Hz; [|reflexivity].
  apply Qeq_bool_iff in Hz. unfold Qeq in Hz. simpl in Hz. lia.
Qed.

(** The quotient of two [int]s converted to [float64] lies between two
    integer bounds when the dividend lies between their multiples and both
    conversions are exact: rounding keeps the order. *)
Lemma of_int_div_between lo hi s k :
  (0 < k <= 2 ^ 53)%Z -> (Z.abs s <= 2 ^ 53)%Z -> (lo * k <= s <= hi * k)%Z ->
  (of_int lo <=? of_int s / of_int k) = true
  /\ (of_int s / of_int k <=? of_int hi) = true.
Proof.
  intros Hk Hs [Hlo Hhi].
  rewrite (of_int_exact s Hs), (of_int_exact k) by lia.
  unfold F64.div. rewrite inject_Z_pos by lia.
  assert (Hkq : (0 < inject_Z k)%Q).
  { change 0%Q with (inject_Z 0). rewrite <- Zlt_Qlt. lia. }
  unfold of_int. split; apply round_mono.
  - apply Qle_shift_div_l; [exact Hkq|].
    rewrite <- inject_Z_mult, <- Zle_Qle. exact Hlo.
  - apply Qle_shift_div_r; [exact Hkq|].
    rewrite <- inject_Z_mult, <- Zle_Qle. exact Hhi.
Qed.

Lemma visits_length temps order :
  Sensors.visits temps order -> length order = size temps.
Proof.
  intros H. rewrite (Permutation_length H). apply length_map_to_list.
Qed.

Lemma visits_values_perm temps order1 order2 :
  Sensors.visits temps order1 -> Sensors.visits temps order2 ->
  map snd order1 ≡ₚ map snd order2.
Proof.
  intros H1 H2. apply Permutation_map. rewrite H1, H2. reflexivity.
Qed.

Lemma visits_values_Forall (P : Z -> Prop) temps order :
  Sensors.visits temps order ->
  map_Forall (fun _ t => P t) temps -> Forall P (map snd order).
Proof.
  intros Hv Hall. apply map_Forall_to_list in Hall.
  rewrite <- Hv in Hall. clear Hv.
  induction Hall as [|[k t] l Hx Hl IH]; simpl; constructor; assumption.
Qed.

Lemma len_nonempty (temps : gmap string Z) :
  temps ≠ ∅ -> (Sensors.len temps =? 0)%Z = false.
Proof.
  intros H. apply map_size_non_empty_iff in H.
  apply Z.eqb_neq. unfold Sensors.len. lia.
Qed.

(** The value [GetAverageOfWarmest] returns on a map that is not empty:
    the quotient of the wrapped sum of the first [take] entries of the
    sorted slice by [take]. *)
Lemma GetAverageOfWarmest_nonempty temps order n :
  temps ≠ ∅ ->
  Sensors.GetAverageOfWarmest temps order n
  = let tempSlice := Sensors.bubble_sort_desc (map snd order) in
    let take :=
      if (Z.of_nat (length tempSlice) <? n)%Z
      then Z.of_nat (length tempSlice) else n in
    of_int (Sensors.sum_first tempSlice take) / of_int take.
Proof.
  intros H. unfold Sensors.GetAverageOfWarmest.
  rewrite (len_nonempty temps H). reflexivity.
Qed.

(** C7.  For a map that is not empty, [n >= 1] and readings whose sums are
    exact (every reading within a bound whose product with the number of
    disks is at most [2^53], so that the sum neither wraps around as an
    [int] nor is rounded as a [float64]), whatever the orders in which the
    map is visited,
    [GetMinTemperature <= GetAverageOfWarmest <= GetMaxTemperature]; on the
    empty map the three functions return 0. *)
Theorem warmest_mean_between_min_and_max :
  (forall (temps : gmap string Z) (n : Z)
          (o_avg o_max o_min0 o_min : list (string * Z)),
     Sensors.visits temps o_avg -> Sensors.visits temps o_max ->
     Sensors.visits temps o_min0 -> Sensors.visits temps o_min ->
     temps ≠ ∅ -> (1 <= n)%Z -> Slice.fits temps ->
     (of_int (Sensors.GetMinTemperature temps o_min0 o_min)
      <=? Sensors.GetAverageOfWarmest temps o_avg n) = true
     /\ (Sensors.GetAverageOfWarmest temps o_avg n
         <=? of_int (Sensors.GetMaxTemperature temps o_max)) = true)
  /\ (forall (n : Z) (order : list (string * Z)),
        Sensors.visits ∅ order ->
        Sensors.GetAverageOfWarmest ∅ order n = Fin 0
        /\ Sensors.GetMaxTemperature ∅ order = 0%Z
        /\ Sensors.GetMinTemperature ∅ order order = 0%Z).
Proof.
  split.
  - intros temps n o_avg o_max o_min0 o_min Havg Hmax Hmin0 Hmin Hne Hn
           (bound & Hb1 & Hfit & Hsize).
    rewrite (GetAverageOfWarmest_nonempty temps o_avg n Hne). cbv zeta.
    set (sorted := Sensors.bubble_sort_desc (map snd o_avg)).
    assert (Hperm : sorted ≡ₚ map snd o_avg) by apply bubble_sort_desc_perm.
    assert (Hlen : length sorted = size temps).
    { rewrite (Permutation_length Hperm), length_map. apply visits_length, Havg. }
    assert (Hpos : size temps ≠ 0%nat) by (apply map_size_non_empty_iff, Hne).
    set (take := if (Z.of_nat (length sorted) <? n)%Z
                 then Z.of_nat (length sorted) else n).
    assert (Htake : (1 <= take <= Z.of_nat (length sorted))%Z).
    { subst take. destruct (Z.ltb_spec (Z.of_nat (length sorted)) n); lia. }
    set (taken := firstn (Z.to_nat take) sorted).
    assert (Hk : Z.of_nat (length taken) = take).
    { subst taken. rewrite length_take_le by lia. lia. }
    set (lo := Sensors.GetMinTemperature temps o_min0 o_min).
    set (hi := Sensors.GetMaxTemperature temps o_max).
    assert (Hbounds : Forall (fun t => (lo <= t <= hi)%Z) (map snd o_avg)).
    { apply Forall_and. split.
      - eapply Permutation_Forall; [apply (visits_values_perm temps o_min o_avg Hmin Havg)|].
        subst lo. unfold Sensors.GetMinTemperature.
        rewrite (len_nonempty temps Hne). apply fold_min_le.
      - eapply Permutation_Forall; [apply (visits_values_perm temps o_max o_avg Hmax Havg)|].
        subst hi. unfold Sensors.GetMaxTemperature. apply fold_max_ge. }
    assert (Hrange : Forall (fun t => (Z.abs t <= bound)%Z) (map snd o_avg)).
    { apply (visits_values_Forall _ temps o_avg Havg Hfit). }
    assert (Htaken : Forall (fun t => (Z.abs t <= bound)%Z) taken).
    { subst taken. apply Forall_take.
      eapply Permutation_Forall; [symmetry; exact Hperm|exact Hrange]. }
    assert (Hsum : Sensors.sum_first sorted take = Slice.Zsum taken).
    { unfold Sensors.sum_first. fold taken.
      rewrite (fold_add_no_wrap bound); [lia|exact Htaken|].
      rewrite Hk. unfold GoInt.max_int. simpl Z.abs. nia. }
    rewrite Hsum. apply of_int_div_between; [nia| |].
    { pose proof (Zsum_abs taken bound Htaken). nia. }
    rewrite <- Hk. apply Zsum_bounds.
    subst taken. apply Forall_take.
    eapply Permutation_Forall; [symmetry; exact Hperm|exact Hbounds].
  - intros n order Hv. unfold Sensors.visits in Hv.
    rewrite map_to_list_empty in Hv. apply Permutation_nil_r in Hv. subst order.
    repeat split; reflexivity.
Qed.

Lemma sixDisks_nonempty : Samples.sixDisks ≠ ∅.
Proof.
  intros H. pose proof (f_equal (fun m : gmap string Z => m !! "sda"%string) H) as H'.
  vm_compute in H'. discriminate.
Qed.

Lemma sixDisks_fits : Slice.fits Samples.sixDisks.
Proof.
  exists 45%Z. split; [lia|]. split.
  - apply map_Forall_to_list.
    let l := eval vm_compute in (map_to_list Samples.sixDisks) in
    change (map_to_list Samples.sixDisks) with l.
    repeat (apply List.Forall_cons; [simpl; lia|]). apply List.Forall_nil.
  - vm_compute. discriminate.
Qed.

Lemma warmest_mean_between_min_and_max_witness :
  (Sensors.visits Samples.sixDisks (map_to_list Samples.sixDisks)
   /\ Samples.sixDisks ≠ ∅ /\ (1 <= 3)%Z /\ Slice.fits Samples.sixDisks
   /\ (of_int (Sensors.GetMinTemperature Samples.sixDisks
                 (map_to_list Samples.sixDisks) (map_to_list Samples.sixDisks))
       <=? Sensors.GetAverageOfWarmest Samples.sixDisks
             (map_to_list Samples.sixDisks) 3) = true
   /\ (Sensors.GetAverageOfWarmest Samples.sixDisks
         (map_to_list Samples.sixDisks) 3
       <=? of_int (Sensors.GetMaxTemperature Samples.sixDisks
                     (map_to_list Samples.sixDisks))) = true)
  /\ (Sensors.visits ∅ []
      /\ Sensors.GetAverageOfWarmest ∅ [] 3 = Fin 0).
Proof.
  assert (Hv : Sensors.visits Samples.sixDisks (map_to_list Samples.sixDisks))
    by (unfold Sensors.visits; reflexivity).
  assert (Hn : (1 <= 3)%Z) by lia.
  assert (Hv0 : Sensors.visits ∅ [])
    by (unfold Sensors.visits; rewrite map_to_list_empty; reflexivity).
  split.
  - split; [exact Hv|]. split; [exact sixDisks_nonempty|].
    split; [exact Hn|]. split; [exact sixDisks_fits|].
    exact (proj1 warmest_mean_between_min_and_max Samples.sixDisks 3%Z
             (map_to_list Samples.sixDisks) (map_to_list Samples.sixDisks)
             (map_to_list Samples.sixDisks) (map_to_list Samples.sixDisks)
             Hv Hv Hv Hv sixDisks_nonempty Hn sixDisks_fits).
  - split; [exact Hv0|].
    exact (proj1 (proj2 warmest_mean_between_min_and_max 3%Z [] Hv0)).
Defined.

(** C7 as the design document words it, for every map, fails: the
    hypothesis on the sums is needed.  Of two disks at [MaxInt64] and 1
    the sum wraps around and the mean of the two is [-2^62], below the
    minimum 1.  Of three disks at [2^53 + 1] the sum is exact as an [int]
    and rounded as a [float64]: the mean of the three is [2^53 + 2], above
    the maximum [2^53 + 1], which is itself [2^53] as a [float64]. *)
Lemma warmest_mean_outside_min_max :
  (Sensors.visits Cases.wrappingDisks (map_to_list Cases.wrappingDisks)
   /\ Cases.wrappingDisks ≠ ∅
   /\ Sensors.GetMinTemperature Cases.wrappingDisks
        (map_to_list Cases.wrappingDisks) (map_to_list Cases.wrappingDisks)
      = 1%Z
   /\ Sensors.GetAverageOfWarmest Cases.wrappingDisks
        (map_to_list Cases.wrappingDisks) 2
      = Fin (inject_Z (- 2 ^ 62))
   /\ (of_int (Sensors.GetMinTemperature Cases.wrappingDisks
                 (map_to_list Cases.wrappingDisks)
                 (map_to_list Cases.wrappingDisks))
       <=? Sensors.GetAverageOfWarmest Cases.wrappingDisks
             (map_to_list Cases.wrappingDisks) 2) = false)
  /\ (Sensors.visits Cases.roundedDisks (map_to_list Cases.roundedDisks)
      /\ Cases.roundedDisks ≠ ∅
      /\ Sensors.GetMaxTemperature Cases.roundedDisks
           (map_to_list Cases.roundedDisks)
         = (2 ^ 53 + 1)%Z
      /\ Sensors.sum_first
           (Sensors.bubble_sort_desc
              (map snd (map_to_list Cases.roundedDisks))) 3
         = (3 * 2 ^ 53 + 3)%Z
      /\ Sensors.GetAverageOfWarmest Cases.roundedDisks
           (map_to_list Cases.roundedDisks) 3
         = Fin (inject_Z (2 ^ 53 + 2))
      /\ of_int (Sensors.GetMaxTemperature Cases.roundedDisks
                   (map_to_list Cases.roundedDisks))
         = Fin (inject_Z (2 ^ 53))
      /\ (Sensors.GetAverageOfWarmest Cases.roundedDisks
            (map_to_list Cases.roundedDisks) 3
          <=? of_int (Sensors.GetMaxTemperature Cases.roundedDisks
                        (map_to_list Cases.roundedDisks))) = false).
Proof.
  split.
  - split; [unfold Sensors.visits; reflexivity|]. split.
    + intros H.
      pose proof (f_equal (fun m : gmap string Z => m !! "sda"%string) H) as H'.
      vm_compute in H'. discriminate.
    + repeat split; vm_compute; reflexivity.
  - split; [unfold Sensors.visits; reflexivity|]. split.
    + intros H.
      pose proof (f_equal (fun m : gmap string Z => m !! "sda"%string) H) as H'.
      vm_compute in H'. discriminate.
    + repeat split; vm_compute; reflexivity.
Qed.

(** C8.  On a map that is not empty [GetAverageOfWarmest] with [n = 0]
    divides zero by zero and returns NaN, not 0.0; with [n < 0] it divides
    zero by [n] and returns a zero. *)
Theorem GetAverageOfWarmest_nonpositive_n :
  forall (temps : gmap string Z) (order : list (string * Z)),
    Sensors.visits temps order -> temps ≠ ∅ ->
    Sensors.GetAverageOfWarmest temps order 0 = NaN
    /\ (Sensors.GetAverageOfWarmest temps order 0 =? Fin 0) = false
    /\ forall n, (n < 0)%Z ->
         (Sensors.GetAverageOfWarmest temps order n =? Fin 0) = true.
Proof.
  intros temps order Hv Hne.
  assert (Hzero : forall n, (n <= 0)%Z ->
            Sensors.GetAverageOfWarmest temps order n = of_int 0 / of_int n).
  { intros n Hn. rewrite (GetAverageOfWarmest_nonempty temps order n Hne). cbv zeta.
    destruct (Z.ltb_spec (Z.of_nat (length (Sensors.bubble_sort_desc (map snd order)))) n);
      [lia|].
    unfold Sensors.sum_first. destruct n; try lia; reflexivity. }
  split; [|split].
  - rewrite Hzero by lia. reflexivity.
  - rewrite Hzero by lia. reflexivity.
  - intros n Hn. rewrite Hzero by lia.
    pose proof (of_int_mono n (-1) ltac:(lia)) as Hle.
    rewrite (of_int_exact (-1)) in Hle by (simpl; lia).
    change (of_int 0) with (Fin 0).
    destruct (of_int n) as [b| | |]; try discriminate; [|reflexivity].
    simpl in Hle. apply Qle_bool_iff in Hle.
    unfold F64.div.
    destruct (Qeq_bool b 0) eqn:Hz.
    + apply Qeq_bool_iff in Hz. rewrite Hz in Hle. unfold Qle in Hle. simpl in Hle. lia.
    + rewrite (round_comp (0 / b) 0) by (unfold Qdiv; apply Qmult_0_l).
      reflexivity.
Qed.

Lemma GetAverageOfWarmest_nonpositive_n_witness :
  Sensors.visits {[ "sda"%string := 40%Z ]} [("sda"%string, 40%Z)]
  /\ ({[ "sda"%string := 40%Z ]} : gmap string Z) ≠ ∅
  /\ Sensors.GetAverageOfWarmest {[ "sda"%string := 40%Z ]}
       [("sda"%string, 40%Z)] 0 = NaN.
Proof.
  assert (Hv : Sensors.visits {[ "sda"%string := 40%Z ]} [("sda"%string, 40%Z)]).
  { unfold Sensors.visits. rewrite map_to_list_singleton. reflexivity. }
  assert (Hne : ({[ "sda"%string := 40%Z ]} : gmap string Z) ≠ ∅)
    by apply map_non_empty_singleton.
  split; [exact Hv|]. split; [exact Hne|].
  exact (proj1 (GetAverageOfWarmest_nonpositive_n _ _ Hv Hne)).
Defined.

(** ** Disk exclusion *)

Lemma nth_error_in_range {A} (l : list A) i x :
  nth_error l i = Some x -> (i < length l)%nat.
Proof. intros H. apply nth_error_Some. congruence. Qed.

(** A match never moves backwards and never leaves the string. *)
Lemma Matches_bounds s r i j :
  Regexp.Matches s r i j ->
  (i <= j)%nat /\ ((i <= length s)%nat -> (j <= length s)%nat).
Proof.
  induction 1;
    repeat match goal with
           | H : nth_error _ _ = Some _ |- _ => apply nth_error_in_range in H
           end; lia.
Qed.

Section Iterate.

Variables (s : list ascii) (a : Regexp.regex).
Hypothesis ends_a :
  forall i j, (i <= length s)%nat ->
    In j (Regexp.ends a s i) <-> Regexp.Matches s a i j.

Lemma iterate_sound fuel : forall i k,
  (i <= length s)%nat ->
  In k (Regexp.iterate (Regexp.ends a s) fuel i) ->
  Regexp.Matches s (Regexp.Star a) i k.
Proof.
  induction fuel as [|fuel IH]; intros i k Hi Hk; simpl in Hk.
  - destruct Hk as [<-|[]]. constructor.
  - destruct Hk as [<-|Hk]; [constructor|].
    apply in_flat_map in Hk as (j & Hj & Hk).
    apply filter_In in Hj as (Hj & Hlt).
    apply ends_a in Hj; [|exact Hi].
    pose proof (Matches_bounds _ _ _ _ Hj) as [_ Hb].
    eapply Regexp.M_StarMore; [exact Hj|]. apply IH; [auto|exact Hk].
Qed.

Lemma iterate_complete i k :
  Regexp.Matches s (Regexp.Star a) i k ->
  forall fuel, (i <= length s)%nat -> (length s - i <= fuel)%nat ->
  In k (Regexp.iterate (Regexp.ends a s) fuel i).
Proof.
  intros H. remember (Regexp.Star a) as r eqn:Hr.
  induction H as [| | | | | | | | | a' i| a' i j k Ha _ Hstar IH | | |];
    try discriminate; injection Hr as ->; intros fuel Hi Hfuel.
  - destruct fuel; simpl; auto.
  - pose proof (Matches_bounds _ _ _ _ Ha) as [Hij Hb].
    destruct (Nat.eq_dec i j) as [<-|Hne].
    + apply IH; auto.
    + destruct fuel as [|fuel]; [lia|].
      simpl. right. apply in_flat_map. exists j. split.
      * apply filter_In. split; [apply ends_a; auto|apply Nat.ltb_lt; lia].
      * apply IH; auto; lia.
Qed.

End Iterate.

Lemma ends_Matches s r : forall i j,
  (i <= length s)%nat ->
  In j (Regexp.ends r s i) <-> Regexp.Matches s r i j.
Proof.
  induction r as [| c | | negated ranges | | | a IHa b IHb | a IHa b IHb
                  | a IHa | a IHa | a IHa];
    intros i j Hi; simpl.
  - split; [intros [<-|[]]; constructor|]. inversion 1; subst; auto.
  - destruct (nth_error s i) as [c'|] eqn:Hn.
    + destruct (Ascii.eqb_spec c c') as [->|Hne].
      * split; [intros [<-|[]]; constructor; exact Hn|].
        inversion 1; subst; simpl; auto.
      * split; [intros []|]. inversion 1; subst. congruence.
    + split; [intros []|]. inversion 1; subst. congruence.
  - destruct (nth_error s i) as [c'|] eqn:Hn.
    + destruct (Ascii.eqb_spec c' "010"%char) as [->|Hne].
      * split; [intros []|]. inversion 1; subst. congruence.
      * split; [intros [<-|[]]; econstructor; eauto|].
        inversion 1; subst; simpl; auto.
    + split; [intros []|]. inversion 1; subst. congruence.
  - destruct (nth_error s i) as [c'|] eqn:Hn.
    + destruct (xorb negated (Regexp.in_ranges c' ranges)) eqn:Hx.
      * split; [intros [<-|[]]; econstructor; eauto|].
        inversion 1; subst; simpl; auto.
      * split; [intros []|]. inversion 1; subst. congruence.
    + split; [intros []|]. inversion 1; subst. congruence.
  - destruct (Nat.eqb_spec i 0) as [->|Hne].
    + split; [intros [<-|[]]; constructor|]. inversion 1; subst; simpl; auto.
    + split; [intros []|]. inversion 1; subst. congruence.
  - destruct (Nat.eqb_spec i (length s)) as [->|Hne].
    + split; [intros [<-|[]]; constructor|]. inversion 1; subst; simpl; auto.
    + split; [intros []|]. inversion 1; subst. congruence.
  - rewrite in_flat_map. split.
    + intros (m & Hm & Hj). apply IHa in Hm; [|exact Hi].
      pose proof (Matches_bounds _ _ _ _ Hm) as [_ Hb].
      apply IHb in Hj; [|auto]. econstructor; eauto.
    + inversion 1; subst.
      match goal with
      | Ha : Regexp.Matches s a i ?m, Hb : Regexp.Matches s b ?m j |- _ =>
          exists m; split; [apply IHa; auto|];
          apply IHb; [apply (Matches_bounds _ _ _ _ Ha); auto|exact Hb]
      end.
  - rewrite in_app_iff, IHa, IHb by exact Hi. split.
    + intros [H|H]; [apply Regexp.M_AlternateL|apply Regexp.M_AlternateR]; exact H.
    + inversion 1; subst; auto.
  - split.
    + apply iterate_sound; auto.
    + intros H. apply (iterate_complete s a IHa i j H); auto. lia.
  - rewrite in_flat_map. split.
    + intros (m & Hm & Hj). apply IHa in Hm; [|exact Hi].
      pose proof (Matches_bounds _ _ _ _ Hm) as [_ Hb].
      econstructor; [exact Hm|]. apply (iterate_sound s a IHa (length s) m j); auto.
    + inversion 1; subst.
      match goal with
      | Ha : Regexp.Matches s a i ?m, Hb : Regexp.Matches s (Regexp.Star a) ?m j |- _ =>
          exists m; split; [apply IHa; auto|];
          apply (iterate_complete s a IHa m j Hb);
          [apply (Matches_bounds _ _ _ _ Ha); auto|lia]
      end.
  - rewrite in_app_iff, IHa by exact Hi. split.
    + intros [H|[<-|[]]]; [apply Regexp.M_QuestSome; exact H|apply Regexp.M_QuestNone].
    + inversion 1; subst; simpl; auto.
Qed.

Lemma match_at_Matches re s i :
  (i <= length s)%nat ->
  Regexp.match_at re s i = true <-> exists j, Regexp.Matches s re i j.
Proof.
  intros Hi. unfold Regexp.match_at. split.
  - destruct (Regexp.ends re s i) as [|j js] eqn:He; [discriminate|].
    intros _. exists j. apply ends_Matches; [exact Hi|].
    rewrite He. left. reflexivity.
  - intros (j & Hj). apply ends_Matches in Hj; [|exact Hi].
    destruct (Regexp.ends re s i); [destruct Hj|reflexivity].
Qed.


Lemma matchesExcludePattern_true MatchString device patterns :
  Sensors.matchesExcludePattern MatchString device patterns = true
  <-> exists pattern, In pattern patterns
                      /\ MatchString pattern device = Some true.
Proof.
  induction patterns as [|p rest IH]; simpl.
  - split; [discriminate|]. intros (? & [] & _).
  - destruct (MatchString p device) as [[|]|] eqn:Hp.
    + split; [|reflexivity]. intros _. exists p. auto.
    + rewrite IH. split.
      * intros (q & Hq & Hm). exists q. auto.
      * intros (q & [<-|Hq] & Hm); [congruence|]. exists q. auto.
    + rewrite IH. split.
      * intros (q & Hq & Hm). exists q. auto.
      * intros (q & [<-|Hq] & Hm); [congruence|]. exists q. auto.
Qed.

Lemma discoverLoop_filter MatchString isSpinningDisk patterns entries :
  forall disks,
  Sensors.discoverLoop MatchString isSpinningDisk patterns entries disks
  = disks
    ++ List.filter (fun device =>
                 negb (Sensors.matchesExcludePattern MatchString device patterns)
                 && match isSpinningDisk device with
                    | Some true => true
                    | _ => false
                    end) entries.
Proof.
  induction entries as [|device rest IH]; intros disks; simpl.
  - rewrite app_nil_r. reflexivity.
  - destruct (Sensors.matchesExcludePattern MatchString device patterns); simpl.
    + apply IH.
    + destruct (isSpinningDisk device) as [[|]|]; rewrite IH;
        rewrite <- ?app_assoc; reflexivity.
Qed.





(** The anchored test of the design document, in terms of [Matches]: the
    pattern compiles and matches from position 0. *)
Lemma anchored_match_iff pattern s :
  Regexp.anchored_match pattern s = true
  <-> exists re j, Regexp.Compile pattern = Some re
                   /\ Regexp.Matches (list_ascii_of_string s) re 0 j.
Proof.
  unfold Regexp.anchored_match.
  destruct (Regexp.Compile pattern) as [re|].
  - rewrite match_at_Matches by lia. split.
    + intros (j & Hj). exists re, j. auto.
    + intros (re' & j & Hre & Hj). injection Hre as <-. exists j. exact Hj.
  - split; [discriminate|]. intros (re & j & Hre & _). discriminate.
Qed.


(** On covered patterns and names the exclusion test is the one computed
    with the model of the package. *)
Lemma matchesExcludePattern_covered MatchString device patterns :
  Regexp.implements MatchString ->
  forallb (fun pattern => Regexp.covered pattern device) patterns = true ->
  Sensors.matchesExcludePattern MatchString device patterns
  = Sensors.matchesExcludePattern Regexp.MatchString device patterns.
Proof.
  intros Himpl. induction patterns as [|p rest IH]; intros Hcov; [reflexivity|].
  simpl in Hcov. apply andb_true_iff in Hcov as [Hp Hrest].
  simpl. rewrite (Himpl p device Hp), (IH Hrest). reflexivity.
Qed.

(** ** Configuration loading *)

Lemma setDefaults_MinDuty_nonzero c :
  Cfg.MinDuty (Cfg.Fans (Cfg.setDefaults c)) <> 0%Z.
Proof.
  simpl. destruct (Z.eqb_spec (Cfg.MinDuty (Cfg.Fans c)) 0); [discriminate|assumption].
Qed.

Lemma setDefaults_Kp_nonzero c :
  (Cfg.Kp (Cfg.PID (Cfg.setDefaults c)) =? zero) = false.
Proof.
  simpl. destruct (Cfg.Kp (Cfg.PID c) =? zero) eqn:H; [reflexivity|exact H].
Qed.

(** C10.  [LoadConfig] validates the configuration that [setDefaults]
    produced from the parsed one.  [setDefaults] replaces every field whose
    parsed value is zero (the empty string, the empty list) by its default
    and leaves every other field as parsed, so a loaded configuration never
    has [MinDuty = 0] or [Kp = 0], although [Validate] accepts both. *)
Theorem LoadConfig_defaults_before_validation :
  (forall readFile unmarshal path c,
     Cfg.LoadConfig readFile unmarshal path = inl c ->
     (exists data parsed,
        readFile path = Some data /\ unmarshal data = Some parsed
        /\ c = Cfg.setDefaults parsed /\ Cfg.Validate c = None)
     /\ Cfg.MinDuty (Cfg.Fans c) <> 0%Z
     /\ (Cfg.Kp (Cfg.PID c) =? zero) = false)
  /\ (forall c,
        let d := Cfg.setDefaults c in
        Cfg.MetricsPort (Cfg.Server d)
        = (if (Cfg.MetricsPort (Cfg.Server c) =? 0)%Z then 9090%Z
           else Cfg.MetricsPort (Cfg.Server c))
        /\ Cfg.LogLevel (Cfg.Server d)
           = (if String.eqb (Cfg.LogLevel (Cfg.Server c)) "" then "info"%string
              else Cfg.LogLevel (Cfg.Server c))
        /\ Cfg.TargetHDD (Cfg.Temperature d)
           = (if Cfg.TargetHDD (Cfg.Temperature c) =? zero then Fin 38
              else Cfg.TargetHDD (Cfg.Temperature c))
        /\ Cfg.MaxHDD (Cfg.Temperature d)
           = (if Cfg.MaxHDD (Cfg.Temperature c) =? zero then Fin 40
              else Cfg.MaxHDD (Cfg.Temperature c))
        /\ Cfg.MaxCPU (Cfg.Temperature d)
           = (if Cfg.MaxCPU (Cfg.Temperature c) =? zero then Fin 75
              else Cfg.MaxCPU (Cfg.Temperature c))
        /\ Cfg.PollInterval (Cfg.Temperature d)
           = (if (Cfg.PollInterval (Cfg.Temperature c) =? 0)%Z
              then 30000000000%Z else Cfg.PollInterval (Cfg.Temperature c))
        /\ Cfg.WarmestDisks (Cfg.Temperature d)
           = (if (Cfg.WarmestDisks (Cfg.Temperature c) =? 0)%Z then 4%Z
              else Cfg.WarmestDisks (Cfg.Temperature c))
        /\ Cfg.MinDuty (Cfg.Fans d)
           = (if (Cfg.MinDuty (Cfg.Fans c) =? 0)%Z then 30%Z
              else Cfg.MinDuty (Cfg.Fans c))
        /\ Cfg.MaxDuty (Cfg.Fans d)
           = (if (Cfg.MaxDuty (Cfg.Fans c) =? 0)%Z then 100%Z
              else Cfg.MaxDuty (Cfg.Fans c))
        /\ Cfg.StartupDuty (Cfg.Fans d)
           = (if (Cfg.StartupDuty (Cfg.Fans c) =? 0)%Z then 50%Z
              else Cfg.StartupDuty (Cfg.Fans c))
        /\ Cfg.Kp (Cfg.PID d)
           = (if Cfg.Kp (Cfg.PID c) =? zero then Fin 5 else Cfg.Kp (Cfg.PID c))
        /\ Cfg.Ki (Cfg.PID d)
           = (if Cfg.Ki (Cfg.PID c) =? zero then lit (1 # 10)
              else Cfg.Ki (Cfg.PID c))
        /\ Cfg.Kd (Cfg.PID d)
           = (if Cfg.Kd (Cfg.PID c) =? zero then Fin 20 else Cfg.Kd (Cfg.PID c))
        /\ Cfg.IntegralMax (Cfg.PID d)
           = (if Cfg.IntegralMax (Cfg.PID c) =? zero then Fin 50
              else Cfg.IntegralMax (Cfg.PID c))
        /\ Cfg.ExcludePatterns (Cfg.Disks d)
           = (match Cfg.ExcludePatterns (Cfg.Disks c) with
              | [] => ["^loop"; "^sr"; "^zram"; "^zd"; "^dm-"]%string
              | _ :: _ => Cfg.ExcludePatterns (Cfg.Disks c)
              end))
  /\ (exists c,
        Cfg.Validate c = None
        /\ Cfg.MinDuty (Cfg.Fans c) = 0%Z /\ Cfg.Kp (Cfg.PID c) = Fin 0).
Proof.
  split; [|split].
  - intros readFile unmarshal path c H. unfold Cfg.LoadConfig in H.
    destruct (readFile path) as [data|] eqn:Hread; [|discriminate].
    destruct (unmarshal data) as [parsed|] eqn:Hparse; [|discriminate].
    destruct (Cfg.Validate (Cfg.setDefaults parsed)) eqn:Hval; [discriminate|].
    injection H as <-.
    split; [exists data, parsed; auto|].
    split; [apply setDefaults_MinDuty_nonzero|apply setDefaults_Kp_nonzero].
  - intros c d. subst d. simpl.
    repeat split; try reflexivity.
    destruct (Cfg.ExcludePatterns (Cfg.Disks c)); reflexivity.
  - exists {| Cfg.Server := Cfg.Server Samples.config;
              Cfg.Temperature := Cfg.Temperature Samples.config;
              Cfg.Fans := {| Cfg.MinDuty := 0; Cfg.MaxDuty := 100;
                             Cfg.StartupDuty := 50 |};
              Cfg.PID := {| Cfg.Kp := Fin 0; Cfg.Ki := Fin 0; Cfg.Kd := Fin 0;
                            Cfg.IntegralMax := Fin 50 |};
              Cfg.Disks := Cfg.Disks Samples.config |}.
    repeat split; reflexivity.
Qed.

Lemma LoadConfig_defaults_before_validation_witness :
  Cfg.LoadConfig (fun _ => Some ""%string) (fun _ => Some Samples.zeroConfig)
    "/config/config.yaml" = inl (Cfg.setDefaults Samples.zeroConfig)
  /\ Cfg.MinDuty (Cfg.Fans (Cfg.setDefaults Samples.zeroConfig)) <> 0%Z
  /\ (Cfg.Kp (Cfg.PID (Cfg.setDefaults Samples.zeroConfig)) =? zero) = false.
Proof.
  assert (H : Cfg.LoadConfig (fun _ => Some ""%string)
                (fun _ => Some Samples.zeroConfig) "/config/config.yaml"
              = inl (Cfg.setDefaults Samples.zeroConfig)) by reflexivity.
  split; [exact H|].
  exact (proj2 (proj1 LoadConfig_defaults_before_validation _ _ _ _ H)).
Defined.

(** In a dry run nothing is commanded and the failure counter stays. *)
Lemma dry_run_tick_commands_nothing config inp st w :
  Sys.commanded (Sys.trace (snd (Loop.tick config true inp st w)))
  = Sys.commanded (Sys.trace w)
  /\ Loop.consecutiveIPMIFailures (fst (Loop.tick config true inp st w))
     = Loop.consecutiveIPMIFailures st.
Proof.
  unfold Loop.tick. destruct (Loop.reading inp) as [[diskTemps cpuTemp]|].
  - destruct (Loop.selectDuty _ _ _ _ _) as [[fanDuty pidTerms] pid'].
    unfold Loop.actuate, Sys.bind, Sys.sleep, Sys.emit, Sys.ret.
    cbn [negb fst snd Sys.trace Loop.consecutiveIPMIFailures].
    rewrite !commanded_cons, !app_nil_r. auto.
  - unfold Sys.bind, Sys.RecordError, Sys.sleep, Sys.emit, Sys.ret.
    cbn [fst snd Sys.trace]. rewrite !commanded_cons, !app_nil_r. auto.
Qed.

(** ** The mean handed to the controller *)

(** With [n >= 1] the mean is a number of magnitude at most [2^63]: the
    sum is an [int] and the divisor is at least 1. *)
Lemma GetAverageOfWarmest_within temps order n :
  Sensors.visits temps order -> (1 <= n)%Z ->
  Numeric.within (pow2 63) (Sensors.GetAverageOfWarmest temps order n).
Proof.
  intros Hv Hn. unfold Sensors.GetAverageOfWarmest.
  destruct (Sensors.len temps =? 0)%Z eqn:Hlen.
  { exists 0%Q. split; [reflexivity|]. apply Qlt_le_weak, pow2_pos. }
  apply Z.eqb_neq in Hlen. unfold Sensors.len in Hlen.
  set (sorted := Sensors.bubble_sort_desc (map snd order)).
  assert (Hl : length sorted = size temps).
  { subst sorted. rewrite (Permutation_length (bubble_sort_desc_perm _)), length_map.
    apply visits_length, Hv. }
  set (take := if (Z.of_nat (length sorted) <? n)%Z
               then Z.of_nat (length sorted) else n).
  assert (Htake : (1 <= take)%Z).
  { subst take. destruct (Z.ltb_spec (Z.of_nat (length sorted)) n); lia. }
  assert (Hs : GoInt.in_range (Sensors.sum_first sorted take)).
  { unfold Sensors.sum_first.
    generalize (firstn (Z.to_nat take) sorted). intros l.
    assert (H : forall acc, GoInt.in_range acc ->
                  GoInt.in_range (fold_left GoInt.add l acc)).
    { induction l as [|x l IH]; intros acc Hacc; simpl; [exact Hacc|].
      apply IH, wrap64_range. }
    apply H. unfold GoInt.in_range, GoInt.min_int, GoInt.max_int. lia. }
  destruct (of_int_in_range _ Hs) as (q & Hq & Bq).
  pose proof (of_int_mono 1 take Htake) as Hle.
  rewrite (of_int_exact 1) in Hle by (simpl; lia).
  destruct (of_int take) as [b| | |] eqn:Hb; try discriminate.
  - simpl in Hle. apply Qle_bool_iff in Hle.
    apply (div_within (pow2 63) 1 63); [exists q; auto|reflexivity| |
                                        unfold emin, emax; lia|].
    + rewrite Qabs_pos; [exact Hle|].
      apply Qle_trans with (inject_Z 1); [discriminate|exact Hle].
    + rewrite Qmult_1_r. apply Qle_refl.
  - rewrite Hq. exists 0%Q. split; [reflexivity|]. apply Qlt_le_weak, pow2_pos.
Qed.

Lemma within_finite bound x : Numeric.within bound x -> is_finite x.
Proof. intros (q & -> & _). exact I. Qed.

Lemma within_weaken a b x :
  (a <= b)%Q -> Numeric.within a x -> Numeric.within b x.
Proof.
  intros Hab (q & -> & Hq). exists q. split; [reflexivity|].
  eapply Qle_trans; eassumption.
Qed.

(** With [n >= 1] the mean is a number. *)
Lemma GetAverageOfWarmest_finite temps order n :
  Sensors.visits temps order -> (1 <= n)%Z ->
  is_finite (Sensors.GetAverageOfWarmest temps order n).
Proof.
  intros Hv Hn. eapply within_finite, GetAverageOfWarmest_within; eassumption.
Qed.

(** ** The tests of the repository, replayed on the model *)

Example test_OutputClamping_Min :
  (fst (fst (PID.Calculate
               (PID.NewPIDController (Fin 10) (Fin 0) (Fin 0) (Fin 38)
                  (Fin 30) (Fin 100) (Fin 50)) (Fin 30) 0))
   =? Fin 30) = true.
Proof. reflexivity. Qed.

Example test_OutputClamping_Max :
  (fst (fst (PID.Calculate
               (PID.NewPIDController (Fin 10) (Fin 0) (Fin 0) (Fin 38)
                  (Fin 0) (Fin 100) (Fin 50)) (Fin 50) 0))
   =? Fin 100) = true.
Proof. reflexivity. Qed.

Example test_FirstRun_SkipsDerivative :
  PID.D (snd (fst (PID.Calculate
                     (PID.NewPIDController (Fin 1) (lit (1 # 10)) (Fin 5)
                        (Fin 38) (Fin 0) (Fin 100) (Fin 50)) (Fin 40) 0)))
  = Fin 0.
Proof. reflexivity. Qed.

Example test_ZeroError_StableOutput :
  let p := PID.NewPIDController (Fin 5) (lit (1 # 10)) (Fin 2) (Fin 38)
             (Fin 0) (Fin 100) (Fin 50) in
  let '(output1, _, p1) := PID.Calculate p (Fin 38) 0 in
  let '(output2, _, _) := PID.Calculate p1 (Fin 38) 10000000 in
  (output1 =? Fin 0) = true /\ (output2 =? Fin 0) = true.
Proof. vm_compute. auto. Qed.

Example test_AntiWindup :
  (PID.Integral (PID.run Samples.antiWindupPID Samples.windupCalls) =? Fin 10)
  = true.
Proof. vm_compute. reflexivity. Qed.

Example test_Clamp :
  (PID.clamp (Fin (-10)) (Fin 0) (Fin 100) =? Fin 0) = true
  /\ (PID.clamp (Fin 150) (Fin 0) (Fin 100) =? Fin 100) = true
  /\ (PID.clamp (Fin 50) (Fin 0) (Fin 100) =? Fin 50) = true
  /\ (PID.clamp (Fin 0) (Fin 0) (Fin 100) =? Fin 0) = true
  /\ (PID.clamp (Fin 100) (Fin 0) (Fin 100) =? Fin 100) = true.
Proof. repeat split; reflexivity. Qed.

(** The mean of 45, 42 and 40 is the [float64] nearest to [127/3], within
    0.01 of 42.33 as the test asks; 41.25 and 37.5 are exact. *)
Example test_GetAverageOfWarmest :
  Sensors.GetAverageOfWarmest Samples.sixDisks (map_to_list Samples.sixDisks) 3
  = F64.round (127 # 3)
  /\ (F64.abs (lit (4233 # 100)
               - Sensors.GetAverageOfWarmest Samples.sixDisks
                   (map_to_list Samples.sixDisks) 3)
      <=? lit (1 # 100)) = true
  /\ Sensors.GetAverageOfWarmest Samples.sixDisks
       (map_to_list Samples.sixDisks) 4 = Fin (165 # 4)
  /\ Sensors.GetAverageOfWarmest Samples.twoDisks
       (map_to_list Samples.twoDisks) 5 = Fin (75 # 2)
  /\ Sensors.GetAverageOfWarmest ∅ [] 3 = Fin 0.
Proof. vm_compute. auto. Qed.

Example test_sorted_descending :
  Sensors.bubble_sort_desc [30; 50; 35; 48; 32; 45]%Z = [50; 48; 45; 35; 32; 30]%Z.
Proof. reflexivity. Qed.

Example test_GetMaxMinTemperature :
  Sensors.GetMaxTemperature Samples.fiveDisks (map_to_list Samples.fiveDisks) = 45%Z
  /\ Sensors.GetMinTemperature Samples.fiveDisks
       (map_to_list Samples.fiveDisks) (map_to_list Samples.fiveDisks) = 35%Z
  /\ Sensors.GetMaxTemperature ∅ [] = 0%Z
  /\ Sensors.GetMinTemperature ∅ [] [] = 0%Z.
Proof. vm_compute. auto. Qed.

Example test_MatchesExcludePattern :
  forall MatchString, Regexp.implements MatchString ->
  map (fun device =>
         Sensors.matchesExcludePattern MatchString device
           Cfg.defaultExcludePatterns)
      ["loop0"; "loop15"; "sr0"; "zram0"; "zd0"; "zd128"; "dm-0"; "dm-15";
       "sda"; "sdb"; "nvme0n1"; "nvme1n1"]%string
  = [true; true; true; true; true; true; true; true;
     false; false; false; false]
  /\ Sensors.matchesExcludePattern MatchString "sda"
       ["[invalid"; "^sr"]%string = false.
Proof.
  intros MatchString Himpl. cbn [map].
  rewrite !(matchesExcludePattern_covered MatchString _ _ Himpl)
    by (vm_compute; reflexivity).
  vm_compute. auto.
Qed.

Example test_SetDefaults_AllFieldsSet :
  Cfg.setDefaults Samples.zeroConfig
  = {| Cfg.Server := {| Cfg.MetricsPort := 9090; Cfg.LogLevel := "info" |};
       Cfg.Temperature :=
         {| Cfg.TargetHDD := Fin 38; Cfg.MaxHDD := Fin 40;
            Cfg.MaxCPU := Fin 75; Cfg.PollInterval := 30000000000;
            Cfg.WarmestDisks := 4 |};
       Cfg.Fans := {| Cfg.MinDuty := 30; Cfg.MaxDuty := 100;
                      Cfg.StartupDuty := 50 |};
       Cfg.PID := {| Cfg.Kp := Fin 5; Cfg.Ki := lit (1 # 10); Cfg.Kd := Fin 20;
                     Cfg.IntegralMax := Fin 50 |};
       Cfg.Disks :=
         {| Cfg.ExcludePatterns := ["^loop"; "^sr"; "^zram"; "^zd"; "^dm-"]%string |} |}
  /\ Cfg.Validate (Cfg.setDefaults Samples.zeroConfig) = None.
Proof. split; reflexivity. Qed.

(** The nominal iteration of the design document: the warmest four of the
    six disks average 41.25 and the duty is the minimum, 30. *)
Example scenario_nominal_tick :
  let '(st', w') :=
    Loop.tick Samples.config false Samples.normalInput Samples.freshState
      Samples.workingWorld in
  Sys.commanded (Sys.trace w') = [30%Z]
  /\ Loop.consecutiveIPMIFailures st' = 0%Z
  /\ exists terms, Obs.lastMetrics (Sys.trace w') = Some (30%Z, terms, ""%string).
Proof. vm_compute. eauto. Qed.

(** Five iterations in a row whose commands fail: the fifth publishes
    [ipmi_failure] and duty 100 and commands 100 once more; the counter is
    zero again after the next iteration whose command succeeds. *)
Example scenario_ipmi_escalation :
  let five := repeat Samples.normalInput 5 in
  let '(st5, w5) :=
    Loop.ticks Samples.config false five Samples.freshState
      (Samples.failingFirst 18) in
  let '(st6, w6) := Loop.tick Samples.config false Samples.normalInput st5 w5 in
  Loop.consecutiveIPMIFailures st5 = 5%Z
  /\ Sys.commanded (Sys.trace w5) = [30; 30; 30; 30; 30; 100]%Z
  /\ (exists terms,
        Obs.lastMetrics (Sys.trace w5) = Some (100%Z, terms, "ipmi_failure"%string))
  /\ Loop.consecutiveIPMIFailures st6 = 0%Z.
Proof. vm_compute. eauto. Qed.

(** * Further properties of the code *)

(** ** Further properties of the PID controller *)

Lemma moderate_Fin (q : Q) :
  Qle_bool (Qabs q) (pow2 300) = true -> Numeric.moderate (Fin q).
Proof. intros H. exists q. split; [reflexivity|]. apply Qle_bool_iff, H. Qed.

Lemma add_fin_r_not_nan (x : float64) (d : Q) :
  is_nan x = false -> is_nan (x + Fin d) = false.
Proof.
  destruct x as [a| | |]; simpl; try discriminate; try reflexivity.
  intros _. apply round_not_nan.
Qed.

(** Clamping a value that is not NaN into the band of a positive limit,
    finite or not, yields a value within the limit. *)
Lemma clamp_abs_le (v im : float64) :
  is_nan v = false -> (zero <? im) = true ->
  (F64.abs (PID.clamp v (- im) im) <=? im) = true.
Proof.
  intros Hv Him. destruct im as [m| | |]; try discriminate.
  - simpl in Him. apply negb_true_iff, Qle_bool_false in Him.
    destruct (clamp_band v m Hv Him) as (y & Hy & By).
    rewrite Hy. simpl. apply Qle_bool_iff, By.
  - destruct v as [x| | |]; try discriminate; reflexivity.
Qed.

(** The error of a moderate reading against a moderate setpoint. *)
Lemma error_within current target :
  Numeric.moderate current -> Numeric.moderate target ->
  Numeric.within (pow2 301) (current - target).
Proof.
  intros Hc Ht.
  apply (sub_within (pow2 300) (pow2 300) 301); try assumption.
  - unfold emin, emax. lia.
  - rewrite (pow2_double 300). apply Qle_refl.
Qed.

(** The derivative term is a number when the gain is moderate, the errors
    are within [2^301] and a positive time step is at least [2^-30]. *)
Lemma derivative_within (firstRun : bool) (kd e pe : float64) (q : Q) :
  Numeric.moderate kd ->
  Numeric.within (pow2 301) e -> Numeric.within (pow2 301) pe ->
  ((0 < q)%Q -> (pow2 (-30) <= q)%Q) ->
  Numeric.within (pow2 632)
    (if negb firstRun && (Fin q >? zero) then kd * (e - pe) / Fin q else zero).
Proof.
  intros Hkd He Hpe Hq.
  destruct (negb firstRun && (Fin q >? zero)) eqn:Hc.
  - apply andb_true_iff in Hc. destruct Hc as [_ Hdt].
    unfold F64.gtb, zero in Hdt. simpl in Hdt.
    apply negb_true_iff, Qle_bool_false in Hdt.
    assert (Hs : Numeric.within (pow2 302) (e - pe)).
    { apply (sub_within (pow2 301) (pow2 301) 302); try assumption.
      - unfold emin, emax. lia.
      - rewrite (pow2_double 301). apply Qle_refl. }
    assert (Hm : Numeric.within (pow2 602) (kd * (e - pe))).
    { apply (mul_within (pow2 300) (pow2 302) 602); try assumption.
      - unfold emin, emax. lia.
      - rewrite <- pow2_add. apply Qle_refl. }
    apply (div_within (pow2 602) (pow2 (-30)) 632); try assumption.
    + apply pow2_pos.
    + rewrite Qabs_pos by (apply Qlt_le_weak, Hdt). apply Hq, Hdt.
    + unfold emin, emax. lia.
    + rewrite <- pow2_add. apply Qle_refl.
  - exists 0%Q. split; [reflexivity|]. apply Qlt_le_weak, pow2_pos.
Qed.

(** On a numeric controller and a moderate reading the three terms add up
    to a value that is not NaN, which is clamped to the output limits. *)
Lemma Calculate_sum_not_nan p current now :
  Numeric.controller p -> Numeric.moderate current ->
  exists v,
    fst (fst (PID.Calculate p current now))
    = PID.clamp v (PID.MinOutput p) (PID.MaxOutput p)
    /\ is_nan v = false.
Proof.
  intros (Hkp & Hkd & Htg & Hpe & Hinv) Hc.
  unfold PID.Calculate. cbn [fst]. eexists. split; [reflexivity|].
  pose proof (error_within current (PID.Target p) Hc Htg) as He.
  destruct (dt_bounds p now) as (q & Hq & _ & Lq). rewrite Hq.
  pose proof (derivative_within (PID.FirstRun p) (PID.Kd p)
                (current - PID.Target p) (PID.PrevError p) q Hkd He Hpe Lq)
    as (d & Hd & _).
  rewrite Hd.
  destruct Hinv as (m & i & Hm & Hpos & Hi & _). rewrite Hm, Hi.
  destruct He as (e & He & _). rewrite He.
  destruct (clamp_band (Fin i + Fin e * Fin q) m) as (y & Hy & _);
    [apply add_not_nan_fin, mul_fin_not_nan|exact Hpos|].
  rewrite Hy.
  destruct (PID.Kp p) as [kp| | |]; try contradiction.
  apply add_fin_r_not_nan, add_fin_r_not_nan, mul_fin_not_nan.
Qed.

Lemma Calculate_keeps_numeric p current now :
  Numeric.controller p -> Numeric.moderate current ->
  Numeric.controller (snd (PID.Calculate p current now)).
Proof.
  intros Hp Hc.
  pose proof Hp as (Hkp & Hkd & Htg & Hpe & Hinv).
  pose proof (error_within current (PID.Target p) Hc Htg) as He.
  split; [exact Hkp|]. split; [exact Hkd|]. split; [exact Htg|].
  split; [exact He|].
  apply Calculate_keeps_integral_inv; [exact Hinv|].
  eapply within_finite, He.
Qed.

Lemma run_keeps_numeric calls : forall p,
  Numeric.controller p ->
  Forall (fun call : float64 * Z => Numeric.moderate (fst call)) calls ->
  Numeric.controller (PID.run p calls).
Proof.
  induction calls as [|[current now] calls IH]; intros p Hp Hcalls; simpl.
  - exact Hp.
  - inversion Hcalls as [|? ? Hc Hrest]; subst.
    apply IH; [|exact Hrest]. apply Calculate_keeps_numeric; assumption.
Qed.

(** A new controller with moderate parameters is numeric. *)
Lemma new_controller_numeric kp ki kd target minOutput maxOutput integralMax :
  is_finite kp -> Numeric.moderate kd -> Numeric.moderate target ->
  (zero <? integralMax) = true -> is_finite integralMax ->
  Numeric.controller
    (PID.NewPIDController kp ki kd target minOutput maxOutput integralMax).
Proof.
  intros Hkp Hkd Htg Him Hf.
  split; [exact Hkp|]. split; [exact Hkd|]. split; [exact Htg|]. split.
  - exists 0%Q. split; [reflexivity|]. apply Qlt_le_weak, pow2_pos.
  - apply new_integral_inv; assumption.
Qed.

(** [Calculate] changes the accumulated state only. *)
Lemma run_keeps_parameters calls : forall p,
  PID.Kp (PID.run p calls) = PID.Kp p
  /\ PID.Ki (PID.run p calls) = PID.Ki p
  /\ PID.Kd (PID.run p calls) = PID.Kd p
  /\ PID.Target (PID.run p calls) = PID.Target p
  /\ PID.MinOutput (PID.run p calls) = PID.MinOutput p
  /\ PID.MaxOutput (PID.run p calls) = PID.MaxOutput p
  /\ PID.IntegralMax (PID.run p calls) = PID.IntegralMax p.
Proof.
  induction calls as [|[current now] calls IH]; intros p; cbn [PID.run].
  - repeat split.
  - destruct (IH (snd (PID.Calculate p current now))) as (H1 & H2 & H3 & H4 & H5 & H6 & H7).
    rewrite H1, H2, H3, H4, H5, H6, H7. repeat split.
Qed.

(** X1.  A controller built by [NewPIDController] with a proportional gain
    that is a number, a derivative gain and a setpoint of magnitude at most
    [2^300], ordered output limits and an anti-windup limit that is a
    positive number returns, after any history of readings of magnitude at
    most [2^300], an output that is not NaN and lies within the output
    limits.  The bounds are needed: with [Kp = Kd = 1e308], setpoint 38 and
    the readings 48 and then 46 a second later, the proportional term is
    [+Inf], the derivative term [-Inf] and the output NaN. *)
Theorem Calculate_output_within_limits :
  (forall kp ki kd target minOutput maxOutput integralMax
          (calls : list (float64 * Z)) current now,
     is_finite kp -> Numeric.moderate kd -> Numeric.moderate target ->
     (minOutput <=? maxOutput) = true ->
     (zero <? integralMax) = true -> is_finite integralMax ->
     Forall (fun call : float64 * Z => Numeric.moderate (fst call)) calls ->
     Numeric.moderate current ->
     let p := PID.run (PID.NewPIDController kp ki kd target minOutput maxOutput
                         integralMax) calls in
     let output := fst (fst (PID.Calculate p current now)) in
     (minOutput <=? output) = true /\ (output <=? maxOutput) = true
     /\ is_nan output = false)
  /\ (let p := PID.run (PID.NewPIDController Cases.large (lit (1 # 10))
                          Cases.large (Fin 38) (Fin 30) (Fin 100) (Fin 50))
                 [(Fin 48, 0%Z)] in
      let '(output, terms, _) := PID.Calculate p (Fin 46) 1000000000 in
      PID.P terms = PosInf /\ PID.D terms = NegInf /\ output = NaN).
Proof.
  split; [|vm_compute; auto].
  intros kp ki kd target lo hi im calls current now
         Hkp Hkd Htg Hlh Him Hf Hcalls Hc.
  cbv zeta.
  set (p0 := PID.NewPIDController kp ki kd target lo hi im).
  assert (H0 : Numeric.controller p0)
    by (apply new_controller_numeric; assumption).
  pose proof (run_keeps_numeric calls p0 H0 Hcalls) as Hp.
  destruct (Calculate_sum_not_nan _ current now Hp Hc) as (v & Hv & Hnan).
  rewrite Hv.
  destruct (run_keeps_parameters calls p0) as (_ & _ & _ & _ & Hlo & Hhi & _).
  rewrite Hlo, Hhi. simpl.
  destruct (clamp_within v lo hi Hnan Hlh) as [H1 H2].
  split; [exact H1|]. split; [exact H2|].
  destruct (PID.clamp v lo hi); try reflexivity. discriminate.
Qed.

Lemma Calculate_output_within_limits_witness :
  (Fin 30 <=? Fin 100) = true
  /\ (zero <? Fin 50) = true
  /\ Numeric.moderate (Fin 20) /\ Numeric.moderate (Fin 38)
  /\ Forall (fun call : float64 * Z => Numeric.moderate (fst call))
       [(Fin 44, 0%Z); (Fin 45, 30000000000%Z)]
  /\ Numeric.moderate (Fin 47)
  /\ (Fin 30
      <=? fst (fst (PID.Calculate
                      (PID.run (PID.NewPIDController (Fin 5) (lit (1 # 10))
                                  (Fin 20) (Fin 38) (Fin 30) (Fin 100) (Fin 50))
                         [(Fin 44, 0%Z); (Fin 45, 30000000000%Z)])
                      (Fin 47) 60000000000))) = true
  /\ (fst (fst (PID.Calculate
                  (PID.run (PID.NewPIDController (Fin 5) (lit (1 # 10))
                              (Fin 20) (Fin 38) (Fin 30) (Fin 100) (Fin 50))
                     [(Fin 44, 0%Z); (Fin 45, 30000000000%Z)])
                  (Fin 47) 60000000000))
      <=? Fin 100) = true.
Proof.
  assert (Hlh : (Fin 30 <=? Fin 100) = true) by reflexivity.
  assert (Him : (zero <? Fin 50) = true) by reflexivity.
  assert (Hkd : Numeric.moderate (Fin 20)) by (apply moderate_Fin; reflexivity).
  assert (Htg : Numeric.moderate (Fin 38)) by (apply moderate_Fin; reflexivity).
  assert (Hc : Numeric.moderate (Fin 47)) by (apply moderate_Fin; reflexivity).
  assert (Hcalls : Forall (fun call : float64 * Z => Numeric.moderate (fst call))
                     [(Fin 44, 0%Z); (Fin 45, 30000000000%Z)])
    by (repeat constructor; apply moderate_Fin; reflexivity).
  split; [exact Hlh|]. split; [exact Him|]. split; [exact Hkd|].
  split; [exact Htg|]. split; [exact Hcalls|]. split; [exact Hc|].
  pose proof (proj1 Calculate_output_within_limits (Fin 5) (lit (1 # 10))
                (Fin 20) (Fin 38) (Fin 30) (Fin 100) (Fin 50)
                [(Fin 44, 0%Z); (Fin 45, 30000000000%Z)] (Fin 47) 60000000000
                I Hkd Htg Hlh Him I Hcalls Hc) as H.
  cbv zeta in H. split; [exact (proj1 H)|exact (proj1 (proj2 H))].
Defined.

(** X2.  [Reset] undoes any history: after any sequence of [Calculate]
    calls it gives back exactly the controller [NewPIDController] built,
    so the next call behaves as the first call of a new controller. *)
Theorem Reset_restores_new_controller :
  forall kp ki kd target minOutput maxOutput integralMax
         (calls : list (float64 * Z)),
    let new := PID.NewPIDController kp ki kd target minOutput maxOutput
                 integralMax in
    PID.Reset (PID.run new calls) = new
    /\ forall current now,
         PID.Calculate (PID.Reset (PID.run new calls)) current now
         = PID.Calculate new current now.
Proof.
  intros kp ki kd target lo hi im calls new.
  assert (H : PID.Reset (PID.run new calls) = new).
  { destruct (run_keeps_parameters calls new) as (H1 & H2 & H3 & H4 & H5 & H6 & H7).
    unfold PID.Reset. rewrite H1, H2, H3, H4, H5, H6, H7. reflexivity. }
  split; [exact H|]. intros current now. rewrite H. reflexivity.
Qed.

(** One call of [Calculate] brings an accumulator that is a number within
    the anti-windup limit, when the error of the reading is a number. *)
Lemma Calculate_clamps_accumulator p current now :
  (zero <? PID.IntegralMax p) = true ->
  is_finite (PID.Integral p) -> is_finite (current - PID.Target p) ->
  (F64.abs (PID.Integral (snd (PID.Calculate p current now)))
   <=? PID.IntegralMax p) = true.
Proof.
  intros Him Hi He. unfold PID.Calculate. cbn [snd PID.Integral].
  destruct (dt_bounds p now) as (q & Hq & _). rewrite Hq.
  destruct (PID.Integral p) as [i| | |]; try contradiction.
  destruct (current - PID.Target p) as [e| | |]; try contradiction.
  apply clamp_abs_le; [|exact Him].
  apply add_not_nan_fin, mul_fin_not_nan.
Qed.

(** X3.  A new anti-windup limit takes effect at the next [Calculate]:
    whatever number was accumulated under the old limit, after one call
    whose error [current - Target] is a number the accumulator is within
    the new limit.  The error must be a number: with the setpoint
    [-1.7e308] and the reading [1.7e308] it overflows to [+Inf], and at a
    time step of zero the accumulator becomes NaN. *)
Theorem SetIntegralMax_bounds_next_call :
  (forall p integralMax current now,
     (zero <? integralMax) = true ->
     is_finite (PID.Integral p) ->
     is_finite (current - PID.Target p) ->
     let p' := snd (PID.Calculate (PID.SetIntegralMax p integralMax) current now) in
     (F64.abs (PID.Integral p') <=? integralMax) = true
     /\ PID.IntegralMax p' = integralMax)
  /\ (let p := PID.run (PID.NewPIDController (Fin 5) (lit (1 # 10)) (Fin 20)
                          (- Cases.huge) (Fin 30) (Fin 100) (Fin 50))
                 [(Fin 0, 0%Z)] in
      Cases.huge - PID.Target p = PosInf
      /\ PID.Integral
           (snd (PID.Calculate (PID.SetIntegralMax p (Fin 5)) Cases.huge 0))
         = NaN).
Proof.
  split; [|vm_compute; auto].
  intros p im current now Him Hi He. cbv zeta.
  split; [|reflexivity].
  apply (Calculate_clamps_accumulator (PID.SetIntegralMax p im) current now);
    assumption.
Qed.

Lemma SetIntegralMax_bounds_next_call_witness :
  (zero <? Fin 5) = true
  /\ is_finite (PID.Integral (PID.run Samples.antiWindupPID Samples.windupCalls))
  /\ is_finite
       (Fin 50 - PID.Target (PID.run Samples.antiWindupPID Samples.windupCalls))
  /\ (PID.Integral (PID.run Samples.antiWindupPID Samples.windupCalls) =? Fin 10)
     = true
  /\ (F64.abs
        (PID.Integral
           (snd (PID.Calculate
                   (PID.SetIntegralMax
                      (PID.run Samples.antiWindupPID Samples.windupCalls) (Fin 5))
                   (Fin 50) 600000000)))
      <=? Fin 5) = true.
Proof.
  assert (Him : (zero <? Fin 5) = true) by reflexivity.
  assert (Hi : is_finite
                 (PID.Integral (PID.run Samples.antiWindupPID Samples.windupCalls)))
    by (vm_compute; exact I).
  assert (He : is_finite
                 (Fin 50
                  - PID.Target (PID.run Samples.antiWindupPID Samples.windupCalls)))
    by (vm_compute; exact I).
  split; [exact Him|]. split; [exact Hi|]. split; [exact He|].
  split; [vm_compute; reflexivity|].
  exact (proj1 (proj1 SetIntegralMax_bounds_next_call
                  (PID.run Samples.antiWindupPID Samples.windupCalls)
                  (Fin 5) (Fin 50) 600000000 Him Hi He)).
Defined.

(** X4.  Each of the three gain presets fits the checks of
    [ValidateGains], which returns no warning after it, on any controller;
    it changes nothing but the gains and the anti-windup limit, and the
    next [Calculate] brings the accumulator within the limit of the preset
    when the accumulator is a number and the error [current - Target] of
    the reading is a number. *)
Theorem presets_pass_ValidateGains :
  forall t tune,
    In tune [Tuning.TuneForTemperatureControl; Tuning.TuneForResponsiveControl;
             Tuning.TuneForStableControl] ->
    Tuning.ValidateGains (tune t) = []
    /\ (PID.Target (Tuning.controller (tune t)) = PID.Target (Tuning.controller t)
        /\ PID.MinOutput (Tuning.controller (tune t))
           = PID.MinOutput (Tuning.controller t)
        /\ PID.MaxOutput (Tuning.controller (tune t))
           = PID.MaxOutput (Tuning.controller t)
        /\ PID.Integral (Tuning.controller (tune t))
           = PID.Integral (Tuning.controller t)
        /\ PID.PrevError (Tuning.controller (tune t))
           = PID.PrevError (Tuning.controller t)
        /\ PID.PrevTime (Tuning.controller (tune t))
           = PID.PrevTime (Tuning.controller t)
        /\ PID.FirstRun (Tuning.controller (tune t))
           = PID.FirstRun (Tuning.controller t))
    /\ forall current now,
         is_finite (PID.Integral (Tuning.controller t)) ->
         is_finite (current - PID.Target (Tuning.controller t)) ->
         (F64.abs (PID.Integral
                     (snd (PID.Calculate (Tuning.controller (tune t)) current now)))
          <=? PID.IntegralMax (Tuning.controller (tune t))) = true.
Proof.
  intros t tune Hin. simpl in Hin.
  destruct Hin as [<-|[<-|[<-|[]]]];
    (split; [vm_compute; reflexivity|]); (split; [repeat split|]);
    intros current now Hi He;
    apply Calculate_clamps_accumulator; try assumption; reflexivity.
Qed.

Lemma presets_pass_ValidateGains_witness :
  In Tuning.TuneForResponsiveControl
     [Tuning.TuneForTemperatureControl; Tuning.TuneForResponsiveControl;
      Tuning.TuneForStableControl]
  /\ Tuning.ValidateGains
       (Tuning.TuneForResponsiveControl
          (Tuning.NewPIDTuning Samples.antiWindupPID)) = [].
Proof.
  assert (Hin : In Tuning.TuneForResponsiveControl
                   [Tuning.TuneForTemperatureControl;
                    Tuning.TuneForResponsiveControl;
                    Tuning.TuneForStableControl])
    by (simpl; right; left; reflexivity).
  split; [exact Hin|].
  exact (proj1 (presets_pass_ValidateGains
                  (Tuning.NewPIDTuning Samples.antiWindupPID)
                  Tuning.TuneForResponsiveControl Hin)).
Defined.

(** The warnings the tests of the gain checks expect. *)
Example test_ValidateGains :
  let gains kp ki kd :=
    Tuning.NewPIDTuning
      (PID.NewPIDController kp ki kd (Fin 38) (Fin 0) (Fin 100) (Fin 50)) in
  Tuning.ValidateGains (gains (Fin 5) (lit (1 # 10)) (Fin 20)) = []
  /\ Tuning.ValidateGains (gains (Fin 25) (lit (1 # 10)) (Fin 20))
     = ["Kp should typically be between 0-20"%string]
  /\ Tuning.ValidateGains (gains (Fin 5) (Fin 3) (Fin 20))
     = ["Ki should typically be between 0-2"%string]
  /\ Tuning.ValidateGains (gains (Fin 15) (lit (8 # 10)) (Fin 20))
     = ["High Kp with high Ki may cause oscillation"%string].
Proof. vm_compute. repeat split. Qed.

(** ** Further properties of the sensor aggregation *)

(** Two slices sorted in descending order with the same entries are the
    same slice. *)
Lemma sorted_perm_unique (l1 : list Z) : forall l2,
  StronglySorted Z.ge l1 -> StronglySorted Z.ge l2 -> l1 ≡ₚ l2 -> l1 = l2.
Proof.
  induction l1 as [|a l1 IH]; intros l2 H1 H2 Hp.
  - apply Permutation_nil_l in Hp. congruence.
  - destruct l2 as [|b l2].
    { apply Permutation_nil_r in Hp. discriminate. }
    apply StronglySorted_inv in H1. destruct H1 as [H1 Ha].
    apply StronglySorted_inv in H2. destruct H2 as [H2 Hb].
    rewrite List.Forall_forall in Ha, Hb.
    assert (Hab : a = b).
    { assert (Hina : In a (b :: l2)).
      { apply (Permutation_in (l := a :: l1)); [exact Hp|left; reflexivity]. }
      assert (Hinb : In b (a :: l1)).
      { apply (Permutation_in (l := b :: l2));
          [symmetry; exact Hp|left; reflexivity]. }
      destruct Hina as [Hina|Hina]; [congruence|].
      destruct Hinb as [Hinb|Hinb]; [congruence|].
      specialize (Ha b Hinb). specialize (Hb a Hina). lia. }
    subst b. f_equal. apply IH; [exact H1|exact H2|].
    apply (Permutation_cons_inv (a := a)). exact Hp.
Qed.

Lemma bubble_sort_desc_canonical (l1 l2 : list Z) :
  l1 ≡ₚ l2 -> Sensors.bubble_sort_desc l1 = Sensors.bubble_sort_desc l2.
Proof.
  intros Hp. apply sorted_perm_unique; try apply bubble_sort_desc_sorted.
  rewrite !bubble_sort_desc_perm. exact Hp.
Qed.

(** An entry of a visiting order is an entry of the map. *)
Lemma visits_lookup temps order d t :
  Sensors.visits temps order -> (In (d, t) order <-> temps !! d = Some t).
Proof.
  intros Hv. unfold Sensors.visits in Hv.
  rewrite <- elem_of_map_to_list, <- Hv, list_elem_of_In. reflexivity.
Qed.

Lemma visits_value temps order t :
  Sensors.visits temps order ->
  (In t (map snd order) <-> exists d, temps !! d = Some t).
Proof.
  intros Hv. rewrite in_map_iff. split.
  - intros ([d t'] & Heq & Hin). simpl in Heq. subst t'.
    exists d. apply (visits_lookup temps order d t Hv). exact Hin.
  - intros [d Hd]. exists (d, t). split; [reflexivity|].
    apply (visits_lookup temps order d t Hv). exact Hd.
Qed.

Lemma fold_max_in (l : list Z) : forall init,
  fold_left Sensors.max_step l init = init
  \/ In (fold_left Sensors.max_step l init) l.
Proof.
  induction l as [|x l IH]; intros init; simpl.
  - left. reflexivity.
  - destruct (IH (Sensors.max_step init x)) as [H|H].
    + rewrite H. unfold Sensors.max_step.
      destruct (x >? init)%Z; [right; left; reflexivity|left; reflexivity].
    + right. right. exact H.
Qed.

Lemma fold_min_in (l : list Z) : forall init,
  fold_left Sensors.min_step l init = init
  \/ In (fold_left Sensors.min_step l init) l.
Proof.
  induction l as [|x l IH]; intros init; simpl.
  - left. reflexivity.
  - destruct (IH (Sensors.min_step init x)) as [H|H].
    + rewrite H. unfold Sensors.min_step.
      destruct (x <? init)%Z; [right; left; reflexivity|left; reflexivity].
    + right. right. exact H.
Qed.

(** X5.  The sorting loop of [GetAverageOfWarmest] sorts: its result is in
    descending order and has the entries of the slice it started from, so
    that no entry left out of the mean exceeds an entry taken. *)
Theorem bubble_sort_desc_sorts :
  forall tempSlice : list Z,
    StronglySorted Z.ge (Sensors.bubble_sort_desc tempSlice)
    /\ Sensors.bubble_sort_desc tempSlice ≡ₚ tempSlice
    /\ forall k a b,
         In a (firstn k (Sensors.bubble_sort_desc tempSlice)) ->
         In b (skipn k (Sensors.bubble_sort_desc tempSlice)) ->
         (b <= a)%Z.
Proof.
  intros tempSlice.
  split; [apply bubble_sort_desc_sorted|].
  split; [apply bubble_sort_desc_perm|].
  apply sorted_take_warmest, bubble_sort_desc_sorted.
Qed.

(** X6.  The three aggregates do not depend on the order in which [range]
    visits the map. *)
Theorem aggregates_order_independent :
  forall (temps : gmap string Z) (n : Z)
         (o1 o2 p1 p2 : list (string * Z)),
    Sensors.visits temps o1 -> Sensors.visits temps o2 ->
    Sensors.visits temps p1 -> Sensors.visits temps p2 ->
    Sensors.GetAverageOfWarmest temps o1 n = Sensors.GetAverageOfWarmest temps o2 n
    /\ Sensors.GetMaxTemperature temps o1 = Sensors.GetMaxTemperature temps o2
    /\ Sensors.GetMinTemperature temps o1 p1 = Sensors.GetMinTemperature temps o2 p2.
Proof.
  intros temps n o1 o2 p1 p2 H1 H2 Hp1 Hp2.
  assert (Hmax : forall a b, Sensors.visits temps a -> Sensors.visits temps b ->
            (Sensors.GetMaxTemperature temps a <= Sensors.GetMaxTemperature temps b)%Z).
  { intros a b Ha Hb. unfold Sensors.GetMaxTemperature.
    destruct (fold_max_in (map snd a) 0%Z) as [E|E].
    - rewrite E. apply fold_max_ge.
    - pose proof (proj2 (fold_max_ge (map snd b) 0%Z)) as Hall.
      rewrite List.Forall_forall in Hall. apply Hall.
      apply (Permutation_in (l := map snd a)); [|exact E].
      apply (visits_values_perm temps a b Ha Hb). }
  assert (Hmin : forall a b a' b', Sensors.visits temps a -> Sensors.visits temps b ->
            Sensors.visits temps a' -> Sensors.visits temps b' ->
            (Sensors.GetMinTemperature temps a a' <= Sensors.GetMinTemperature temps b b')%Z).
  { intros a b a' b' Ha Hb Ha' Hb'. unfold Sensors.GetMinTemperature.
    destruct (Sensors.len temps =? 0)%Z eqn:Hlen; [lia|].
    set (ka := match a with (k, _) :: _ => k | [] => ""%string end).
    set (kb := match b with (k, _) :: _ => k | [] => ""%string end).
    assert (Hkb : In (default 0%Z (temps !! kb)) (map snd a')).
    { destruct b as [|[k v] b].
      - apply visits_length in Hb. simpl in Hb.
        apply Z.eqb_neq in Hlen. unfold Sensors.len in Hlen. lia.
      - subst kb.
        assert (Hk : temps !! k = Some v).
        { apply (visits_lookup temps _ k v Hb). left. reflexivity. }
        rewrite Hk. simpl. apply (visits_value temps a' v Ha'). exists k. exact Hk. }
    destruct (fold_min_in (map snd b') (default 0%Z (temps !! kb))) as [E|E].
    - rewrite E.
      pose proof (proj2 (fold_min_le (map snd a') (default 0%Z (temps !! ka)))) as Hall.
      rewrite List.Forall_forall in Hall. apply Hall. exact Hkb.
    - pose proof (proj2 (fold_min_le (map snd a') (default 0%Z (temps !! ka)))) as Hall.
      rewrite List.Forall_forall in Hall. apply Hall.
      apply (Permutation_in (l := map snd b')); [|exact E].
      apply (visits_values_perm temps b' a' Hb' Ha'). }
  split; [|split].
  - unfold Sensors.GetAverageOfWarmest.
    rewrite (bubble_sort_desc_canonical (map snd o1) (map snd o2)
               (visits_values_perm temps o1 o2 H1 H2)).
    reflexivity.
  - apply Z.le_antisymm; apply Hmax; assumption.
  - apply Z.le_antisymm; apply Hmin; assumption.
Qed.

Lemma aggregates_order_independent_witness :
  Sensors.visits Samples.twoDisks [("sda"%string, 35%Z); ("sdb"%string, 40%Z)]
  /\ Sensors.visits Samples.twoDisks [("sdb"%string, 40%Z); ("sda"%string, 35%Z)]
  /\ Sensors.GetAverageOfWarmest Samples.twoDisks
       [("sda"%string, 35%Z); ("sdb"%string, 40%Z)] 1
     = Sensors.GetAverageOfWarmest Samples.twoDisks
         [("sdb"%string, 40%Z); ("sda"%string, 35%Z)] 1.
Proof.
  assert (H1 : Sensors.visits Samples.twoDisks
                 [("sda"%string, 35%Z); ("sdb"%string, 40%Z)]).
  { unfold Sensors.visits.
    let l := eval vm_compute in (map_to_list Samples.twoDisks) in
    change (map_to_list Samples.twoDisks) with l.
    first [reflexivity | apply perm_swap]. }
  assert (H2 : Sensors.visits Samples.twoDisks
                 [("sdb"%string, 40%Z); ("sda"%string, 35%Z)]).
  { unfold Sensors.visits.
    let l := eval vm_compute in (map_to_list Samples.twoDisks) in
    change (map_to_list Samples.twoDisks) with l.
    first [reflexivity | apply perm_swap]. }
  split; [exact H1|]. split; [exact H2|].
  exact (proj1 (aggregates_order_independent Samples.twoDisks 1%Z _ _ _ _
                  H1 H2 H1 H2)).
Defined.

(** X7.  [GetMaxTemperature] returns the largest reading when a reading is
    positive, and 0 otherwise: the result is never negative, bounds every
    reading, and is 0 or a reading of the map. *)
Theorem GetMaxTemperature_largest_or_zero :
  forall (temps : gmap string Z) (order : list (string * Z)),
    Sensors.visits temps order ->
    (0 <= Sensors.GetMaxTemperature temps order)%Z
    /\ (forall d t, temps !! d = Some t ->
                    (t <= Sensors.GetMaxTemperature temps order)%Z)
    /\ (Sensors.GetMaxTemperature temps order = 0%Z
        \/ exists d, temps !! d = Some (Sensors.GetMaxTemperature temps order))
    /\ (map_Forall (fun _ t => (t <= 0)%Z) temps ->
        Sensors.GetMaxTemperature temps order = 0%Z).
Proof.
  intros temps order Hv. unfold Sensors.GetMaxTemperature.
  destruct (fold_max_ge (map snd order) 0%Z) as [H0 Hall].
  rewrite List.Forall_forall in Hall.
  assert (Hin : fold_left Sensors.max_step (map snd order) 0%Z = 0%Z
                \/ exists d, temps !! d
                             = Some (fold_left Sensors.max_step (map snd order) 0%Z)).
  { destruct (fold_max_in (map snd order) 0%Z) as [E|E]; [left; exact E|].
    right. apply (visits_value temps order _ Hv). exact E. }
  split; [exact H0|]. split; [|split; [exact Hin|]].
  - intros d t Hd. apply Hall. apply (visits_value temps order t Hv).
    exists d. exact Hd.
  - intros Hneg. destruct Hin as [E|[d Hd]]; [exact E|].
    specialize (Hneg d _ Hd). simpl in Hneg. lia.
Qed.

Lemma GetMaxTemperature_largest_or_zero_witness :
  Sensors.visits {[ "sda"%string := (-5)%Z ]} [("sda"%string, (-5)%Z)]
  /\ Sensors.GetMaxTemperature {[ "sda"%string := (-5)%Z ]}
       [("sda"%string, (-5)%Z)] = 0%Z.
Proof.
  assert (Hv : Sensors.visits {[ "sda"%string := (-5)%Z ]} [("sda"%string, (-5)%Z)]).
  { unfold Sensors.visits. rewrite map_to_list_singleton. reflexivity. }
  split; [exact Hv|].
  apply (proj2 (proj2 (proj2 (GetMaxTemperature_largest_or_zero
                                {[ "sda"%string := (-5)%Z ]}
                                [("sda"%string, (-5)%Z)] Hv)))).
  apply map_Forall_singleton. lia.
Defined.

(** X8.  On a map that is not empty [GetMinTemperature] returns the least
    reading: a reading of the map that no reading is below. *)
Theorem GetMinTemperature_least :
  forall (temps : gmap string Z) (order0 order : list (string * Z)),
    Sensors.visits temps order0 -> Sensors.visits temps order ->
    temps ≠ ∅ ->
    (exists d, temps !! d = Some (Sensors.GetMinTemperature temps order0 order))
    /\ forall d t, temps !! d = Some t ->
                   (Sensors.GetMinTemperature temps order0 order <= t)%Z.
Proof.
  intros temps order0 order Hv0 Hv Hne. unfold Sensors.GetMinTemperature.
  rewrite (len_nonempty temps Hne).
  set (k := match order0 with (k, _) :: _ => k | [] => ""%string end).
  assert (Hk : exists v, temps !! k = Some v).
  { destruct order0 as [|[k0 v] rest].
    - apply visits_length in Hv0. simpl in Hv0.
      apply map_size_non_empty_iff in Hne. lia.
    - exists v. apply (visits_lookup temps _ k0 v Hv0). left. reflexivity. }
  destruct Hk as [v Hk]. rewrite Hk. simpl.
  destruct (fold_min_le (map snd order) v) as [_ Hall].
  rewrite List.Forall_forall in Hall.
  split.
  - destruct (fold_min_in (map snd order) v) as [E|E].
    + rewrite E. exists k. exact Hk.
    + apply (visits_value temps order _ Hv). exact E.
  - intros d t Hd. apply Hall. apply (visits_value temps order t Hv).
    exists d. exact Hd.
Qed.

Lemma GetMinTemperature_least_witness :
  Sensors.visits Samples.sixDisks (map_to_list Samples.sixDisks)
  /\ Samples.sixDisks ≠ ∅
  /\ exists d, Samples.sixDisks !! d
               = Some (Sensors.GetMinTemperature Samples.sixDisks
                         (map_to_list Samples.sixDisks)
                         (map_to_list Samples.sixDisks)).
Proof.
  assert (Hv : Sensors.visits Samples.sixDisks (map_to_list Samples.sixDisks))
    by (unfold Sensors.visits; reflexivity).
  split; [exact Hv|]. split; [exact sixDisks_nonempty|].
  exact (proj1 (GetMinTemperature_least Samples.sixDisks _ _ Hv Hv
                  sixDisks_nonempty)).
Defined.

Lemma Zsum_app (l1 l2 : list Z) :
  Slice.Zsum (l1 ++ l2) = (Slice.Zsum l1 + Slice.Zsum l2)%Z.
Proof. induction l1 as [|x l1 IH]; simpl; [reflexivity|]. rewrite IH. lia. Qed.

(** In a slice sorted in descending order the mean of the first [k]
    entries does not exceed the mean of the first [j <= k] entries; the
    means are compared after cross-multiplication. *)
Lemma prefix_mean_antitone (l : list Z) (j k : nat) :
  StronglySorted Z.ge l ->
  (1 <= j <= k)%nat -> (k <= length l)%nat ->
  (Slice.Zsum (firstn k l) * Z.of_nat j <= Slice.Zsum (firstn j l) * Z.of_nat k)%Z.
Proof.
  intros Hs Hjk Hk.
  assert (Hsplit : firstn k l = firstn j l ++ firstn (k - j) (skipn j l)).
  { rewrite <- (firstn_skipn j (firstn k l)) at 1.
    rewrite firstn_firstn, Nat.min_l by lia.
    f_equal. replace k with (j + (k - j))%nat at 1 by lia.
    symmetry. apply firstn_skipn_comm. }
  rewrite Hsplit, Zsum_app.
  set (Sj := Slice.Zsum (firstn j l)).
  set (tail := firstn (k - j) (skipn j l)).
  assert (Hlenj : length (firstn j l) = j) by (rewrite length_take; lia).
  assert (Htail : Forall (fun x => (x * Z.of_nat j <= Sj)%Z) tail).
  { apply List.Forall_forall. intros x Hx.
    assert (Hx' : In x (skipn j l)).
    { subst tail. rewrite <- (firstn_skipn (k - j) (skipn j l)).
      apply in_or_app. left. exact Hx. }
    rewrite <- Hlenj at 1. subst Sj.
    assert (Hlow : Forall (fun t => (x <= t)%Z) (firstn j l)).
    { apply List.Forall_forall. intros a Ha.
      apply (sorted_take_warmest l Hs j a x Ha Hx'). }
    clear - Hlow. induction Hlow as [|a r Ha Hr IH]; simpl; [lia|].
    rewrite Nat2Z.inj_succ. lia. }
  assert (Hlent : length tail = (k - j)%nat).
  { subst tail. rewrite length_take, length_drop. lia. }
  assert (Hsum : (Slice.Zsum tail * Z.of_nat j <= Z.of_nat (length tail) * Sj)%Z).
  { clear - Htail. induction Htail as [|x r Hx Hr IH]; simpl; [lia|].
    rewrite Nat2Z.inj_succ. lia. }
  rewrite Hlent in Hsum. rewrite Nat2Z.inj_sub in Hsum by lia. lia.
Qed.

(** Quotients of exact conversions keep the order of the fractions:
    rounding is monotone. *)
Lemma of_int_div_le a b j k :
  (0 < j <= 2 ^ 53)%Z -> (0 < k <= 2 ^ 53)%Z ->
  (Z.abs a <= 2 ^ 53)%Z -> (Z.abs b <= 2 ^ 53)%Z ->
  (a * j <= b * k)%Z ->
  (of_int a / of_int k <=? of_int b / of_int j) = true.
Proof.
  intros Hj Hk Ha Hb H.
  rewrite (of_int_exact a Ha), (of_int_exact b Hb),
    (of_int_exact j), (of_int_exact k) by lia.
  unfold F64.div. rewrite !inject_Z_pos by lia.
  apply round_mono.
  assert (Hj0 : (0 < j)%Z) by lia. assert (Hk0 : (0 < k)%Z) by lia.
  clear Hj Hk Ha Hb.
  destruct j as [|j|j]; try lia. destruct k as [|k|k]; try lia.
  unfold Qle, Qdiv, Qmult, Qinv, inject_Z. simpl. lia.
Qed.

(** The sum of the entries taken is exact when the readings fit: it does
    not wrap around and is at most [2^53] in absolute value. *)
Lemma sum_first_exact temps order take :
  Sensors.visits temps order -> Slice.fits temps ->
  Sensors.sum_first (Sensors.bubble_sort_desc (map snd order)) take
  = Slice.Zsum (firstn (Z.to_nat take)
                  (Sensors.bubble_sort_desc (map snd order)))
  /\ (Z.abs (Slice.Zsum (firstn (Z.to_nat take)
                          (Sensors.bubble_sort_desc (map snd order))))
      <= 2 ^ 53)%Z
  /\ (Z.of_nat (size temps) <= 2 ^ 53)%Z.
Proof.
  intros Hv (bound & Hb1 & Hfit & Hsize). unfold Sensors.sum_first.
  set (sorted := Sensors.bubble_sort_desc (map snd order)).
  assert (Hperm : sorted ≡ₚ map snd order) by apply bubble_sort_desc_perm.
  assert (Hrange : Forall (fun t => (Z.abs t <= bound)%Z) sorted).
  { eapply Permutation_Forall; [symmetry; exact Hperm|].
    apply (visits_values_Forall _ temps order Hv Hfit). }
  assert (Hlen : length sorted = size temps).
  { rewrite (Permutation_length Hperm), length_map. apply visits_length, Hv. }
  assert (Hr : Forall (fun t => (Z.abs t <= bound)%Z) (firstn (Z.to_nat take) sorted))
    by (apply Forall_take; exact Hrange).
  assert (Hl : (length (firstn (Z.to_nat take) sorted) <= size temps)%nat).
  { rewrite length_take. lia. }
  pose proof (Zsum_abs _ bound Hr) as Habs.
  split; [|split].
  - rewrite (fold_add_no_wrap bound); [lia|exact Hr|].
    unfold GoInt.max_int. simpl Z.abs. nia.
  - nia.
  - nia.
Qed.

(** X9.  With readings whose sums are exact (every reading within a bound
    whose product with the number of disks is at most [2^53]), averaging
    over more of the warmest disks never raises the mean:
    [GetAverageOfWarmest temps m <= GetAverageOfWarmest temps n] for
    [1 <= n <= m].  With three disks at [2^53 + 1] the sums are rounded and
    the mean of the three, [2^53 + 2], is above the mean of two, [2^53]. *)
Theorem GetAverageOfWarmest_antitone :
  (forall (temps : gmap string Z) (order : list (string * Z)) (n m : Z),
     Sensors.visits temps order -> Slice.fits temps ->
     (1 <= n <= m)%Z ->
     (Sensors.GetAverageOfWarmest temps order m
      <=? Sensors.GetAverageOfWarmest temps order n) = true)
  /\ (Sensors.GetAverageOfWarmest Cases.roundedDisks
        (map_to_list Cases.roundedDisks) 3 = Fin (inject_Z (2 ^ 53 + 2))
      /\ Sensors.GetAverageOfWarmest Cases.roundedDisks
           (map_to_list Cases.roundedDisks) 2 = Fin (inject_Z (2 ^ 53))
      /\ (Sensors.GetAverageOfWarmest Cases.roundedDisks
            (map_to_list Cases.roundedDisks) 3
          <=? Sensors.GetAverageOfWarmest Cases.roundedDisks
                (map_to_list Cases.roundedDisks) 2) = false).
Proof.
  split; [|repeat split; vm_compute; reflexivity].
  intros temps order n m Hv Hfit Hnm.
  unfold Sensors.GetAverageOfWarmest.
  destruct (Sensors.len temps =? 0)%Z eqn:Hlen; [reflexivity|].
  cbv zeta.
  destruct (sum_first_exact temps order
              (if (Z.of_nat (length (Sensors.bubble_sort_desc (map snd order)))
                   <? m)%Z
               then Z.of_nat (length (Sensors.bubble_sort_desc (map snd order)))
               else m) Hv Hfit) as (Em & Bm & Hsize).
  destruct (sum_first_exact temps order
              (if (Z.of_nat (length (Sensors.bubble_sort_desc (map snd order)))
                   <? n)%Z
               then Z.of_nat (length (Sensors.bubble_sort_desc (map snd order)))
               else n) Hv Hfit) as (En & Bn & _).
  rewrite Em, En. revert Bm Bn. clear Em En.
  set (sorted := Sensors.bubble_sort_desc (map snd order)).
  intros Bm Bn.
  assert (Hsorted : StronglySorted Z.ge sorted) by apply bubble_sort_desc_sorted.
  assert (Hlen' : length sorted = size temps).
  { subst sorted. rewrite (Permutation_length (bubble_sort_desc_perm _)), length_map.
    apply (visits_length temps order Hv). }
  assert (Hpos : (1 <= Z.of_nat (length sorted))%Z).
  { rewrite Hlen'. apply Z.eqb_neq in Hlen. unfold Sensors.len in Hlen. lia. }
  revert Bm Bn.
  set (tn := if (Z.of_nat (length sorted) <? n)%Z
             then Z.of_nat (length sorted) else n).
  set (tm := if (Z.of_nat (length sorted) <? m)%Z
             then Z.of_nat (length sorted) else m).
  intros Bm Bn.
  assert (Htn : (1 <= tn <= tm)%Z /\ (tm <= Z.of_nat (length sorted))%Z).
  { subst tn tm.
    destruct (Z.ltb_spec (Z.of_nat (length sorted)) n);
      destruct (Z.ltb_spec (Z.of_nat (length sorted)) m); lia. }
  apply of_int_div_le; [lia|lia|exact Bm|exact Bn|].
  pose proof (prefix_mean_antitone sorted (Z.to_nat tn) (Z.to_nat tm) Hsorted) as H.
  rewrite !Z2Nat.id in H by lia. apply H; lia.
Qed.

Lemma GetAverageOfWarmest_antitone_witness :
  Sensors.visits Samples.sixDisks (map_to_list Samples.sixDisks)
  /\ Slice.fits Samples.sixDisks
  /\ (1 <= 3 <= 4)%Z
  /\ (Sensors.GetAverageOfWarmest Samples.sixDisks
        (map_to_list Samples.sixDisks) 4
      <=? Sensors.GetAverageOfWarmest Samples.sixDisks
            (map_to_list Samples.sixDisks) 3) = true.
Proof.
  assert (Hv : Sensors.visits Samples.sixDisks (map_to_list Samples.sixDisks))
    by (unfold Sensors.visits; reflexivity).
  assert (Hn : (1 <= 3 <= 4)%Z) by lia.
  split; [exact Hv|]. split; [exact sixDisks_fits|]. split; [exact Hn|].
  exact (proj1 GetAverageOfWarmest_antitone Samples.sixDisks _ 3%Z 4%Z Hv
           sixDisks_fits Hn).
Defined.

(** ** Further properties of the fan actuator *)

Lemma sleeps_cons e tr :
  Trace.sleeps (e :: tr)
  = Trace.sleeps tr ++ match e with Sys.EvSleep d => [d] | _ => [] end.
Proof.
  unfold Trace.sleeps. simpl. rewrite rev_app_distr.
  destruct e; simpl; rewrite ?app_nil_r; reflexivity.
Qed.

Lemma errors_cons e tr :
  Trace.errors (e :: tr)
  = Trace.errors tr ++ match e with Sys.EvRecordError t => [t] | _ => [] end.
Proof.
  unfold Trace.errors. simpl. rewrite rev_app_distr.
  destruct e; simpl; rewrite ?app_nil_r; reflexivity.
Qed.

(** One round of the retry loop of [SetAllFans]. *)
Lemma attempts_step args remaining attempt lastErr w :
  IPMI.attempts args (S remaining) attempt lastErr w
  = if Sys.outcomes w (Sys.nexec w)
    then (None,
          {| Sys.outcomes := Sys.outcomes w; Sys.nexec := S (Sys.nexec w);
             Sys.trace := Sys.EvExec "ipmitool" args :: Sys.trace w |})
    else IPMI.attempts args remaining (attempt + 1)%Z (Some attempt)
           {| Sys.outcomes := Sys.outcomes w; Sys.nexec := S (Sys.nexec w);
              Sys.trace :=
                (if (attempt <? 3)%Z
                 then [Sys.EvSleep (2 * GoTime.Second)%Z] else [])
                ++ Sys.EvExec "ipmitool" args :: Sys.trace w |}.
Proof.
  cbn [IPMI.attempts]. unfold Sys.bind, Sys.exec, Sys.sleep, Sys.emit, Sys.ret.
  destruct (Sys.outcomes w (Sys.nexec w)); [reflexivity|].
  destruct (attempt <? 3)%Z; reflexivity.
Qed.

(** X10.  The retry policy of [SetAllFans] for a duty within 0-100: it
    runs [ipmitool] until a run succeeds, at most three times and each time
    with the same arguments, sleeps two seconds after a failed run except
    the third, returns [nil] when one of the runs succeeded and the error
    of the third attempt otherwise. *)
Theorem SetAllFans_retry_policy :
  forall d w,
    (0 <= d <= 100)%Z ->
    let o1 := Sys.outcomes w (Sys.nexec w) in
    let o2 := Sys.outcomes w (S (Sys.nexec w)) in
    let o3 := Sys.outcomes w (S (S (Sys.nexec w))) in
    let runs := if o1 then 1%nat else if o2 then 2%nat else 3%nat in
    let r := IPMI.SetAllFans d w in
    fst r = (if o1 || o2 || o3 then None
             else Some (IPMI.IPMICommandFailed (Some 3%Z)))
    /\ Sys.nexec (snd r) = (Sys.nexec w + runs)%nat
    /\ Sys.invocations (Sys.trace (snd r))
       = Sys.invocations (Sys.trace w) ++ repeat (IPMI.encode d) runs
    /\ Trace.sleeps (Sys.trace (snd r))
       = Trace.sleeps (Sys.trace w)
         ++ repeat (2 * GoTime.Second)%Z (if o1 || o2 || o3 then runs - 1 else 2)
    /\ Trace.errors (Sys.trace (snd r)) = Trace.errors (Sys.trace w).
Proof.
  intros d w Hd. cbv zeta.
  unfold IPMI.SetAllFans, Sys.bind, Sys.emit.
  assert (Hrange : ((d <? 0) || (d >? 100))%Z = false).
  { apply orb_false_iff. split; [apply Z.ltb_ge; lia|].
    rewrite Z.gtb_ltb. apply Z.ltb_ge. lia. }
  rewrite Hrange. cbn [fst snd].
  rewrite attempts_step. cbn [Sys.outcomes Sys.nexec Sys.trace].
  destruct (Sys.outcomes w (Sys.nexec w)) eqn:E1.
  { cbn [fst snd Sys.nexec Sys.trace orb repeat Nat.sub].
    rewrite invocations_cons, sleeps_cons, errors_cons.
    rewrite invocations_cons, sleeps_cons, errors_cons.
    rewrite !app_nil_r.
    split; [reflexivity|]. split; [lia|]. repeat split; reflexivity. }
  change (1 <? 3)%Z with true. cbv iota.
  rewrite attempts_step. cbn [Sys.outcomes Sys.nexec Sys.trace app].
  destruct (Sys.outcomes w (S (Sys.nexec w))) eqn:E2.
  { cbn [fst snd Sys.nexec Sys.trace orb repeat Nat.sub].
    rewrite !invocations_cons, !sleeps_cons, !errors_cons.
    rewrite !app_nil_r, <- !app_assoc.
    split; [reflexivity|]. split; [lia|]. repeat split; reflexivity. }
  change (1 + 1 <? 3)%Z with true. cbv iota.
  rewrite attempts_step. cbn [Sys.outcomes Sys.nexec Sys.trace app].
  destruct (Sys.outcomes w (S (S (Sys.nexec w)))) eqn:E3.
  { cbn [fst snd Sys.nexec Sys.trace orb repeat Nat.sub].
    rewrite !invocations_cons, !sleeps_cons, !errors_cons.
    rewrite !app_nil_r, <- !app_assoc.
    split; [reflexivity|]. split; [lia|]. repeat split; reflexivity. }
  change (1 + 1 + 1 <? 3)%Z with false. cbv iota.
  cbn [IPMI.attempts Sys.ret fst snd Sys.nexec Sys.trace orb repeat Nat.sub app].
  rewrite !invocations_cons, !sleeps_cons, !errors_cons.
  rewrite !app_nil_r, <- !app_assoc.
  split; [reflexivity|]. split; [lia|]. repeat split; reflexivity.
Qed.

Lemma SetAllFans_retry_policy_witness :
  (0 <= 50 <= 100)%Z
  /\ fst (IPMI.SetAllFans 50 (Samples.failingFirst 2)) = None
  /\ Sys.nexec (snd (IPMI.SetAllFans 50 (Samples.failingFirst 2))) = 3%nat
  /\ fst (IPMI.SetAllFans 50 Samples.failingWorld)
     = Some (IPMI.IPMICommandFailed (Some 3%Z)).
Proof.
  assert (Hd : (0 <= 50 <= 100)%Z) by lia.
  split; [exact Hd|].
  split; [exact (proj1 (SetAllFans_retry_policy 50 (Samples.failingFirst 2) Hd))|].
  split; [exact (proj1 (proj2 (SetAllFans_retry_policy 50
                                 (Samples.failingFirst 2) Hd)))|].
  exact (proj1 (SetAllFans_retry_policy 50 Samples.failingWorld Hd)).
Defined.

(** X11.  Two duties within 0-100 that differ give different argument
    vectors: the command [ipmitool] is run with determines the duty. *)
Theorem distinct_duties_distinct_commands :
  forall d1 d2,
    (0 <= d1 <= 100)%Z -> (0 <= d2 <= 100)%Z -> d1 <> d2 ->
    IPMI.encode d1 <> IPMI.encode d2.
Proof.
  intros d1 d2 H1 H2 Hne Heq. apply Hne.
  assert (Hs : IPMI.sprintf_0x02x d1 = IPMI.sprintf_0x02x d2).
  { unfold IPMI.encode in Heq. simpl in Heq. congruence. }
  assert (Hall :
            forallb (fun a =>
              forallb (fun b =>
                implb (String.eqb (IPMI.sprintf_0x02x (Z.of_nat a))
                         (IPMI.sprintf_0x02x (Z.of_nat b)))
                      (a =? b)%nat) (seq 0 101)) (seq 0 101) = true)
    by (vm_compute; reflexivity).
  rewrite forallb_forall in Hall.
  specialize (Hall (Z.to_nat d1)).
  rewrite in_seq in Hall. specialize (Hall ltac:(lia)).
  rewrite forallb_forall in Hall.
  specialize (Hall (Z.to_nat d2)).
  rewrite in_seq in Hall. specialize (Hall ltac:(lia)).
  rewrite !Z2Nat.id in Hall by lia.
  rewrite Hs, String.eqb_refl in Hall. simpl in Hall.
  apply Nat.eqb_eq in Hall. lia.
Qed.

Lemma distinct_duties_distinct_commands_witness :
  (0 <= 30 <= 100)%Z /\ (0 <= 100 <= 100)%Z /\ (30 <> 100)%Z
  /\ IPMI.encode 30 <> IPMI.encode 100.
Proof.
  assert (H1 : (0 <= 30 <= 100)%Z) by lia.
  assert (H2 : (0 <= 100 <= 100)%Z) by lia.
  assert (Hne : (30 <> 100)%Z) by lia.
  split; [exact H1|]. split; [exact H2|]. split; [exact Hne|].
  exact (distinct_duties_distinct_commands 30 100 H1 H2 Hne).
Defined.

(** ** Further properties of the configuration *)

Lemma default_float_idem (x d : float64) :
  (d =? zero) = false ->
  (if (if x =? zero then d else x) =? zero then d
   else (if x =? zero then d else x))
  = (if x =? zero then d else x).
Proof.
  intros Hd. destruct (x =? zero) eqn:E; [rewrite Hd|rewrite E]; reflexivity.
Qed.

Lemma default_int_idem (x d : Z) :
  (d =? 0)%Z = false ->
  (if ((if (x =? 0)%Z then d else x) =? 0)%Z then d
   else (if (x =? 0)%Z then d else x))
  = (if (x =? 0)%Z then d else x).
Proof.
  intros Hd. destruct (x =? 0)%Z eqn:E; [rewrite Hd|rewrite E]; reflexivity.
Qed.

(** X12.  [setDefaults] is idempotent: a second application changes
    nothing, since no default is itself a zero value. *)
Theorem setDefaults_idempotent :
  forall config, Cfg.setDefaults (Cfg.setDefaults config) = Cfg.setDefaults config.
Proof.
  intros [[port level] [target maxHDD maxCPU poll warmest] [minD maxD startD]
          [kp ki kd imax] [patterns]].
  unfold Cfg.setDefaults. simpl.
  rewrite !default_float_idem by reflexivity.
  rewrite !default_int_idem by reflexivity.
  f_equal.
  - f_equal. destruct (String.eqb level "") eqn:E; [reflexivity|].
    rewrite E. reflexivity.
  - f_equal. destruct patterns; reflexivity.
Qed.

(** What [Validate] leaves possible for a [float64] that is not zero and
    not negative: it is NaN or positive. *)
Lemma nonzero_nonnegative (x : float64) :
  (x =? zero) = false -> (x <? zero) = false ->
  is_nan x = true \/ (zero <? x) = true.
Proof.
  destruct x as [q| | |]; simpl; intros Hz Hn; auto; try discriminate.
  right. apply negb_false_iff, Qle_bool_iff in Hn.
  apply negb_true_iff. destruct (Qle_bool q 0) eqn:E; [|reflexivity].
  apply Qle_bool_iff in E. exfalso.
  assert (Hq : q == 0) by (apply Qle_antisym; assumption).
  apply Qeq_bool_iff in Hq. congruence.
Qed.

Lemma not_nonpositive (x : float64) :
  (x <=? zero) = false -> is_nan x = true \/ (zero <? x) = true.
Proof.
  destruct x as [q| | |]; simpl; intros H; auto; try discriminate.
  right. rewrite H. reflexivity.
Qed.

(** X13.  Every configuration [LoadConfig] returns has duties with
    [1 <= MinDuty < MaxDuty <= 100] and [1 <= StartupDuty <= 100], at
    least one warmest disk, a positive poll interval, a port within
    1-65535, one of the four log levels and some exclude pattern; each of
    its limits and gains is positive unless it is NaN.  In particular a
    duty or a gain of 0 cannot be configured. *)
Theorem LoadConfig_result_invariants :
  forall readFile unmarshal path c,
    Cfg.LoadConfig readFile unmarshal path = inl c ->
    ((1 <= Cfg.MinDuty (Cfg.Fans c) < Cfg.MaxDuty (Cfg.Fans c))%Z
     /\ (Cfg.MaxDuty (Cfg.Fans c) <= 100)%Z
     /\ (1 <= Cfg.StartupDuty (Cfg.Fans c) <= 100)%Z
     /\ (1 <= Cfg.WarmestDisks (Cfg.Temperature c))%Z
     /\ (1 <= Cfg.PollInterval (Cfg.Temperature c))%Z
     /\ (1 <= Cfg.MetricsPort (Cfg.Server c) <= 65535)%Z
     /\ In (Cfg.LogLevel (Cfg.Server c)) ["debug"; "info"; "warn"; "error"]%string
     /\ Cfg.ExcludePatterns (Cfg.Disks c) <> [])
    /\ (Forall (fun x => is_nan x = true \/ (zero <? x) = true)
          [Cfg.TargetHDD (Cfg.Temperature c); Cfg.MaxHDD (Cfg.Temperature c);
           Cfg.MaxCPU (Cfg.Temperature c); Cfg.Kp (Cfg.PID c); Cfg.Ki (Cfg.PID c);
           Cfg.Kd (Cfg.PID c); Cfg.IntegralMax (Cfg.PID c)]
        /\ (is_nan (Cfg.TargetHDD (Cfg.Temperature c)) = false ->
            is_nan (Cfg.MaxHDD (Cfg.Temperature c)) = false ->
            (Cfg.TargetHDD (Cfg.Temperature c) <? Cfg.MaxHDD (Cfg.Temperature c))
            = true)).
Proof.
  intros readFile unmarshal path c H. unfold Cfg.LoadConfig in H.
  destruct (readFile path) as [data|]; [|discriminate].
  destruct (unmarshal data) as [parsed|]; [|discriminate].
  destruct (Cfg.Validate (Cfg.setDefaults parsed)) eqn:Hval; [discriminate|].
  injection H as <-.
  split.
  - pose proof (setDefaults_MinDuty_nonzero parsed) as Hmin.
    assert (Hstart : Cfg.StartupDuty (Cfg.Fans (Cfg.setDefaults parsed)) <> 0%Z).
    { simpl. destruct (Z.eqb_spec (Cfg.StartupDuty (Cfg.Fans parsed)) 0); lia. }
    assert (Hpat : Cfg.ExcludePatterns (Cfg.Disks (Cfg.setDefaults parsed)) <> []).
    { simpl. destruct (Cfg.ExcludePatterns (Cfg.Disks parsed)); discriminate. }
    unfold Cfg.Validate in Hval.
    repeat match type of Hval with
           | (if ?b then _ else _) = None =>
               let E := fresh "E" in
               destruct b eqn:E; [discriminate|]
           end.
    repeat match goal with
           | H : (_ || _) = false |- _ => apply orb_false_iff in H; destruct H
           end.
    repeat match goal with
           | H : (_ <? _)%Z = false |- _ => apply Z.ltb_ge in H
           | H : (_ <=? _)%Z = false |- _ => apply Z.leb_gt in H
           | H : (_ >? _)%Z = false |- _ => rewrite Z.gtb_ltb in H; apply Z.ltb_ge in H
           | H : (_ >=? _)%Z = false |- _ => rewrite Z.geb_leb in H; apply Z.leb_gt in H
           end.
    repeat (split; [lia|]). split; [|exact Hpat].
    match goal with
    | H : _ && _ = false |- _ => rename H into Hlevel
    end.
    set (level := Cfg.LogLevel (Cfg.Server (Cfg.setDefaults parsed))) in *.
    simpl.
    destruct (String.eqb_spec level "debug"); [left; congruence|].
    destruct (String.eqb_spec level "info"); [right; left; congruence|].
    destruct (String.eqb_spec level "warn"); [right; right; left; congruence|].
    destruct (String.eqb_spec level "error");
      [right; right; right; left; congruence|].
    discriminate.
  - assert (Hz : forall x d, (d =? zero) = false ->
                   ((if x =? zero then d else x) =? zero) = false).
    { intros x d Hd. destruct (x =? zero) eqn:E; assumption. }
    unfold Cfg.Validate in Hval.
    repeat match type of Hval with
           | (if ?b then _ else _) = None =>
               let E := fresh "E" in
               destruct b eqn:E; [discriminate|]
           end.
    clear Hval. split.
    + repeat (apply List.Forall_cons;
              [first [apply not_nonpositive; assumption
                     |apply nonzero_nonnegative;
                      [apply Hz; reflexivity|assumption]]|]).
      apply List.Forall_nil.
    + intros Ht Hm.
      match goal with
      | H : (_ >=? _) = false |- _ => rename H into Hge
      end.
      unfold F64.geb in Hge.
      destruct (Cfg.TargetHDD (Cfg.Temperature (Cfg.setDefaults parsed)))
        as [t| | |]; try discriminate;
        destruct (Cfg.MaxHDD (Cfg.Temperature (Cfg.setDefaults parsed)))
          as [m| | |]; try discriminate; simpl in *; try reflexivity.
      rewrite Hge. reflexivity.
Qed.

Lemma LoadConfig_result_invariants_witness :
  Cfg.LoadConfig (fun _ => Some ""%string) (fun _ => Some Samples.zeroConfig)
    "/config/config.yaml" = inl (Cfg.setDefaults Samples.zeroConfig)
  /\ (1 <= Cfg.MinDuty (Cfg.Fans (Cfg.setDefaults Samples.zeroConfig))
      < Cfg.MaxDuty (Cfg.Fans (Cfg.setDefaults Samples.zeroConfig)))%Z.
Proof.
  assert (H : Cfg.LoadConfig (fun _ => Some ""%string)
                (fun _ => Some Samples.zeroConfig) "/config/config.yaml"
              = inl (Cfg.setDefaults Samples.zeroConfig)) by reflexivity.
  split; [exact H|].
  exact (proj1 (proj1 (LoadConfig_result_invariants _ _ _ _ H))).
Defined.

(** X14.  [setDefaults] and [Validate] let a CPU limit that is NaN pass:
    the default is not applied to it, [Validate] returns for it what it
    returns for the limit 75, and [LoadConfig] returns the sample
    configuration with such a limit.  With it [checkEmergencyConditions]
    never reports a CPU emergency, however hot the CPU is. *)
Theorem NaN_MaxCPU_disables_cpu_emergency :
  forall server target maxHDD poll warmest fans pid disks,
    let config limit :=
      {| Cfg.Server := server;
         Cfg.Temperature :=
           {| Cfg.TargetHDD := target; Cfg.MaxHDD := maxHDD;
              Cfg.MaxCPU := limit; Cfg.PollInterval := poll;
              Cfg.WarmestDisks := warmest |};
         Cfg.Fans := fans; Cfg.PID := pid; Cfg.Disks := disks |} in
    Cfg.MaxCPU (Cfg.Temperature (Cfg.setDefaults (config NaN))) = NaN
    /\ Cfg.Validate (config NaN) = Cfg.Validate (config (Fin 75))
    /\ (forall cpuTemp maxDiskTemp,
          Loop.checkEmergencyConditions cpuTemp maxDiskTemp (config NaN)
          <> "cpu_temp"%string)
    /\ Cfg.LoadConfig (fun _ => Some ""%string) (fun _ => Some Cases.nanCPULimit)
         "/config/config.yaml" = inl Cases.nanCPULimit
    /\ Loop.checkEmergencyConditions PosInf 40 Cases.nanCPULimit = ""%string.
Proof.
  intros server target maxHDD poll warmest fans pid disks. cbv zeta.
  split; [reflexivity|]. split; [reflexivity|]. split; [|split].
  - intros cpuTemp maxDiskTemp. unfold Loop.checkEmergencyConditions.
    cbn [Cfg.MaxCPU Cfg.MaxHDD Cfg.Temperature].
    replace (cpuTemp >? NaN) with false by (destruct cpuTemp; reflexivity).
    destruct (of_int maxDiskTemp >? maxHDD); discriminate.
  - vm_compute. reflexivity.
  - vm_compute. reflexivity.
Qed.

(** ** Further properties of the control loop *)

(** The four ways the actuation block can end. *)
Lemma actuate_cases dryRun reason fanDuty failures w :
  (dryRun = true
   /\ Loop.actuate dryRun reason fanDuty failures w = ((reason, fanDuty, failures), w))
  \/ (dryRun = false
      /\ exists w',
           (Loop.actuate dryRun reason fanDuty failures w
            = ((reason, fanDuty, 0%Z), w')
            /\ Sys.commanded (Sys.trace w')
               = Sys.commanded (Sys.trace w) ++ [fanDuty])
           \/ (Loop.actuate dryRun reason fanDuty failures w
               = ((reason, fanDuty, GoInt.add failures 1), w')
               /\ Sys.commanded (Sys.trace w')
                  = Sys.commanded (Sys.trace w) ++ [fanDuty])
           \/ (Loop.actuate dryRun reason fanDuty failures w
               = (("ipmi_failure"%string, 100%Z, GoInt.add failures 1), w')
               /\ Sys.commanded (Sys.trace w')
                  = Sys.commanded (Sys.trace w) ++ [fanDuty; 100%Z])).
Proof.
  destruct dryRun; [left; split; reflexivity|right; split; [reflexivity|]].
  destruct (fst (IPMI.SetAllFans fanDuty w)) as [err|] eqn:Hset.
  - assert (Hne : fst (IPMI.SetAllFans fanDuty w) <> None) by congruence.
    destruct (GoInt.add failures 1 <? Loop.maxIPMIFailures)%Z eqn:Hlt.
    + destruct (actuate_failure_below reason fanDuty failures w Hne Hlt)
        as (w' & Ha & Hc & _).
      exists w'. right. left. split; assumption.
    + assert (Hge : (GoInt.add failures 1 >=? Loop.maxIPMIFailures)%Z = true).
      { rewrite Z.geb_leb. apply Z.leb_le. apply Z.ltb_ge in Hlt. exact Hlt. }
      destruct (actuate_failure_threshold reason fanDuty failures w Hne Hge)
        as (w' & Ha & Hc & _).
      exists w'. right. right. split; assumption.
  - exists (snd (IPMI.SetAllFans fanDuty w)). left.
    split; [apply actuate_success; exact Hset|].
    apply SetAllFans_effect.
Qed.

(** The duty selected in normal mode lies within the configured limits. *)
Lemma selectDuty_range config pid reason avgTemp now :
  (Cfg.MinDuty (Cfg.Fans config) <= Cfg.MaxDuty (Cfg.Fans config))%Z ->
  let fanDuty := fst (fst (Loop.selectDuty config pid reason avgTemp now)) in
  fanDuty = 100%Z
  \/ (Cfg.MinDuty (Cfg.Fans config) <= fanDuty <= Cfg.MaxDuty (Cfg.Fans config))%Z.
Proof.
  intros Hle. unfold Loop.selectDuty.
  destruct (negb (String.eqb reason "")); [left; reflexivity|].
  destruct (PID.Calculate pid avgTemp now) as [[output terms] pid'].
  cbv zeta. cbn [fst].
  right.
  destruct (Z.ltb_spec (to_int output) (Cfg.MinDuty (Cfg.Fans config)));
    match goal with
    | |- context [(?a >? ?b)%Z] => destruct (Z.gtb_spec a b)
    end; lia.
Qed.

(** An iteration whose reading failed. *)
Lemma tick_no_reading config dryRun inp st w :
  Loop.reading inp = None ->
  Loop.tick config dryRun inp st w
  = (st, {| Sys.outcomes := Sys.outcomes w; Sys.nexec := Sys.nexec w;
            Sys.trace :=
              Sys.EvSleep (Cfg.PollInterval (Cfg.Temperature config))
              :: Sys.EvRecordError "temperature" :: Sys.trace w |}).
Proof. intros H. unfold Loop.tick. rewrite H. reflexivity. Qed.

(** The duties an iteration commands. *)
Lemma tick_commands config dryRun inp st w :
  (Cfg.MinDuty (Cfg.Fans config) <= Cfg.MaxDuty (Cfg.Fans config))%Z ->
  exists cmds,
    Sys.commanded (Sys.trace (snd (Loop.tick config dryRun inp st w)))
    = Sys.commanded (Sys.trace w) ++ cmds
    /\ (dryRun = true -> cmds = [])
    /\ Forall (fun d => d = 100%Z
                        \/ (Cfg.MinDuty (Cfg.Fans config) <= d
                            <= Cfg.MaxDuty (Cfg.Fans config))%Z) cmds.
Proof.
  intros Hle. destruct (Loop.reading inp) as [[diskTemps cpuTemp]|] eqn:Hr.
  - destruct (tick_reading config dryRun inp st w diskTemps cpuTemp Hr)
      as (_ & _ & Hc).
    cbv zeta in Hc. rewrite Hc. clear Hc.
    set (reason := Loop.checkEmergencyConditions cpuTemp
                     (Sensors.GetMaxTemperature diskTemps (Loop.order_max inp)) config).
    set (avg := Sensors.GetAverageOfWarmest diskTemps (Loop.order_avg inp)
                  (Cfg.WarmestDisks (Cfg.Temperature config))).
    pose proof (selectDuty_range config (Loop.pid st) reason avg (Loop.now inp) Hle)
      as Hd. cbv zeta in Hd.
    set (fanDuty := fst (fst (Loop.selectDuty config (Loop.pid st) reason avg
                                (Loop.now inp)))) in *.
    destruct (actuate_cases dryRun reason fanDuty (Loop.consecutiveIPMIFailures st) w)
      as [[Hdry Ha]|[Hdry (w' & [[Ha Hc]|[[Ha Hc]|[Ha Hc]]])]]; rewrite Ha; cbn [snd].
    + exists []. rewrite app_nil_r. repeat split. constructor.
    + exists [fanDuty]. split; [exact Hc|]. split; [congruence|].
      constructor; [exact Hd|constructor].
    + exists [fanDuty]. split; [exact Hc|]. split; [congruence|].
      constructor; [exact Hd|constructor].
    + exists [fanDuty; 100%Z]. split; [exact Hc|]. split; [congruence|].
      constructor; [exact Hd|]. constructor; [left; reflexivity|constructor].
  - rewrite (tick_no_reading config dryRun inp st w Hr). cbn [snd Sys.trace].
    exists []. rewrite !commanded_cons, !app_nil_r. repeat split. constructor.
Qed.

Lemma ticks_commands config dryRun inps : forall st w,
  (Cfg.MinDuty (Cfg.Fans config) <= Cfg.MaxDuty (Cfg.Fans config))%Z ->
  exists cmds,
    Sys.commanded (Sys.trace (snd (Loop.ticks config dryRun inps st w)))
    = Sys.commanded (Sys.trace w) ++ cmds
    /\ (dryRun = true -> cmds = [])
    /\ Forall (fun d => d = 100%Z
                        \/ (Cfg.MinDuty (Cfg.Fans config) <= d
                            <= Cfg.MaxDuty (Cfg.Fans config))%Z) cmds.
Proof.
  induction inps as [|inp inps IH]; intros st w Hle.
  - exists []. cbn. rewrite app_nil_r. repeat split. constructor.
  - cbn [Loop.ticks]. unfold Sys.bind.
    destruct (Loop.tick config dryRun inp st w) as [st1 w1] eqn:Ht.
    destruct (tick_commands config dryRun inp st w Hle) as (c1 & Hc1 & Hd1 & Hf1).
    rewrite Ht in Hc1. cbn [snd] in Hc1.
    destruct (IH st1 w1 Hle) as (c2 & Hc2 & Hd2 & Hf2).
    exists (c1 ++ c2). rewrite Hc2, Hc1, app_assoc. split; [reflexivity|].
    split.
    + intros Hdry. rewrite (Hd1 Hdry), (Hd2 Hdry). reflexivity.
    + apply Forall_app. split; assumption.
Qed.

(** The retry loop ends with [nil] or with the error of a failed command. *)
Lemma attempts_result args remaining : forall attempt lastErr w,
  fst (IPMI.attempts args remaining attempt lastErr w) = None
  \/ exists e,
       fst (IPMI.attempts args remaining attempt lastErr w)
       = Some (IPMI.IPMICommandFailed e).
Proof.
  induction remaining as [|remaining IH]; intros attempt lastErr w.
  - right. exists lastErr. reflexivity.
  - rewrite attempts_step.
    destruct (Sys.outcomes w (Sys.nexec w)); [left; reflexivity|]. apply IH.
Qed.

Lemma SetAllFans_accepts_valid_duty d :
  (0 <= d <= 100)%Z ->
  forall w, fst (IPMI.SetAllFans d w) <> Some (IPMI.InvalidDuty d).
Proof.
  intros Hd w. unfold IPMI.SetAllFans, Sys.bind, Sys.emit.
  assert (Hrange : ((d <? 0) || (d >? 100))%Z = false).
  { apply orb_false_iff. split; [apply Z.ltb_ge; lia|].
    rewrite Z.gtb_ltb. apply Z.ltb_ge. lia. }
  rewrite Hrange.
  match goal with
  | |- context [IPMI.attempts ?a ?r ?n ?l ?w0] =>
      destruct (attempts_result a r n l w0) as [E|[e E]]; rewrite E
  end; discriminate.
Qed.

(** What [Validate] checks of the duties. *)
Lemma Validate_duties config :
  Cfg.Validate config = None ->
  (0 <= Cfg.MinDuty (Cfg.Fans config) < Cfg.MaxDuty (Cfg.Fans config))%Z
  /\ (Cfg.MaxDuty (Cfg.Fans config) <= 100)%Z
  /\ (0 <= Cfg.StartupDuty (Cfg.Fans config) <= 100)%Z
  /\ (1 <= Cfg.WarmestDisks (Cfg.Temperature config))%Z.
Proof.
  intros Hval. unfold Cfg.Validate in Hval.
  repeat match type of Hval with
         | (if ?b then _ else _) = None =>
             let E := fresh "E" in
             destruct b eqn:E; [discriminate|]
         end.
  repeat match goal with
         | H : (_ || _) = false |- _ => apply orb_false_iff in H; destruct H
         end.
  repeat match goal with
         | H : (_ <? _)%Z = false |- _ => apply Z.ltb_ge in H
         | H : (_ <=? _)%Z = false |- _ => apply Z.leb_gt in H
         | H : (_ >? _)%Z = false |- _ => rewrite Z.gtb_ltb in H; apply Z.ltb_ge in H
         | H : (_ >=? _)%Z = false |- _ => rewrite Z.geb_leb in H; apply Z.leb_gt in H
         end.
  lia.
Qed.

(** X15.  With a configuration that [Validate] accepts, every duty the
    control loop passes to [SetAllFans] is the startup duty, 100, or a duty
    within [MinDuty, MaxDuty]; each lies within 0-100, so that [SetAllFans]
    never rejects the duty.  Unless in dry-run mode, the first duty
    commanded is the startup duty. *)
Theorem loop_commands_valid_duties :
  forall config dryRun pid inps w,
    Cfg.Validate config = None ->
    exists cmds,
      Sys.commanded
        (Sys.trace (snd (Loop.runControlLoop config dryRun pid inps w)))
      = Sys.commanded (Sys.trace w) ++ cmds
      /\ Forall (fun d =>
                   (0 <= d <= 100)%Z
                   /\ (d = Cfg.StartupDuty (Cfg.Fans config) \/ d = 100%Z
                       \/ (Cfg.MinDuty (Cfg.Fans config) <= d
                           <= Cfg.MaxDuty (Cfg.Fans config))%Z)
                   /\ forall w0, fst (IPMI.SetAllFans d w0)
                                 <> Some (IPMI.InvalidDuty d)) cmds
      /\ (dryRun = false ->
          exists rest, cmds = Cfg.StartupDuty (Cfg.Fans config) :: rest).
Proof.
  intros config dryRun pid inps w Hval.
  destruct (Validate_duties config Hval) as (Hmin & Hmax & Hstart & _).
  pose proof SetAllFans_accepts_valid_duty as Hok.
  unfold Loop.runControlLoop, Sys.bind.
  set (st0 := {| Loop.pid := pid; Loop.consecutiveIPMIFailures := 0 |}).
  destruct dryRun; cbn [negb].
  - cbn [Sys.ret].
    destruct (ticks_commands config true inps st0 w ltac:(lia)) as (cmds & Hc & Hd & Hf).
    exists cmds. split; [exact Hc|]. rewrite (Hd eq_refl).
    split; [constructor|discriminate].
  - destruct (IPMI.SetAllFans (Cfg.StartupDuty (Cfg.Fans config)) w) as [r w1] eqn:Hs.
    cbn [Sys.ret].
    destruct (ticks_commands config false inps st0 w1 ltac:(lia)) as (cmds & Hc & _ & Hf).
    pose proof (proj1 (SetAllFans_effect (Cfg.StartupDuty (Cfg.Fans config)) w)) as He.
    rewrite Hs in He. cbn [snd] in He.
    exists (Cfg.StartupDuty (Cfg.Fans config) :: cmds).
    split; [|split; [|intros _; exists cmds; reflexivity]].
    + rewrite Hc, He, <- app_assoc. reflexivity.
    + constructor.
      * split; [lia|]. split; [left; reflexivity|]. apply Hok. lia.
      * eapply Forall_impl; [exact Hf|]. cbv beta. intros d Hd.
        assert (Hr : (0 <= d <= 100)%Z) by (destruct Hd; lia).
        split; [exact Hr|]. split; [right; exact Hd|]. apply Hok. exact Hr.
Qed.

Lemma loop_commands_valid_duties_witness :
  Cfg.Validate Samples.config = None
  /\ exists cmds,
       Sys.commanded
         (Sys.trace (snd (Loop.runControlLoop Samples.config false
                            (Loop.pid Samples.freshState)
                            [Samples.normalInput; Samples.cpuHotInput]
                            Samples.workingWorld)))
       = Sys.commanded (Sys.trace Samples.workingWorld) ++ cmds
       /\ Forall (fun d => (0 <= d <= 100)%Z) cmds.
Proof.
  assert (Hval : Cfg.Validate Samples.config = None) by reflexivity.
  split; [exact Hval|].
  destruct (loop_commands_valid_duties Samples.config false
              (Loop.pid Samples.freshState)
              [Samples.normalInput; Samples.cpuHotInput]
              Samples.workingWorld Hval) as (cmds & Hc & Hf & _).
  exists cmds. split; [exact Hc|].
  eapply Forall_impl; [exact Hf|]. cbv beta. intros d Hd. exact (proj1 Hd).
Defined.

Lemma of_int_gtb_mono a b (limit : float64) :
  (a <= b)%Z -> (of_int a >? limit) = true -> (of_int b >? limit) = true.
Proof.
  intros Hab. apply gtb_leb_trans, of_int_mono, Hab.
Qed.

(** X16.  The emergency check of an iteration in terms of the single
    disks: with a disk limit that is not negative, no emergency is raised
    exactly when the CPU is not above its limit and no disk is above the
    disk limit; a single disk above the limit is enough to raise one. *)
Theorem emergency_iff_cpu_or_some_disk_over :
  forall (config : Cfg.Config) (temps : gmap string Z)
         (order : list (string * Z)) (cpuTemp : float64),
    Sensors.visits temps order ->
    (Cfg.MaxHDD (Cfg.Temperature config) <? zero) = false ->
    let reason :=
      Loop.checkEmergencyConditions cpuTemp
        (Sensors.GetMaxTemperature temps order) config in
    (reason = ""%string
     <-> (cpuTemp >? Cfg.MaxCPU (Cfg.Temperature config)) = false
         /\ forall d t, temps !! d = Some t ->
              (of_int t >? Cfg.MaxHDD (Cfg.Temperature config)) = false)
    /\ (reason = ""%string \/ reason = "cpu_temp"%string
        \/ reason = "hdd_temp"%string).
Proof.
  intros config temps order cpuTemp Hv Hlimit. cbv zeta.
  unfold Loop.checkEmergencyConditions.
  set (m := Sensors.GetMaxTemperature temps order).
  assert (Hge : forall d t, temps !! d = Some t -> (t <= m)%Z).
  { intros d t Hd. subst m. unfold Sensors.GetMaxTemperature.
    pose proof (proj2 (fold_max_ge (map snd order) 0%Z)) as Hall.
    rewrite List.Forall_forall in Hall. apply Hall.
    apply (visits_value temps order t Hv). exists d. exact Hd. }
  assert (Hin : m = 0%Z \/ exists d, temps !! d = Some m).
  { subst m. unfold Sensors.GetMaxTemperature.
    destruct (fold_max_in (map snd order) 0%Z) as [E|E]; [left; exact E|].
    right. apply (visits_value temps order _ Hv). exact E. }
  split.
  - destruct (cpuTemp >? Cfg.MaxCPU (Cfg.Temperature config)) eqn:Hcpu.
    { split; [discriminate|]. intros [H _]. discriminate. }
    destruct (of_int m >? Cfg.MaxHDD (Cfg.Temperature config)) eqn:Hhdd.
    + split; [discriminate|]. intros [_ Hall]. exfalso.
      destruct Hin as [E|[d Hd]].
      * rewrite E in Hhdd. unfold F64.gtb in Hhdd.
        change (of_int 0) with zero in Hhdd. congruence.
      * rewrite (Hall d m Hd) in Hhdd. discriminate.
    + split; [|reflexivity]. intros _. split; [reflexivity|].
      intros d t Hd.
      destruct (of_int t >? Cfg.MaxHDD (Cfg.Temperature config)) eqn:Ht;
        [|reflexivity].
      rewrite (of_int_gtb_mono t m _ (Hge d t Hd) Ht) in Hhdd. discriminate.
  - destruct (cpuTemp >? Cfg.MaxCPU (Cfg.Temperature config));
      [right; left; reflexivity|].
    destruct (of_int m >? Cfg.MaxHDD (Cfg.Temperature config));
      [right; right; reflexivity|left; reflexivity].
Qed.

Lemma emergency_iff_cpu_or_some_disk_over_witness :
  Sensors.visits Samples.sixDisks (map_to_list Samples.sixDisks)
  /\ (Cfg.MaxHDD (Cfg.Temperature Samples.config) <? zero) = false
  /\ (Loop.checkEmergencyConditions (Fin 60)
        (Sensors.GetMaxTemperature Samples.sixDisks (map_to_list Samples.sixDisks))
        Samples.config = ""%string
      <-> (Fin 60 >? Cfg.MaxCPU (Cfg.Temperature Samples.config)) = false
          /\ forall d t, Samples.sixDisks !! d = Some t ->
               (of_int t >? Cfg.MaxHDD (Cfg.Temperature Samples.config)) = false).
Proof.
  assert (Hv : Sensors.visits Samples.sixDisks (map_to_list Samples.sixDisks))
    by (unfold Sensors.visits; reflexivity).
  assert (Hl : (Cfg.MaxHDD (Cfg.Temperature Samples.config) <? zero) = false)
    by reflexivity.
  split; [exact Hv|]. split; [exact Hl|].
  exact (proj1 (emergency_iff_cpu_or_some_disk_over Samples.config
                  Samples.sixDisks (map_to_list Samples.sixDisks) (Fin 60) Hv Hl)).
Defined.

(** X17.  While the temperatures cannot be read the loop neither commands
    the fans nor publishes metrics: over any number of such iterations the
    loop state is unchanged, no fan command is run, one "temperature"
    error is recorded and one poll interval slept per iteration.  The fans
    keep the last duty commanded. *)
Theorem failed_readings_leave_fans_alone :
  forall config dryRun inps st w,
    Forall (fun inp => Loop.reading inp = None) inps ->
    let r := Loop.ticks config dryRun inps st w in
    fst r = st
    /\ Sys.commanded (Sys.trace (snd r)) = Sys.commanded (Sys.trace w)
    /\ Sys.invocations (Sys.trace (snd r)) = Sys.invocations (Sys.trace w)
    /\ Sys.nexec (snd r) = Sys.nexec w
    /\ Obs.lastMetrics (Sys.trace (snd r)) = Obs.lastMetrics (Sys.trace w)
    /\ Trace.errors (Sys.trace (snd r))
       = Trace.errors (Sys.trace w)
         ++ repeat "temperature"%string (length inps)
    /\ Trace.sleeps (Sys.trace (snd r))
       = Trace.sleeps (Sys.trace w)
         ++ repeat (Cfg.PollInterval (Cfg.Temperature config)) (length inps).
Proof.
  intros config dryRun inps st w Hall. cbv zeta. revert w.
  induction Hall as [|inp inps Hr Hrest IH]; intros w.
  - cbn. rewrite !app_nil_r. repeat split.
  - cbn [Loop.ticks]. unfold Sys.bind.
    rewrite (tick_no_reading config dryRun inp st w Hr).
    destruct (IH {| Sys.outcomes := Sys.outcomes w; Sys.nexec := Sys.nexec w;
                    Sys.trace :=
                      Sys.EvSleep (Cfg.PollInterval (Cfg.Temperature config))
                      :: Sys.EvRecordError "temperature" :: Sys.trace w |})
      as (H1 & H2 & H3 & H4 & H5 & H6 & H7).
    rewrite H1, H2, H3, H4, H5, H6, H7. cbn [Sys.trace Sys.nexec Obs.lastMetrics].
    rewrite !commanded_cons, !invocations_cons, !sleeps_cons, !errors_cons.
    rewrite !app_nil_r. cbn [length repeat].
    rewrite <- !app_assoc. repeat split.
Qed.

Lemma failed_readings_leave_fans_alone_witness :
  Forall (fun inp => Loop.reading inp = None)
    [{| Loop.reading := None; Loop.order_avg := []; Loop.order_max := [];
        Loop.now := 0 |}]
  /\ fst (Loop.ticks Samples.config false
            [{| Loop.reading := None; Loop.order_avg := []; Loop.order_max := [];
                Loop.now := 0 |}]
            Samples.fourFailures Samples.failingWorld) = Samples.fourFailures.
Proof.
  assert (H : Forall (fun inp => Loop.reading inp = None)
                [{| Loop.reading := None; Loop.order_avg := [];
                    Loop.order_max := []; Loop.now := 0 |}])
    by (repeat constructor).
  split; [exact H|].
  exact (proj1 (failed_readings_leave_fans_alone Samples.config false _
                  Samples.fourFailures Samples.failingWorld H)).
Defined.

(** The failure counter after an iteration. *)
Lemma tick_counter config dryRun inp st w :
  let c := Loop.consecutiveIPMIFailures st in
  let c' := Loop.consecutiveIPMIFailures (fst (Loop.tick config dryRun inp st w)) in
  c' = c \/ c' = 0%Z \/ c' = GoInt.add c 1.
Proof.
  cbv zeta. destruct (Loop.reading inp) as [[diskTemps cpuTemp]|] eqn:Hr.
  - destruct (tick_reading config dryRun inp st w diskTemps cpuTemp Hr)
      as (Hst & _ & _).
    cbv zeta in Hst. rewrite Hst. cbn [Loop.consecutiveIPMIFailures].
    match goal with
    | |- context [Loop.actuate ?d ?r ?f ?c ?w] =>
        destruct (actuate_cases d r f c w)
          as [[_ Ha]|[_ (w' & [[Ha _]|[[Ha _]|[Ha _]]])]]; rewrite Ha
    end; cbn [fst snd]; auto.
  - rewrite (tick_no_reading config dryRun inp st w Hr). left. reflexivity.
Qed.

(** X18.  The counter of consecutive IPMI failures is never negative and
    never exceeds the number of iterations run, as long as that number
    stays in the range of [int]. *)
Theorem failure_counter_bounded :
  forall config dryRun pid inps w,
    (Z.of_nat (length inps) <= GoInt.max_int)%Z ->
    (0 <= Loop.consecutiveIPMIFailures
            (fst (Loop.runControlLoop config dryRun pid inps w))
     <= Z.of_nat (length inps))%Z.
Proof.
  intros config dryRun pid inps w Hlen.
  assert (Hticks : forall inps st w,
            (0 <= Loop.consecutiveIPMIFailures st)%Z ->
            (Loop.consecutiveIPMIFailures st + Z.of_nat (length inps)
             <= GoInt.max_int)%Z ->
            (0 <= Loop.consecutiveIPMIFailures
                    (fst (Loop.ticks config dryRun inps st w))
             <= Loop.consecutiveIPMIFailures st + Z.of_nat (length inps))%Z).
  { clear. induction inps as [|inp inps IH]; intros st w H0 Hmax.
    - cbn. lia.
    - cbn [Loop.ticks]. unfold Sys.bind.
      pose proof (tick_counter config dryRun inp st w) as Hc. cbv zeta in Hc.
      destruct (Loop.tick config dryRun inp st w) as [st1 w1]. cbn [fst] in Hc.
      cbn [length] in Hmax. rewrite Nat2Z.inj_succ in Hmax.
      assert (Hadd : GoInt.add (Loop.consecutiveIPMIFailures st) 1
                     = (Loop.consecutiveIPMIFailures st + 1)%Z).
      { apply wrap64_id. unfold GoInt.in_range, GoInt.min_int, GoInt.max_int in *.
        lia. }
      rewrite Hadd in Hc.
      assert (H1 : (0 <= Loop.consecutiveIPMIFailures st1
                    <= Loop.consecutiveIPMIFailures st + 1)%Z) by lia.
      specialize (IH st1 w1 ltac:(lia) ltac:(lia)).
      cbn [length]. rewrite Nat2Z.inj_succ. lia. }
  assert (Hfrom : forall w1,
            (0 <= Loop.consecutiveIPMIFailures
                    (fst (Loop.ticks config dryRun inps
                            {| Loop.pid := pid;
                               Loop.consecutiveIPMIFailures := 0 |} w1))
             <= Z.of_nat (length inps))%Z).
  { intros w1.
    specialize (Hticks inps
                  {| Loop.pid := pid; Loop.consecutiveIPMIFailures := 0 |} w1).
    cbn [Loop.consecutiveIPMIFailures] in Hticks. apply Hticks; lia. }
  unfold Loop.runControlLoop, Sys.bind.
  destruct dryRun; cbn [negb Sys.ret].
  - apply Hfrom.
  - destruct (IPMI.SetAllFans (Cfg.StartupDuty (Cfg.Fans config)) w) as [r w1].
    apply Hfrom.
Qed.

Lemma failure_counter_bounded_witness :
  (Z.of_nat (length (repeat Samples.normalInput 3)) <= GoInt.max_int)%Z
  /\ (0 <= Loop.consecutiveIPMIFailures
             (fst (Loop.runControlLoop Samples.config false
                     (Loop.pid Samples.freshState)
                     (repeat Samples.normalInput 3) Samples.failingWorld))
      <= Z.of_nat (length (repeat Samples.normalInput 3)))%Z.
Proof.
  assert (H : (Z.of_nat (length (repeat Samples.normalInput 3)) <= GoInt.max_int)%Z)
    by (vm_compute; discriminate).
  split; [exact H|].
  exact (failure_counter_bounded Samples.config false
           (Loop.pid Samples.freshState) (repeat Samples.normalInput 3)
           Samples.failingWorld H).
Defined.

(** An iteration in dry-run mode leaves the world of [ipmitool] alone. *)
Lemma tick_dry_run_world config inp st w :
  Sys.nexec (snd (Loop.tick config true inp st w)) = Sys.nexec w
  /\ Sys.invocations (Sys.trace (snd (Loop.tick config true inp st w)))
     = Sys.invocations (Sys.trace w)
  /\ Sys.commanded (Sys.trace (snd (Loop.tick config true inp st w)))
     = Sys.commanded (Sys.trace w)
  /\ Loop.consecutiveIPMIFailures (fst (Loop.tick config true inp st w))
     = Loop.consecutiveIPMIFailures st.
Proof.
  destruct (dry_run_tick_commands_nothing config inp st w) as [Hc Hf].
  split; [|split; [|split; assumption]].
  - unfold Loop.tick. destruct (Loop.reading inp) as [[diskTemps cpuTemp]|];
      [|reflexivity].
    destruct (Loop.selectDuty _ _ _ _ _) as [[fanDuty terms] pid']. reflexivity.
  - unfold Loop.tick. destruct (Loop.reading inp) as [[diskTemps cpuTemp]|].
    + destruct (Loop.selectDuty _ _ _ _ _) as [[fanDuty terms] pid'].
      unfold Loop.actuate, Sys.bind, Sys.sleep, Sys.emit, Sys.ret.
      cbn [negb snd fst Sys.trace].
      rewrite !invocations_cons, !app_nil_r. reflexivity.
    + unfold Sys.RecordError, Sys.bind, Sys.sleep, Sys.emit, Sys.ret.
      cbn [negb snd fst Sys.trace].
      rewrite !invocations_cons, !app_nil_r. reflexivity.
Qed.

(** X19.  In dry-run mode the control loop never calls [SetAllFans], at
    startup or in any iteration: no [ipmitool raw] command is run, and the
    failure counter stays 0. *)
Theorem dry_run_never_commands_fans :
  forall config pid inps w,
    let r := Loop.runControlLoop config true pid inps w in
    Sys.nexec (snd r) = Sys.nexec w
    /\ Sys.invocations (Sys.trace (snd r)) = Sys.invocations (Sys.trace w)
    /\ Sys.commanded (Sys.trace (snd r)) = Sys.commanded (Sys.trace w)
    /\ Loop.consecutiveIPMIFailures (fst r) = 0%Z.
Proof.
  intros config pid inps w. cbv zeta.
  unfold Loop.runControlLoop, Sys.bind. cbn [negb Sys.ret].
  assert (H : forall inps st w,
            Sys.nexec (snd (Loop.ticks config true inps st w)) = Sys.nexec w
            /\ Sys.invocations (Sys.trace (snd (Loop.ticks config true inps st w)))
               = Sys.invocations (Sys.trace w)
            /\ Sys.commanded (Sys.trace (snd (Loop.ticks config true inps st w)))
               = Sys.commanded (Sys.trace w)
            /\ Loop.consecutiveIPMIFailures (fst (Loop.ticks config true inps st w))
               = Loop.consecutiveIPMIFailures st).
  { clear. induction inps as [|inp inps IH]; intros st w.
    - repeat split.
    - cbn [Loop.ticks]. unfold Sys.bind.
      destruct (tick_dry_run_world config inp st w) as (H1 & H2 & H3 & H4).
      destruct (Loop.tick config true inp st w) as [st1 w1]. cbn [fst snd] in *.
      destruct (IH st1 w1) as (I1 & I2 & I3 & I4).
      rewrite I1, I2, I3, I4, H1, H2, H3, H4. repeat split. }
  destruct (H inps {| Loop.pid := pid; Loop.consecutiveIPMIFailures := 0 |} w)
    as (H1 & H2 & H3 & H4).
  rewrite H1, H2, H3. repeat split. exact H4.
Qed.

(** ** Properties of sensor discovery and reading *)

(** The map and the failures the reading loop ends with. *)
Lemma readLoop_spec G disks : forall temps errors,
  (forall d t,
     fst (Disk.readLoop G disks temps errors) !! d = Some t
     <-> (In d disks /\ G d = Some t)
         \/ (~ (In d disks /\ G d <> None) /\ temps !! d = Some t))
  /\ snd (Disk.readLoop G disks temps errors)
     = errors ++ List.filter (fun d => match G d with
                                       | None => true
                                       | Some _ => false
                                       end) disks.
Proof.
  induction disks as [|x rest IH]; intros temps errors.
  - split; [|cbn; rewrite app_nil_r; reflexivity].
    intros d t. cbn. split; [intros H; right; split; [tauto|exact H]|].
    intros [[[] _]|[_ H]]; exact H.
  - cbn [Disk.readLoop]. destruct (G x) as [v|] eqn:Hx.
    + destruct (IH (<[x := v]> temps) errors) as [Hl He]. split.
      * intros d t. rewrite Hl. cbn [In].
        destruct (decide (d = x)) as [->|Hne].
        -- rewrite lookup_insert_eq, Hx.
           assert (Hs : Some v <> (None : option Z)) by discriminate.
           assert (Hxx : x = x) by reflexivity.
           destruct (in_dec string_dec x rest) as [Hin|Hin]; tauto.
        -- rewrite lookup_insert_ne by congruence.
           assert (Hxd : x <> d) by congruence. tauto.
      * rewrite He. cbn [List.filter]. rewrite Hx. reflexivity.
    + destruct (IH temps (errors ++ [x])) as [Hl He]. split.
      * intros d t. rewrite Hl. cbn [In].
        destruct (decide (d = x)) as [->|Hne].
        -- rewrite Hx.
           assert (Hn1 : ~ ((None : option Z) = Some t)) by discriminate.
           assert (Hn2 : ~ ((None : option Z) <> None))
             by (intros Hn; apply Hn; reflexivity).
           tauto.
        -- assert (Hxd : x <> d) by congruence. tauto.
      * rewrite He. cbn [List.filter]. rewrite Hx, <- app_assoc. reflexivity.
Qed.

(** A map [GetAllDiskTemperatures] returns is not empty. *)
Lemma GetAllDiskTemperatures_nonempty
    MatchString readDir isSpinningDisk G patterns temps :
  Disk.GetAllDiskTemperatures MatchString readDir isSpinningDisk G patterns
  = inl temps ->
  temps ≠ ∅.
Proof.
  unfold Disk.GetAllDiskTemperatures.
  destruct (Sensors.discoverSpinningDisks MatchString readDir isSpinningDisk
              patterns)
    as [disks|]; [|discriminate].
  destruct (length disks =? 0)%nat; [discriminate|].
  destruct (Disk.readLoop G disks ∅ []) as [temps' errors].
  destruct (Sensors.len temps' =? 0)%Z eqn:Hlen; [discriminate|].
  intros H. injection H as <-. intros ->.
  unfold Sensors.len in Hlen. rewrite map_size_empty in Hlen. discriminate.
Qed.

Lemma matchesExcludePattern_false MatchString device patterns :
  Sensors.matchesExcludePattern MatchString device patterns = false
  <-> forall pattern, In pattern patterns ->
                      MatchString pattern device <> Some true.
Proof.
  split.
  - intros H pattern Hin Hm.
    assert (Ht : Sensors.matchesExcludePattern MatchString device patterns = true)
      by (apply matchesExcludePattern_true; exists pattern; auto).
    congruence.
  - intros H.
    destruct (Sensors.matchesExcludePattern MatchString device patterns) eqn:E;
      [|reflexivity].
    apply matchesExcludePattern_true in E as (pattern & Hin & Hm).
    exfalso. exact (H pattern Hin Hm).
Qed.

(** X20.  Whatever [regexp.MatchString] answers, [GetAllDiskTemperatures]
    succeeds as soon as one discovered disk can be read: the map it returns
    is never empty and holds exactly the disks that are directory entries,
    for which [regexp.MatchString] reports a match with no exclude pattern,
    that are reported as spinning and whose temperature could be read, each
    with that temperature.  It fails when the directory cannot be read,
    when no disk is discovered, or when every discovered disk fails to be
    read. *)
Theorem GetAllDiskTemperatures_result :
  forall MatchString readDir isSpinningDisk G patterns,
    match Disk.GetAllDiskTemperatures MatchString readDir isSpinningDisk G
            patterns with
    | inl temps =>
        temps ≠ ∅
        /\ forall d t,
             temps !! d = Some t
             <-> (exists entries, readDir = Some entries /\ In d entries)
                 /\ (forall pattern, In pattern patterns ->
                                     MatchString pattern d <> Some true)
                 /\ isSpinningDisk d = Some true
                 /\ G d = Some t
    | inr Disk.ErrDiscover => readDir = None
    | inr Disk.ErrNoSpinningDisks =>
        Sensors.discoverSpinningDisks MatchString readDir isSpinningDisk
          patterns = Some []
    | inr (Disk.ErrNoTemperatures errors) =>
        Sensors.discoverSpinningDisks MatchString readDir isSpinningDisk
          patterns = Some errors
        /\ errors <> [] /\ Forall (fun d => G d = None) errors
    end.
Proof.
  intros MatchString readDir isSpinningDisk G patterns.
  destruct (Disk.GetAllDiskTemperatures MatchString readDir isSpinningDisk G
              patterns)
    as [temps|err] eqn:Hres.
  - split; [eapply GetAllDiskTemperatures_nonempty; exact Hres|].
    unfold Disk.GetAllDiskTemperatures, Sensors.discoverSpinningDisks in Hres.
    destruct readDir as [entries|]; [|discriminate].
    rewrite discoverLoop_filter in Hres. cbn [app] in Hres.
    set (disks := List.filter _ entries) in Hres.
    destruct (length disks =? 0)%nat; [discriminate|].
    pose proof (proj1 (readLoop_spec G disks ∅ [])) as Hl.
    destruct (Disk.readLoop G disks ∅ []) as [temps' errors].
    destruct (Sensors.len temps' =? 0)%Z; [discriminate|].
    injection Hres as <-. cbn [fst] in Hl.
    intros d t. rewrite Hl. subst disks. rewrite filter_In, lookup_empty.
    rewrite andb_true_iff, negb_true_iff, matchesExcludePattern_false.
    split.
    + intros [[[Hin [Hm Hs]] Hg]|[_ H]]; [|discriminate].
      split; [exists entries; split; [reflexivity|exact Hin]|].
      split; [exact Hm|]. split; [|exact Hg].
      destruct (isSpinningDisk d) as [[|]|]; try discriminate. reflexivity.
    + intros ((entries' & He & Hin) & Hm & Hs & Hg). injection He as <-.
      left. rewrite Hs. auto.
  - unfold Disk.GetAllDiskTemperatures in Hres.
    destruct (Sensors.discoverSpinningDisks MatchString readDir isSpinningDisk
                patterns)
      as [disks|] eqn:Hdisc.
    + destruct (length disks =? 0)%nat eqn:Hlen.
      * injection Hres as <-. destruct disks; [reflexivity|discriminate].
      * pose proof (readLoop_spec G disks ∅ []) as [Hl He].
        destruct (Disk.readLoop G disks ∅ []) as [temps' errors].
        destruct (Sensors.len temps' =? 0)%Z eqn:Hsize; [|discriminate].
        injection Hres as <-. cbn [fst snd] in Hl, He.
        assert (Hempty : temps' = ∅).
        { apply map_size_empty_iff. apply Z.eqb_eq in Hsize.
          unfold Sensors.len in Hsize. lia. }
        assert (Hnone : Forall (fun d => G d = None) disks).
        { apply List.Forall_forall. intros d Hin.
          destruct (G d) as [t|] eqn:Hg; [|reflexivity]. exfalso.
          assert (H : temps' !! d = Some t) by (apply Hl; left; auto).
          rewrite Hempty, lookup_empty in H. discriminate. }
        assert (Herr : errors = disks).
        { rewrite He. cbn [app]. clear - Hnone.
          induction Hnone as [|d rest Hd Hrest IH]; [reflexivity|].
          cbn [List.filter]. rewrite Hd, IH. reflexivity. }
        rewrite Herr. split; [reflexivity|]. split; [|exact Hnone].
        destruct disks; [discriminate|discriminate].
    + injection Hres as <-. unfold Sensors.discoverSpinningDisks in Hdisc.
      destruct readDir; [discriminate|reflexivity].
Qed.

(** X21.  The branch of [validateEnvironment] that reports that no
    spinning disk was found is dead: [GetAllDiskTemperatures] never returns
    an empty map without an error, so the function never returns this
    error. *)
Theorem validateEnvironment_never_reports_no_disks :
  forall MatchString dryRun GetCPUTemperature readDir isSpinningDisk G
         fanSpeedsOk config cachedK10TempPath,
    fst (Env.validateEnvironment dryRun GetCPUTemperature
           (Disk.GetAllDiskTemperatures MatchString readDir isSpinningDisk G)
           fanSpeedsOk config cachedK10TempPath)
    <> Some Env.ErrNoDisksFound.
Proof.
  intros MatchString dryRun cpu readDir isSpinningDisk G ok config cached.
  unfold Env.validateEnvironment.
  destruct (cpu cached) as [[temp|err] cached']; [|discriminate].
  destruct (Disk.GetAllDiskTemperatures MatchString readDir isSpinningDisk G
              (Cfg.ExcludePatterns (Cfg.Disks config))) as [temps|err] eqn:Hd;
    [|discriminate].
  rewrite (len_nonempty temps (GetAllDiskTemperatures_nonempty _ _ _ _ _ _ Hd)).
  destruct (negb dryRun && negb ok); discriminate.
Qed.

(** The temperature [readCPUTempFromPath] returns is a number: the
    millidegrees are an [int64] and the quotient by 1000 cannot overflow. *)
Lemma readCPUTempFromPath_finite TrimSpace ParseInt Join fs hwmonPath temp :
  CPU.readCPUTempFromPath TrimSpace ParseInt Join fs hwmonPath = inl temp ->
  is_finite temp.
Proof.
  unfold CPU.readCPUTempFromPath.
  destruct (CPU.ReadFile fs _) as [data|]; [|discriminate].
  destruct (ParseInt (TrimSpace data)) as [millidegrees|]; [|discriminate].
  destruct ((GoInt.min_int <=? millidegrees)%Z
            && (millidegrees <=? GoInt.max_int)%Z) eqn:Hr; [|discriminate].
  intros H. injection H as <-.
  apply andb_true_iff in Hr. destruct Hr as [H1 H2].
  apply Z.leb_le in H1, H2.
  apply (within_finite (pow2 63)).
  apply (div_within (pow2 63) 1 63).
  - apply of_int_in_range. split; assumption.
  - reflexivity.
  - discriminate.
  - unfold emin, emax. lia.
  - rewrite Qmult_1_r. apply Qle_refl.
Qed.

Lemma GetCPUTemperature_finite TrimSpace ParseInt Dir Join fs cached temp :
  fst (CPU.GetCPUTemperature TrimSpace ParseInt Dir Join fs cached) = inl temp ->
  is_finite temp.
Proof.
  unfold CPU.GetCPUTemperature.
  destruct (negb (String.eqb cached "")); cbn [fst].
  - apply readCPUTempFromPath_finite.
  - destruct (CPU.findK10TempPath TrimSpace Dir fs) as [hwmonPath|err];
      cbn [fst]; [apply readCPUTempFromPath_finite|discriminate].
Qed.

(** X22.  What [readAllTemperatures] hands to the control loop on success,
    with a configuration that [Validate] accepts: a map of disk
    temperatures that is not empty, a CPU temperature that is a number, and
    hence a mean of the warmest disks that is a number, never NaN. *)
Theorem readAllTemperatures_gives_numbers :
  forall MatchString TrimSpace ParseInt Dir Join fs readDir isSpinningDisk G
         config cachedK10TempPath temps cpuTemp order,
    fst (Env.readAllTemperatures
           (Disk.GetAllDiskTemperatures MatchString readDir isSpinningDisk G)
           (CPU.GetCPUTemperature TrimSpace ParseInt Dir Join fs)
           config cachedK10TempPath) = inl (temps, cpuTemp) ->
    Cfg.Validate config = None ->
    Sensors.visits temps order ->
    temps ≠ ∅
    /\ is_finite cpuTemp
    /\ is_finite (Sensors.GetAverageOfWarmest temps order
                    (Cfg.WarmestDisks (Cfg.Temperature config))).
Proof.
  intros MatchString TrimSpace ParseInt Dir Join fs readDir isSpinningDisk G
         config cached temps cpuTemp order Hread Hval Hv.
  unfold Env.readAllTemperatures in Hread.
  destruct (Disk.GetAllDiskTemperatures MatchString readDir isSpinningDisk G
              (Cfg.ExcludePatterns (Cfg.Disks config))) as [diskTemps|err] eqn:Hd;
    [|discriminate].
  destruct (CPU.GetCPUTemperature TrimSpace ParseInt Dir Join fs cached)
    as [[temp|err] cached'] eqn:Hc; [|discriminate].
  cbn [fst] in Hread. injection Hread as <- <-.
  split; [eapply GetAllDiskTemperatures_nonempty; exact Hd|].
  split.
  - apply (GetCPUTemperature_finite TrimSpace ParseInt Dir Join fs cached).
    rewrite Hc. reflexivity.
  - apply GetAverageOfWarmest_finite; [exact Hv|].
    apply (Validate_duties config Hval).
Qed.

Lemma readAllTemperatures_gives_numbers_witness :
  fst (Env.readAllTemperatures
         (Disk.GetAllDiskTemperatures Regexp.MatchString
            (Some ["sda"; "sdb"]%string)
            (Disk.isSpinningDisk Cases.sysfs Cases.TrimSpace) Cases.smartctl)
         (CPU.GetCPUTemperature Cases.TrimSpace Cases.ParseInt Cases.Dir
            Cases.Join Cases.files)
         Samples.config "")
  = inl ({[ "sda"%string := 41%Z ]}, Fin (361 # 8))
  /\ Cfg.Validate Samples.config = None
  /\ Sensors.visits {[ "sda"%string := 41%Z ]} [("sda"%string, 41%Z)]
  /\ is_finite (Fin (361 # 8))
  /\ is_finite (Sensors.GetAverageOfWarmest {[ "sda"%string := 41%Z ]}
                  [("sda"%string, 41%Z)]
                  (Cfg.WarmestDisks (Cfg.Temperature Samples.config))).
Proof.
  assert (Hread :
            fst (Env.readAllTemperatures
                   (Disk.GetAllDiskTemperatures Regexp.MatchString
            (Some ["sda"; "sdb"]%string)
                      (Disk.isSpinningDisk Cases.sysfs Cases.TrimSpace)
                      Cases.smartctl)
                   (CPU.GetCPUTemperature Cases.TrimSpace Cases.ParseInt
                      Cases.Dir Cases.Join Cases.files)
                   Samples.config "")
            = inl ({[ "sda"%string := 41%Z ]}, Fin (361 # 8)))
    by (vm_compute; reflexivity).
  assert (Hval : Cfg.Validate Samples.config = None) by reflexivity.
  assert (Hv : Sensors.visits {[ "sda"%string := 41%Z ]} [("sda"%string, 41%Z)]).
  { unfold Sensors.visits. rewrite map_to_list_singleton. reflexivity. }
  split; [exact Hread|]. split; [exact Hval|]. split; [exact Hv|].
  exact (proj2 (readAllTemperatures_gives_numbers _ _ _ _ _ _ _ _ _ _ _ _ _ _
                  Hread Hval Hv)).
Defined.

(** X23.  Once the hwmon path of the k10temp sensor is cached it is kept
    for good: every later call of [GetCPUTemperature] reads the
    temperature file under that path, whatever the hwmon directories look
    like at that time and whether or not the read succeeds; the sensor is
    not searched again. *)
Theorem cached_hwmon_path_is_kept :
  forall TrimSpace ParseInt Dir Join (calls : list CPU.Files) cached,
    cached <> ""%string ->
    CPU.polls TrimSpace ParseInt Dir Join calls cached
    = (map (fun fs => CPU.readCPUTempFromPath TrimSpace ParseInt Join fs cached)
         calls,
       cached).
Proof.
  intros TrimSpace ParseInt Dir Join calls cached Hne.
  assert (Hc : negb (String.eqb cached "") = true).
  { apply negb_true_iff. apply String.eqb_neq. exact Hne. }
  induction calls as [|fs calls IH]; [reflexivity|].
  cbn [CPU.polls map]. unfold CPU.GetCPUTemperature. rewrite Hc, IH. reflexivity.
Qed.

Lemma cached_hwmon_path_is_kept_witness :
  "/sys/class/hwmon/hwmon2"%string <> ""%string
  /\ snd (CPU.GetCPUTemperature Cases.TrimSpace Cases.ParseInt Cases.Dir
            Cases.Join Cases.files "")
     = "/sys/class/hwmon/hwmon2"%string
  /\ CPU.polls Cases.TrimSpace Cases.ParseInt Cases.Dir Cases.Join
       [{| CPU.Glob := None; CPU.ReadFile := fun _ => None |}; Cases.files]
       "/sys/class/hwmon/hwmon2"
     = ([inr CPU.ErrReadTemp; inl (Fin (361 # 8))],
        "/sys/class/hwmon/hwmon2"%string).
Proof.
  assert (Hne : "/sys/class/hwmon/hwmon2"%string <> ""%string) by discriminate.
  split; [exact Hne|]. split; [vm_compute; reflexivity|].
  rewrite (cached_hwmon_path_is_kept Cases.TrimSpace Cases.ParseInt Cases.Dir
             Cases.Join
             [{| CPU.Glob := None; CPU.ReadFile := fun _ => None |}; Cases.files]
             "/sys/class/hwmon/hwmon2" Hne).
  vm_compute. reflexivity.
Defined.

(** X24.  The disks [discoverSpinningDisks] returns, with [isSpinningDisk]
    reading sysfs, whatever [regexp.MatchString] answers: exactly the
    directory entries for which [regexp.MatchString] reports a match with
    no exclude pattern and whose rotational flag reads 1 and removable flag
    reads 0 after trimming; a device one of whose flags cannot be read is
    left out.  The order of the directory is kept. *)
Theorem discovered_disks_are_internal_spinning :
  forall MatchString ReadFile TrimSpace entries patterns disks,
    Sensors.discoverSpinningDisks MatchString (Some entries)
      (Disk.isSpinningDisk ReadFile TrimSpace) patterns = Some disks ->
    (forall d,
       In d disks
       <-> In d entries
           /\ (forall pattern, In pattern patterns ->
                               MatchString pattern d <> Some true)
           /\ (exists rotaData,
                 ReadFile (String.append "/sys/block/"
                             (String.append d "/queue/rotational"))
                 = Some rotaData
                 /\ TrimSpace rotaData = "1"%string)
           /\ (exists removableData,
                 ReadFile (String.append "/sys/block/"
                             (String.append d "/removable"))
                 = Some removableData
                 /\ TrimSpace removableData = "0"%string))
    /\ exists keep, disks = List.filter keep entries.
Proof.
  intros MatchString ReadFile TrimSpace entries patterns disks H.
  unfold Sensors.discoverSpinningDisks in H. injection H as <-.
  rewrite discoverLoop_filter. cbn [app].
  split; [|eexists; reflexivity].
  intros d. rewrite filter_In, andb_true_iff, negb_true_iff.
  rewrite matchesExcludePattern_false.
  unfold Disk.isSpinningDisk.
  destruct (ReadFile (String.append "/sys/block/"
                        (String.append d "/queue/rotational"))) as [rota|].
  - destruct (String.eqb_spec (TrimSpace rota) "1") as [Hr|Hr]; cbn [negb].
    + destruct (ReadFile (String.append "/sys/block/"
                            (String.append d "/removable"))) as [rem|].
      * destruct (String.eqb_spec (TrimSpace rem) "0") as [Hm|Hm]; cbn [negb].
        -- split; [intros (Hin & Hx & _)|intros (Hin & Hx & _); auto].
           split; [exact Hin|]. split; [exact Hx|].
           split; eexists; split; (reflexivity || assumption).
        -- split; [intros (_ & _ & Hf); discriminate|].
           intros (_ & _ & _ & (rem' & He & Ht)). congruence.
      * split; [intros (_ & _ & Hf); discriminate|].
        intros (_ & _ & _ & (rem' & He & _)). discriminate.
    + split; [intros (_ & _ & Hf); discriminate|].
      intros (_ & _ & (rota' & He & Ht) & _). congruence.
  - split; [intros (_ & _ & Hf); discriminate|].
    intros (_ & _ & (rota' & He & _) & _). discriminate.
Qed.

Lemma discovered_disks_are_internal_spinning_witness :
  Sensors.discoverSpinningDisks Regexp.MatchString
    (Some ["loop0"; "sda"; "sdb"; "sdc"]%string)
    (Disk.isSpinningDisk Cases.sysfs Cases.TrimSpace)
    Cfg.defaultExcludePatterns = Some ["sda"%string]
  /\ (In "sda"%string ["sda"%string]
      <-> In "sda"%string ["loop0"; "sda"; "sdb"; "sdc"]%string
          /\ (forall pattern, In pattern Cfg.defaultExcludePatterns ->
                              Regexp.MatchString pattern "sda" <> Some true)
          /\ (exists rotaData,
                Cases.sysfs (String.append "/sys/block/"
                               (String.append "sda" "/queue/rotational"))
                = Some rotaData
                /\ Cases.TrimSpace rotaData = "1"%string)
          /\ (exists removableData,
                Cases.sysfs (String.append "/sys/block/"
                               (String.append "sda" "/removable"))
                = Some removableData
                /\ Cases.TrimSpace removableData = "0"%string)).
Proof.
  assert (H : Sensors.discoverSpinningDisks Regexp.MatchString
                (Some ["loop0"; "sda"; "sdb"; "sdc"]%string)
                (Disk.isSpinningDisk Cases.sysfs Cases.TrimSpace)
                Cfg.defaultExcludePatterns = Some ["sda"%string])
    by (vm_compute; reflexivity).
  split; [exact H|].
  exact (proj1 (discovered_disks_are_internal_spinning Regexp.MatchString
                  Cases.sysfs Cases.TrimSpace _ _ _ H) "sda"%string).
Defined.

(** ** Properties of the metrics *)

Lemma setEach_absent order : forall vec (d : string),
  (forall t, ~ In (d, t) order) ->
  Metrics.setEach vec order !! d = vec !! d.
Proof.
  unfold Metrics.setEach.
  induction order as [|[k x] order IH]; intros vec d Hd; [reflexivity|].
  cbn [fold_left fst snd]. rewrite IH.
  - apply lookup_insert_ne. intros ->. apply (Hd x). left. reflexivity.
  - intros t Hin. apply (Hd t). right. exact Hin.
Qed.

Lemma setEach_present order : forall vec (d : string) t,
  NoDup (map fst order) -> In (d, t) order ->
  Metrics.setEach vec order !! d = Some (of_int t).
Proof.
  induction order as [|[k x] order IH]; intros vec d t Hnd Hin; [destruct Hin|].
  cbn [map fst] in Hnd. apply NoDup_cons in Hnd. destruct Hnd as [Hk Hnd].
  destruct Hin as [Heq|Hin].
  - injection Heq as <- <-.
    change (Metrics.setEach vec ((k, x) :: order))
      with (Metrics.setEach (<[k := of_int x]> vec) order).
    rewrite setEach_absent; [apply lookup_insert_eq|].
    intros t Hin. apply Hk. apply list_elem_of_In.
    apply (in_map fst) in Hin. exact Hin.
  - change (Metrics.setEach vec ((k, x) :: order))
      with (Metrics.setEach (<[k := of_int x]> vec) order).
    apply IH; assumption.
Qed.

Lemma visits_NoDup temps order :
  Sensors.visits temps order -> NoDup (map fst order).
Proof.
  intros Hv. unfold Sensors.visits in Hv.
  pose proof (NoDup_fst_map_to_list temps) as Hnd.
  rewrite <- Hv in Hnd. exact Hnd.
Qed.

(** X25.  The emergency gauges after [UpdateAllMetrics]: the gauges of the
    reasons "hdd_temp" and "cpu_temp" read 0 after every call, also when
    one of them is the reason of the call, since they are reset after the
    gauge of the reason is set; the gauge of "ipmi_failure" is set to 1 by
    a call with that reason and is not reset by any other call. *)
Theorem UpdateAllMetrics_emergency_gauges :
  forall metrics diskTemps order_disks cpuTemp fanSpeeds order_fans fanDuty
         pidTerms avgTemp maxTemp emergencyReason loopDuration,
    let metrics' :=
      Metrics.UpdateAllMetrics metrics diskTemps order_disks cpuTemp fanSpeeds
        order_fans fanDuty pidTerms avgTemp maxTemp emergencyReason
        loopDuration in
    Metrics.EmergencyMode metrics' !! "hdd_temp"%string = Some zero
    /\ Metrics.EmergencyMode metrics' !! "cpu_temp"%string = Some zero
    /\ Metrics.EmergencyMode metrics' !! "ipmi_failure"%string
       = (if String.eqb emergencyReason "ipmi_failure" then Some one
          else Metrics.EmergencyMode metrics !! "ipmi_failure"%string).
Proof.
  intros metrics diskTemps order_disks cpuTemp fanSpeeds order_fans fanDuty
         pidTerms avgTemp maxTemp reason loopDuration. cbv zeta.
  cbn [Metrics.UpdateAllMetrics Metrics.EmergencyMode].
  destruct (String.eqb_spec reason "") as [->|Hne]; cbn [negb].
  - split; [|split].
    + rewrite lookup_insert_ne by discriminate. apply lookup_insert_eq.
    + apply lookup_insert_eq.
    + rewrite !lookup_insert_ne by discriminate. reflexivity.
  - split; [|split].
    + rewrite lookup_insert_ne by discriminate. apply lookup_insert_eq.
    + apply lookup_insert_eq.
    + rewrite !lookup_insert_ne by discriminate.
      destruct (String.eqb_spec reason "ipmi_failure") as [->|Hi].
      * apply lookup_insert_eq.
      * apply lookup_insert_ne. exact Hi.
Qed.

(** X26.  The disk gauges after [UpdateAllMetrics]: the gauge of each disk
    of the reading holds its temperature; the gauge of a disk that is not
    in the reading keeps the value it had, so a disk that is no longer read
    goes on being reported with its last temperature. *)
Theorem UpdateAllMetrics_disk_gauges :
  forall metrics diskTemps order_disks cpuTemp fanSpeeds order_fans fanDuty
         pidTerms avgTemp maxTemp emergencyReason loopDuration,
    Sensors.visits diskTemps order_disks ->
    forall disk,
      Metrics.HDDTemperature
        (Metrics.UpdateAllMetrics metrics diskTemps order_disks cpuTemp
           fanSpeeds order_fans fanDuty pidTerms avgTemp maxTemp
           emergencyReason loopDuration) !! disk
      = match diskTemps !! disk with
        | Some temp => Some (of_int temp)
        | None => Metrics.HDDTemperature metrics !! disk
        end.
Proof.
  intros metrics diskTemps order_disks cpuTemp fanSpeeds order_fans fanDuty
         pidTerms avgTemp maxTemp reason loopDuration Hv disk.
  cbn [Metrics.UpdateAllMetrics Metrics.HDDTemperature].
  destruct (diskTemps !! disk) as [temp|] eqn:Hd.
  - apply setEach_present; [apply (visits_NoDup diskTemps), Hv|].
    apply (visits_lookup diskTemps order_disks disk temp Hv). exact Hd.
  - apply setEach_absent. intros t Hin.
    apply (visits_lookup diskTemps order_disks disk t Hv) in Hin. congruence.
Qed.

Lemma UpdateAllMetrics_disk_gauges_witness :
  Sensors.visits {[ "sda"%string := 41%Z ]} [("sda"%string, 41%Z)]
  /\ Metrics.HDDTemperature
       (Metrics.UpdateAllMetrics
          (Metrics.UpdateAllMetrics Metrics.InitMetrics
             {[ "sdb"%string := 39%Z ]} [("sdb"%string, 39%Z)] (Fin 50) ∅ []
             30 PID.zeroTerms (Fin 39) 39 "" 1000000)
          {[ "sda"%string := 41%Z ]} [("sda"%string, 41%Z)] (Fin 50) ∅ []
          30 PID.zeroTerms (Fin 41) 41 "" 1000000) !! "sdb"%string
     = Some (of_int 39).
Proof.
  assert (Hv : Sensors.visits {[ "sda"%string := 41%Z ]} [("sda"%string, 41%Z)]).
  { unfold Sensors.visits. rewrite map_to_list_singleton. reflexivity. }
  split; [exact Hv|].
  rewrite (UpdateAllMetrics_disk_gauges
             (Metrics.UpdateAllMetrics Metrics.InitMetrics
                {[ "sdb"%string := 39%Z ]} [("sdb"%string, 39%Z)] (Fin 50) ∅ []
                30 PID.zeroTerms (Fin 39) 39 "" 1000000)
             {[ "sda"%string := 41%Z ]} [("sda"%string, 41%Z)] (Fin 50) ∅ []
             30 PID.zeroTerms (Fin 41) 41 "" 1000000 Hv "sdb"%string).
  vm_compute. reflexivity.
Defined.


(** ** The loop with the controller of [main] *)

(** An iteration keeps the controller numeric and keeps its limits. *)
Lemma tick_keeps_numeric config dryRun inp st w :
  (1 <= Cfg.WarmestDisks (Cfg.Temperature config))%Z ->
  Obs.well_visited inp ->
  Numeric.controller (Loop.pid st) ->
  Numeric.controller (Loop.pid (fst (Loop.tick config dryRun inp st w)))
  /\ PID.MinOutput (Loop.pid (fst (Loop.tick config dryRun inp st w)))
     = PID.MinOutput (Loop.pid st)
  /\ PID.MaxOutput (Loop.pid (fst (Loop.tick config dryRun inp st w)))
     = PID.MaxOutput (Loop.pid st).
Proof.
  intros Hn Hw Hp. unfold Obs.well_visited in Hw.
  destruct (Loop.reading inp) as [[diskTemps cpuTemp]|] eqn:Hr.
  - destruct (tick_reading config dryRun inp st w diskTemps cpuTemp Hr)
      as (Hst & _ & _).
    cbv zeta in Hst. rewrite Hst. cbn [Loop.pid]. unfold Loop.selectDuty.
    destruct (negb (String.eqb _ "")); cbn [snd]; [auto|].
    destruct (PID.Calculate (Loop.pid st) _ (Loop.now inp))
      as [[output terms] pid'] eqn:Hc. cbn [snd].
    assert (Hpid : pid' = snd (PID.Calculate (Loop.pid st)
                                 (Sensors.GetAverageOfWarmest diskTemps
                                    (Loop.order_avg inp)
                                    (Cfg.WarmestDisks (Cfg.Temperature config)))
                                 (Loop.now inp))) by (rewrite Hc; reflexivity).
    rewrite Hpid. split; [|split; reflexivity].
    apply Calculate_keeps_numeric; [exact Hp|].
    apply (within_weaken (pow2 63)); [apply pow2_le; lia|].
    apply GetAverageOfWarmest_within; assumption.
  - rewrite (tick_no_reading config dryRun inp st w Hr). auto.
Qed.

Lemma ticks_keep_numeric config dryRun inps : forall st w,
  (1 <= Cfg.WarmestDisks (Cfg.Temperature config))%Z ->
  Forall Obs.well_visited inps ->
  Numeric.controller (Loop.pid st) ->
  Numeric.controller (Loop.pid (fst (Loop.ticks config dryRun inps st w)))
  /\ PID.MinOutput (Loop.pid (fst (Loop.ticks config dryRun inps st w)))
     = PID.MinOutput (Loop.pid st)
  /\ PID.MaxOutput (Loop.pid (fst (Loop.ticks config dryRun inps st w)))
     = PID.MaxOutput (Loop.pid st).
Proof.
  induction inps as [|inp inps IH]; intros st w Hn Hall Hp.
  - cbn. auto.
  - inversion Hall as [|? ? Hw Hrest]; subst.
    cbn [Loop.ticks]. unfold Sys.bind.
    destruct (tick_keeps_numeric config dryRun inp st w Hn Hw Hp) as (H1 & H2 & H3).
    destruct (Loop.tick config dryRun inp st w) as [st1 w1]. cbn [fst] in *.
    destruct (IH st1 w1 Hn Hrest H1) as (I1 & I2 & I3).
    rewrite I2, I3, H2, H3. auto.
Qed.

Lemma Validate_IntegralMax config :
  Cfg.Validate config = None ->
  (Cfg.IntegralMax (Cfg.PID config) <=? zero) = false.
Proof.
  intros Hval. unfold Cfg.Validate in Hval.
  repeat match type of Hval with
         | (if ?b then _ else _) = None =>
             let E := fresh "E" in
             destruct b eqn:E; [discriminate|]
         end.
  first [assumption | reflexivity].
Qed.

(** [int(x)] of a number between two integers lies between them. *)
Lemma to_int_between (a b : Z) (q : Q) :
  (0 <= a)%Z -> (b <= GoInt.max_int)%Z ->
  (inject_Z a <= q)%Q -> (q <= inject_Z b)%Q ->
  (a <= to_int (Fin q) <= b)%Z.
Proof.
  intros Ha Hb Haq Hqb. destruct q as [n d].
  unfold Qle, inject_Z in Haq, Hqb. cbn [Qnum Qden] in Haq, Hqb.
  unfold to_int. cbn [Qnum Qden].
  assert (Hn : (0 <= n)%Z) by nia.
  rewrite Z.quot_div_nonneg by lia.
  assert (Hlo : (a <= n / Z.pos d)%Z) by (apply Z.div_le_lower_bound; lia).
  assert (Hhi : (n / Z.pos d <= b)%Z) by (apply Z.div_le_upper_bound; lia).
  assert (Hr : ((GoInt.min_int <=? n / Z.pos d) && (n / Z.pos d <=? GoInt.max_int))%Z
               = true).
  { apply andb_true_iff. unfold GoInt.min_int, GoInt.max_int in *.
    split; apply Z.leb_le; lia. }
  rewrite Hr. lia.
Qed.

(** X27.  In the loop as [main] starts it, with a configuration that
    [Validate] accepts, whose proportional gain and anti-windup limit are
    numbers and whose derivative gain and setpoint are of magnitude at most
    [2^300], the duty of an iteration in normal mode on a mean of magnitude
    at most [2^300] is the PID output truncated to an integer: the output
    already lies within [MinDuty, MaxDuty], the limits [main] gives the
    controller, so the clamping of the loop changes nothing.  The bounds
    are needed: [Validate] accepts [Kp = Kd = 1.7e308], with which the
    output of a second iteration can be NaN; its truncation is the least
    [int], and the clamping of the loop turns it into [MinDuty]. *)
Theorem normal_duty_is_truncated_output :
  (forall config dryRun inps w avgTemp now,
     Cfg.Validate config = None ->
     is_finite (Cfg.Kp (Cfg.PID config)) ->
     Numeric.moderate (Cfg.Kd (Cfg.PID config)) ->
     Numeric.moderate (Cfg.TargetHDD (Cfg.Temperature config)) ->
     is_finite (Cfg.IntegralMax (Cfg.PID config)) ->
     Forall Obs.well_visited inps ->
     Numeric.moderate avgTemp ->
     let st := fst (Loop.runControlLoop config dryRun (Main.pid config) inps w) in
     let output := fst (fst (PID.Calculate (Loop.pid st) avgTemp now)) in
     fst (fst (Loop.selectDuty config (Loop.pid st) "" avgTemp now)) = to_int output
     /\ (Cfg.MinDuty (Cfg.Fans config) <= to_int output
         <= Cfg.MaxDuty (Cfg.Fans config))%Z)
  /\ (let st := fst (Loop.runControlLoop Cases.hugeGains true
                       (Main.pid Cases.hugeGains) [Samples.normalInput]
                       Samples.workingWorld) in
      let output := fst (fst (PID.Calculate (Loop.pid st) (Fin 40) 2000000000)) in
      Cfg.Validate Cases.hugeGains = None
      /\ output = NaN
      /\ to_int output = GoInt.min_int
      /\ fst (fst (Loop.selectDuty Cases.hugeGains (Loop.pid st) "" (Fin 40)
                     2000000000)) = 30%Z).
Proof.
  split; [|vm_compute; auto].
  intros config dryRun inps w avgTemp now Hval Hkp Hkd Htg Him Hall Havg.
  cbv zeta.
  destruct (Validate_duties config Hval) as (Hmin & Hmax & _ & Hn).
  assert (Hpos : (zero <? Cfg.IntegralMax (Cfg.PID config)) = true).
  { pose proof (Validate_IntegralMax config Hval) as Hle.
    destruct (Cfg.IntegralMax (Cfg.PID config)) as [m| | |]; try contradiction.
    simpl in *. rewrite Hle. reflexivity. }
  assert (H0 : Numeric.controller (Main.pid config))
    by (apply new_controller_numeric; assumption).
  assert (Hst : forall w1,
            let st := fst (Loop.ticks config dryRun inps
                             {| Loop.pid := Main.pid config;
                                Loop.consecutiveIPMIFailures := 0 |} w1) in
            Numeric.controller (Loop.pid st)
            /\ PID.MinOutput (Loop.pid st) = of_int (Cfg.MinDuty (Cfg.Fans config))
            /\ PID.MaxOutput (Loop.pid st) = of_int (Cfg.MaxDuty (Cfg.Fans config))).
  { intros w1. cbv zeta.
    apply (ticks_keep_numeric config dryRun inps
             {| Loop.pid := Main.pid config; Loop.consecutiveIPMIFailures := 0 |}
             w1 Hn Hall H0). }
  assert (Hgoal : forall p,
            Numeric.controller p ->
            PID.MinOutput p = of_int (Cfg.MinDuty (Cfg.Fans config)) ->
            PID.MaxOutput p = of_int (Cfg.MaxDuty (Cfg.Fans config)) ->
            fst (fst (Loop.selectDuty config p "" avgTemp now))
            = to_int (fst (fst (PID.Calculate p avgTemp now)))
            /\ (Cfg.MinDuty (Cfg.Fans config)
                <= to_int (fst (fst (PID.Calculate p avgTemp now)))
                <= Cfg.MaxDuty (Cfg.Fans config))%Z).
  { intros p Hp Hlo Hhi.
    destruct (Calculate_sum_not_nan p avgTemp now Hp Havg) as (v & Hv & Hnan).
    assert (Hle : (PID.MinOutput p <=? PID.MaxOutput p) = true).
    { rewrite Hlo, Hhi. apply of_int_mono. lia. }
    destruct (clamp_within v _ _ Hnan Hle) as [H1 H2].
    rewrite <- Hv in H1, H2. rewrite Hlo in H1. rewrite Hhi in H2.
    rewrite of_int_exact in H1 by lia. rewrite of_int_exact in H2 by lia.
    assert (Hrange : (Cfg.MinDuty (Cfg.Fans config)
                      <= to_int (fst (fst (PID.Calculate p avgTemp now)))
                      <= Cfg.MaxDuty (Cfg.Fans config))%Z).
    { destruct (fst (fst (PID.Calculate p avgTemp now))) as [q| | |];
        try discriminate.
      simpl in H1, H2.
      apply Qle_bool_iff in H1. apply Qle_bool_iff in H2.
      apply to_int_between; try assumption; try lia.
      unfold GoInt.max_int. lia. }
    split; [|exact Hrange].
    unfold Loop.selectDuty. cbn [String.eqb negb].
    destruct (PID.Calculate p avgTemp now) as [[output terms] pid'].
    cbn [fst] in *.
    destruct (Z.ltb_spec (to_int output) (Cfg.MinDuty (Cfg.Fans config))); [lia|].
    destruct (Z.gtb_spec (to_int output) (Cfg.MaxDuty (Cfg.Fans config))); [lia|].
    reflexivity. }
  unfold Loop.runControlLoop, Sys.bind.
  destruct dryRun; cbn [negb Sys.ret].
  - destruct (Hst w) as (Hp & Hlo & Hhi). apply Hgoal; assumption.
  - destruct (IPMI.SetAllFans (Cfg.StartupDuty (Cfg.Fans config)) w) as [r w1].
    destruct (Hst w1) as (Hp & Hlo & Hhi). apply Hgoal; assumption.
Qed.

Lemma normal_duty_is_truncated_output_witness :
  Cfg.Validate Samples.config = None
  /\ Numeric.moderate (Cfg.Kd (Cfg.PID Samples.config))
  /\ Numeric.moderate (Cfg.TargetHDD (Cfg.Temperature Samples.config))
  /\ Forall Obs.well_visited [Samples.normalInput]
  /\ Numeric.moderate (Fin 47)
  /\ fst (fst (Loop.selectDuty Samples.config
                 (Loop.pid (fst (Loop.runControlLoop Samples.config false
                                   (Main.pid Samples.config)
                                   [Samples.normalInput] Samples.workingWorld)))
                 "" (Fin 47) 60000000000))
     = to_int (fst (fst (PID.Calculate
                           (Loop.pid (fst (Loop.runControlLoop Samples.config false
                                             (Main.pid Samples.config)
                                             [Samples.normalInput]
                                             Samples.workingWorld)))
                           (Fin 47) 60000000000))).
Proof.
  assert (Hval : Cfg.Validate Samples.config = None) by reflexivity.
  assert (Hkd : Numeric.moderate (Cfg.Kd (Cfg.PID Samples.config)))
    by (apply moderate_Fin; reflexivity).
  assert (Htg : Numeric.moderate (Cfg.TargetHDD (Cfg.Temperature Samples.config)))
    by (apply moderate_Fin; reflexivity).
  assert (Havg : Numeric.moderate (Fin 47)) by (apply moderate_Fin; reflexivity).
  assert (Hw : Forall Obs.well_visited [Samples.normalInput]).
  { constructor; [|constructor].
    unfold Obs.well_visited, Samples.normalInput, Sensors.visits. cbn.
    reflexivity. }
  split; [exact Hval|]. split; [exact Hkd|]. split; [exact Htg|].
  split; [exact Hw|]. split; [exact Havg|].
  exact (proj1 (proj1 normal_duty_is_truncated_output Samples.config false
                  [Samples.normalInput] Samples.workingWorld (Fin 47)
                  60000000000 Hval I Hkd Htg I Hw Havg)).
Defined.
